(** * LZH/LHA archive codec: decoder (decoder.ts) and encoder (encoder.ts)

    A shallow embedding of the archive reader [LZHDecoder] and the archive
    writer [LZHEncoder], and the properties of the codec's design document
    checked against them.

    Conventions of the embedding:
    - a [Uint8Array] is a [list byte]; reading an element gives its value
      as a [Z] in [0, 256) ([byteZ]), storing a number keeps its low eight
      bits ([toUint8]);
    - a JavaScript number that holds an integer is a [Z]; the bitwise
      operators work on 32-bit two's complement integers, and their
      wrap-around ([toInt32]) is written out;
    - the decoder's cursor [this.offset] is a [num]: an integer or [NaN];
    - a [Date] that the code reads is the values of its getters ([Date]);
      a [Date] that the code constructs is the call [new Date(...)] with
      its arguments ([NewDate]), which the constructor may normalise;
    - the decoder's methods run in a small state-and-exception monad [M]
      over the cursor. *)

From Stdlib Require Import ZArith Lia.
From Stdlib Require Import Strings.Byte Strings.String Strings.Ascii.
From stdpp Require Import base option list.

Open Scope Z_scope.

(** ** Bytes and typed arrays *)

Definition byteZ (b : byte) : Z := Z.of_N (Byte.to_N b).

(** Storing the number [z] into a [Uint8Array] element keeps [z mod 256]. *)
Definition toUint8 (z : Z) : byte :=
  match Byte.of_N (Z.to_N (z mod 256)) with Some b => b | None => x00 end.

(** [new Uint8Array(n)] for [0 <= n]: [n] zero bytes. *)
Definition zeros (n : Z) : list byte := replicate (Z.to_nat n) x00.

Definition len {A} (l : list A) : Z := Z.of_nat (length l).

(** ** JavaScript 32-bit integer operators *)

Definition toInt32 (z : Z) : Z := (z + 2 ^ 31) mod 2 ^ 32 - 2 ^ 31.

Definition js_or (a b : Z) : Z := Z.lor (toInt32 a) (toInt32 b).
Definition js_and (a b : Z) : Z := Z.land (toInt32 a) (toInt32 b).
Definition js_xor (a b : Z) : Z := Z.lxor (toInt32 a) (toInt32 b).
Definition js_shl (a n : Z) : Z := toInt32 (Z.shiftl (toInt32 a) (n mod 32)).
Definition js_shr (a n : Z) : Z := Z.shiftr (toInt32 a) (n mod 32).

(** ** JavaScript numbers and values

    A number that the decoder computes is an integer or [NaN]; a value
    read from a typed array is a number or [undefined] (an index outside
    the array). *)

Inductive num := Int (z : Z) | NaN.

(** A byte read from an array: [Some v], or [None] for [undefined]. *)
Definition val := option Z.

Definition toNumber (v : val) : num :=
  match v with Some z => Int z | None => NaN end.

(** [ToInt32] of a value, as the bitwise operators apply it. *)
Definition valInt32 (v : val) : Z :=
  match v with Some z => z | None => 0 end.

Definition num_add (a b : num) : num :=
  match a, b with Int x, Int y => Int (x + y) | _, _ => NaN end.

Definition num_sub (a b : num) : num :=
  match a, b with Int x, Int y => Int (x - y) | _, _ => NaN end.

(** Comparisons with [NaN] are false. *)
Definition num_gt (a b : num) : bool :=
  match a, b with Int x, Int y => x >? y | _, _ => false end.

Definition num_ge (a b : num) : bool :=
  match a, b with Int x, Int y => x >=? y | _, _ => false end.

Definition num_lt (a b : num) : bool :=
  match a, b with Int x, Int y => x <? y | _, _ => false end.

(** [a[i]] for a typed array [a]. *)
Definition index (a : list byte) (i : num) : val :=
  match i with
  | Int z => if z <? 0 then None else byteZ <$> (a !! Z.to_nat z)
  | NaN => None
  end.

(** [a.slice(s, e)] for a typed array [a]: negative bounds count from the
    end, [NaN] counts as 0, and both are clamped to the array. *)
Definition relative_index (n : Z) (x : num) : Z :=
  match x with
  | Int z => if z <? 0 then Z.max (n + z) 0 else Z.min z n
  | NaN => 0
  end.

Definition slice (a : list byte) (s e : num) : list byte :=
  let k := relative_index (len a) s in
  let final := relative_index (len a) e in
  take (Z.to_nat (final - k)) (drop (Z.to_nat k) a).

(** ** Strings

    A JavaScript string is the list of its code points.  [str] reads a
    literal of the source. *)

Abbreviation jsstring := (list Z).

Definition str (s : string) : jsstring :=
  map (fun a => Z.of_N (N_of_ascii a)) (list_ascii_of_string s).

Fixpoint startsWith (s p : jsstring) : bool :=
  match p, s with
  | [], _ => true
  | c :: p', d :: s' => (c =? d) && startsWith s' p'
  | _ :: _, [] => false
  end.

Definition str_eq (s t : jsstring) : bool := bool_decide (s = t).

(** The class [[\x00-\x1F\x7F]] of the source's regular expressions. *)
Definition is_control (c : Z) : bool :=
  ((0 <=? c) && (c <=? 0x1F)) || (c =? 0x7F).

(** [s.replace(/[\x00-\x1F\x7F]/g, '')] *)
Definition strip_control (s : jsstring) : jsstring :=
  filter (fun c => is_control c = false) s.

(** White space and line terminators of ECMAScript, as [trim] removes
    them. *)
Definition is_space (c : Z) : bool :=
  ((0x09 <=? c) && (c <=? 0x0D)) || (c =? 0x20) || (c =? 0xA0)
  || (c =? 0x1680) || ((0x2000 <=? c) && (c <=? 0x200A))
  || (c =? 0x2028) || (c =? 0x2029) || (c =? 0x202F) || (c =? 0x205F)
  || (c =? 0x3000) || (c =? 0xFEFF).

Fixpoint trimStart (s : jsstring) : jsstring :=
  match s with
  | c :: s' => if is_space c then trimStart s' else s
  | [] => []
  end.

Definition trim (s : jsstring) : jsstring :=
  reverse (trimStart (reverse (trimStart s))).

(** *** UTF-8, as [TextEncoder] and [TextDecoder] of the platform define
    it (WHATWG Encoding Standard). *)

Definition is_surrogate (c : Z) : bool := (0xD800 <=? c) && (c <=? 0xDFFF).

Definition is_scalar (c : Z) : bool :=
  (0 <=? c) && (c <=? 0x10FFFF) && negb (is_surrogate c).

Definition utf8_encode_point (c : Z) : list byte :=
  let c := if is_surrogate c then 0xFFFD else c in
  if c <=? 0x7F then [toUint8 c]
  else if c <=? 0x7FF then
    [toUint8 (0xC0 + c / 64); toUint8 (0x80 + c mod 64)]
  else if c <=? 0xFFFF then
    [toUint8 (0xE0 + c / 4096); toUint8 (0x80 + (c / 64) mod 64);
     toUint8 (0x80 + c mod 64)]
  else
    [toUint8 (0xF0 + c / 262144); toUint8 (0x80 + (c / 4096) mod 64);
     toUint8 (0x80 + (c / 64) mod 64); toUint8 (0x80 + c mod 64)].

(** [new TextEncoder().encode(s)] *)
Definition utf8_encode (s : jsstring) : list byte :=
  concat (map utf8_encode_point s).

(** The decoder's state: code point so far, bytes seen, bytes needed, and
    the bounds of the next continuation byte. *)
Record utf8_state := {
  u_point : Z; u_seen : Z; u_needed : Z; u_lower : Z; u_upper : Z }.

Definition utf8_start : utf8_state :=
  {| u_point := 0; u_seen := 0; u_needed := 0;
     u_lower := 0x80; u_upper := 0xBF |}.

(** A byte met while no sequence is open. *)
Definition utf8_lead (b : Z) : utf8_state * list Z :=
  if b <=? 0x7F then (utf8_start, [b])
  else if (0xC2 <=? b) && (b <=? 0xDF) then
    ({| u_point := b - 0xC0; u_seen := 0; u_needed := 1;
        u_lower := 0x80; u_upper := 0xBF |}, [])
  else if (0xE0 <=? b) && (b <=? 0xEF) then
    ({| u_point := b - 0xE0; u_seen := 0; u_needed := 2;
        u_lower := if b =? 0xE0 then 0xA0 else 0x80;
        u_upper := if b =? 0xED then 0x9F else 0xBF |}, [])
  else if (0xF0 <=? b) && (b <=? 0xF4) then
    ({| u_point := b - 0xF0; u_seen := 0; u_needed := 3;
        u_lower := if b =? 0xF0 then 0x90 else 0x80;
        u_upper := if b =? 0xF4 then 0x8F else 0xBF |}, [])
  else (utf8_start, [0xFFFD]).

(** One byte of input: the new state and the code points emitted.  A byte
    outside the bounds closes the open sequence with U+FFFD and is then
    handled again as a lead byte. *)
Definition utf8_step (s : utf8_state) (b : Z) : utf8_state * list Z :=
  if u_needed s =? 0 then utf8_lead b
  else if negb ((u_lower s <=? b) && (b <=? u_upper s)) then
    let '(s', out) := utf8_lead b in (s', 0xFFFD :: out)
  else
    let point := u_point s * 64 + (b - 0x80) in
    if u_seen s + 1 =? u_needed s then (utf8_start, [point])
    else ({| u_point := point; u_seen := u_seen s + 1;
             u_needed := u_needed s;
             u_lower := 0x80; u_upper := 0xBF |}, []).

Fixpoint utf8_run (s : utf8_state) (bytes : list byte) : jsstring :=
  match bytes with
  | [] => if u_needed s =? 0 then [] else [0xFFFD]
  | b :: rest =>
      let '(s', out) := utf8_step s (byteZ b) in out ++ utf8_run s' rest
  end.

(** [new TextDecoder('utf-8', { fatal: false }).decode(bytes)]: errors
    become U+FFFD and a leading byte order mark is dropped. *)
Definition utf8_decode (bytes : list byte) : jsstring :=
  match utf8_run utf8_start bytes with
  | c :: rest => if c =? 0xFEFF then rest else c :: rest
  | [] => []
  end.

(** ** Timestamps

    A [Date] that the code reads: the local-time components that its
    getters return. *)

Record Date := {
  getFullYear : Z; getMonth : Z; getDate : Z;
  getHours : Z; getMinutes : Z; getSeconds : Z }.

(** A [Date] that the code constructs, given by the call
    [new Date(year, month, day, hour, minute, second)] that constructs it.
    The constructor brings arguments outside their ranges into them
    (month -1 is December of the year before, day 0 the last day of the
    month before, 29 February of a common year is 1 March), so the
    arguments are the local-time components of the constructed [Date]
    only when they denote an existing local time. *)
Record NewDate := {
  year : Z; month : Z; day : Z; hour : Z; minute : Z; second : Z }.

(** ** The state-and-exception monad of the decoder *)

Inductive result (A : Type) :=
  | Ok (a : A)
  | Throw
  | OutOfFuel.
Arguments Ok {A} a.
Arguments Throw {A}.
Arguments OutOfFuel {A}.

(** A method of the decoder: from the cursor [this.offset] to a value and
    the new cursor, or an exception. *)
Definition M (A : Type) : Type := num -> result (A * num).

Definition ret {A} (a : A) : M A := fun s => Ok (a, s).

Definition bind {A B} (m : M A) (k : A -> M B) : M B :=
  fun s =>
    match m s with
    | Ok (a, s') => k a s'
    | Throw => Throw
    | OutOfFuel => OutOfFuel
    end.

Notation "x <- m ;; k" := (bind m (fun x => k))
  (at level 100, m at next level, k at level 200, right associativity).

Definition get_offset : M num := fun s => Ok (s, s).

Definition lift {A} (r : result A) : M A :=
  fun s =>
    match r with
    | Ok a => Ok (a, s)
    | Throw => Throw
    | OutOfFuel => OutOfFuel
    end.

(** ** The decoder (decoder.ts) *)

Module LZHDecoder.

Record LHAFile := {
  filename : jsstring;
  originalSize : Z;
  compressedSize : Z;
  timestamp : NewDate;
  crc : Z;
  method : jsstring;
  os : val;
  data : list byte }.

(** *** LH1: LZSS with a 4KB dictionary *)

(** The variables [inPos], [bitBuffer] and [bitCount] that the closures
    [getBit] and [getBits] capture. *)
Record bitreader := { inPos : Z; bitBuffer : Z; bitCount : Z }.

Definition getBit (compressed : list byte) (r : bitreader) : Z * bitreader :=
  if (bitCount r =? 0) && (inPos r >=? len compressed) then (0, r)
  else
    let r1 :=
      if bitCount r =? 0
      then {| inPos := inPos r + 1;
              bitBuffer := valInt32 (index compressed (Int (inPos r)));
              bitCount := 8 |}
      else r in
    (js_and (bitBuffer r1) 1,
     {| inPos := inPos r1;
        bitBuffer := js_shr (bitBuffer r1) 1;
        bitCount := bitCount r1 - 1 |}).

(** [getBits(n)]: the loop [for (i = 0; i < n; i++) value |= getBit() << i],
    from index [i] and partial [value], with [n] rounds left. *)
Fixpoint getBits_from (compressed : list byte) (n : nat) (i value : Z)
    (r : bitreader) : Z * bitreader :=
  match n with
  | O => (value, r)
  | S n' =>
      let '(bit, r') := getBit compressed r in
      getBits_from compressed n' (i + 1) (js_or value (js_shl bit i)) r'
  end.

Definition getBits (compressed : list byte) (n : nat) (r : bitreader)
    : Z * bitreader :=
  getBits_from compressed n 0 0 r.

Record lh1_state := {
  output : list byte; outPos : Z;
  dictionary : list byte; dictPos : Z;
  reader : bitreader }.

(** [output[outPos++] = byte; dictionary[dictPos] = byte;
     dictPos = (dictPos + 1) & 4095] *)
Definition lh1_emit (byte : Z) (s : lh1_state) : lh1_state :=
  {| output := <[Z.to_nat (outPos s) := toUint8 byte]> (output s);
     outPos := outPos s + 1;
     dictionary := <[Z.to_nat (dictPos s) := toUint8 byte]> (dictionary s);
     dictPos := js_and (dictPos s + 1) 4095;
     reader := reader s |}.

(** The copy loop of a match:
    [for (i = 0; i < length && outPos < originalSize; i++)], with [n]
    rounds left. *)
Fixpoint lh1_copy (n : nat) (originalSize position : Z) (s : lh1_state)
    : lh1_state :=
  match n with
  | O => s
  | S n' =>
      if outPos s <? originalSize
      then
        let byte := valInt32 (index (dictionary s) (Int position)) in
        lh1_copy n' originalSize position (lh1_emit byte s)
      else s
  end.

(** One round of the main loop: a literal or a match. *)
Definition lh1_token (compressed : list byte) (originalSize : Z)
    (s : lh1_state) : lh1_state :=
  let '(flag, r1) := getBit compressed (reader s) in
  if negb (flag =? 0) then
    let '(byte, r2) := getBits compressed 8 r1 in
    lh1_emit byte
      {| output := output s; outPos := outPos s;
         dictionary := dictionary s; dictPos := dictPos s; reader := r2 |}
  else
    let '(position, r2) := getBits compressed 12 r1 in
    let '(length, r3) := getBits compressed 4 r2 in
    lh1_copy (Z.to_nat (length + 3)) originalSize position
      {| output := output s; outPos := outPos s;
         dictionary := dictionary s; dictPos := dictPos s; reader := r3 |}.

(** [while (outPos < originalSize && inPos < compressed.length)]; [None]
    when the loop is still running after [fuel] rounds. *)
Fixpoint lh1_loop (fuel : nat) (compressed : list byte) (originalSize : Z)
    (s : lh1_state) : option lh1_state :=
  if (outPos s <? originalSize) && (inPos (reader s) <? len compressed)
  then
    match fuel with
    | O => None
    | S fuel' =>
        lh1_loop fuel' compressed originalSize
          (lh1_token compressed originalSize s)
    end
  else Some s.

Definition lh1_start (originalSize : Z) : lh1_state :=
  {| output := zeros originalSize; outPos := 0;
     dictionary := zeros 4096; dictPos := 0;
     reader := {| inPos := 0; bitBuffer := 0; bitCount := 0 |} |}.

(** The final state of [decompressLH1]; every round emits a byte, so
    [originalSize] rounds are enough. *)
Definition decompressLH1_run (compressed : list byte) (originalSize : Z)
    : option lh1_state :=
  lh1_loop (Z.to_nat originalSize) compressed originalSize
    (lh1_start originalSize).

(** [new Uint8Array(originalSize)] throws a [RangeError] for a negative
    size. *)
Definition decompressLH1 (compressed : list byte) (originalSize : Z)
    : result (list byte) :=
  if originalSize <? 0 then Throw
  else
    match decompressLH1_run compressed originalSize with
    | Some s => Ok (output s)
    | None => OutOfFuel
    end.

(** *** LH5: the simplified LZSS with an 8KB window *)

Definition windowSize : Z := 8192.

Record lh5_state := {
  output5 : list byte; outPos5 : Z;
  window : list byte; windowPos : Z;
  inPos5 : Z }.

Definition lh5_emit (byte : Z) (s : lh5_state) : lh5_state :=
  {| output5 := <[Z.to_nat (outPos5 s) := toUint8 byte]> (output5 s);
     outPos5 := outPos5 s + 1;
     window := <[Z.to_nat (windowPos s) := toUint8 byte]> (window s);
     windowPos := Z.rem (windowPos s + 1) windowSize;
     inPos5 := inPos5 s |}.

Definition lh5_skip (k : Z) (s : lh5_state) : lh5_state :=
  {| output5 := output5 s; outPos5 := outPos5 s;
     window := window s; windowPos := windowPos s;
     inPos5 := inPos5 s + k |}.

(** The copy loop of a match, with [n] rounds left. *)
Fixpoint lh5_copy (n : nat) (originalSize offset : Z) (s : lh5_state)
    : lh5_state :=
  match n with
  | O => s
  | S n' =>
      if outPos5 s <? originalSize
      then
        let pos := Z.rem (windowPos s - offset + windowSize) windowSize in
        let byte := valInt32 (index (window s) (Int pos)) in
        lh5_copy n' originalSize offset (lh5_emit byte s)
      else s
  end.

(** The loop over the bits of a flag byte:
    [for (bit = 0; bit < 8 && outPos < originalSize
          && inPos < compressed.length; bit++)], with [n] rounds left. *)
Fixpoint lh5_bits (n : nat) (compressed : list byte) (originalSize : Z)
    (flag bit : Z) (s : lh5_state) : lh5_state :=
  match n with
  | O => s
  | S n' =>
      if (outPos5 s <? originalSize) && (inPos5 s <? len compressed)
      then
        if negb (js_and flag (js_shl 1 bit) =? 0) then
          let byte := valInt32 (index compressed (Int (inPos5 s))) in
          lh5_bits n' compressed originalSize flag (bit + 1)
            (lh5_emit byte (lh5_skip 1 s))
        else if inPos5 s + 1 >=? len compressed then s
        else
          let byte1 := valInt32 (index compressed (Int (inPos5 s))) in
          let byte2 := valInt32 (index compressed (Int (inPos5 s + 1))) in
          let offset := js_or (js_shl (js_and byte2 0xF0) 4) byte1 in
          let length := js_and byte2 0x0F + 3 in
          lh5_bits n' compressed originalSize flag (bit + 1)
            (lh5_copy (Z.to_nat length) originalSize offset (lh5_skip 2 s))
      else s
  end.

(** One round of the outer loop: a flag byte and its tokens. *)
Definition lh5_group (compressed : list byte) (originalSize : Z)
    (s : lh5_state) : lh5_state :=
  let flag := valInt32 (index compressed (Int (inPos5 s))) in
  lh5_bits 8 compressed originalSize flag 0 (lh5_skip 1 s).

Fixpoint lh5_loop (fuel : nat) (compressed : list byte) (originalSize : Z)
    (s : lh5_state) : option lh5_state :=
  if (outPos5 s <? originalSize) && (inPos5 s <? len compressed)
  then
    match fuel with
    | O => None
    | S fuel' =>
        lh5_loop fuel' compressed originalSize
          (lh5_group compressed originalSize s)
    end
  else Some s.

Definition lh5_start (originalSize : Z) : lh5_state :=
  {| output5 := zeros originalSize; outPos5 := 0;
     window := zeros windowSize; windowPos := 0; inPos5 := 0 |}.

(** The final state of [decompressLH5]; every round reads a flag byte, so
    [compressed.length] rounds are enough. *)
Definition decompressLH5_run (compressed : list byte) (originalSize : Z)
    : option lh5_state :=
  lh5_loop (length compressed) compressed originalSize
    (lh5_start originalSize).

Definition decompressLH5 (compressed : list byte) (originalSize : Z)
    : result (list byte) :=
  if originalSize <? 0 then Throw
  else
    match decompressLH5_run compressed originalSize with
    | Some s => Ok (output5 s)
    | None => OutOfFuel
    end.

(** *** The choice of the decompression routine (readHeader, lines
    179-196) *)

Definition is_lzss_method (method : jsstring) : bool :=
  str_eq method (str "-lh1-") || str_eq method (str "-lh4-")
  || str_eq method (str "-lh5-") || str_eq method (str "-lh6-")
  || str_eq method (str "-lh7-").

Definition decompress (method : jsstring) (compressedData : list byte)
    (originalSize : Z) : result (list byte) :=
  if str_eq method (str "-lh0-") then Ok compressedData
  else if str_eq method (str "-lh1-") then
    decompressLH1 compressedData originalSize
  else if str_eq method (str "-lh4-") || str_eq method (str "-lh5-")
          || str_eq method (str "-lh6-") || str_eq method (str "-lh7-")
  then decompressLH5 compressedData originalSize
  else if str_eq method (str "-lhd-") then Ok []
  else Ok compressedData.

(** *** Timestamps *)

(** [return new Date(year, month, day, hour, minute, second)]: the result
    is given by the arguments of the call. *)
Definition dosDateTimeToDate (dosDate dosTime : Z) : NewDate :=
  {| year := 1980 + js_and (js_shr dosDate 9) 0x7F;
     month := js_and (js_shr dosDate 5) 0x0F - 1;
     day := js_and dosDate 0x1F;
     hour := js_and (js_shr dosTime 11) 0x1F;
     minute := js_and (js_shr dosTime 5) 0x3F;
     second := js_and dosTime 0x1F * 2 |}.

(** *** Reading from the buffer *)

Section Reader.

Variable buffer : list byte.

Definition readByte : M val :=
  fun offset =>
    if num_ge offset (Int (len buffer)) then Throw
    else Ok (index buffer offset, num_add offset (Int 1)).

Definition readWord : M Z :=
  low <- readByte ;;
  high <- readByte ;;
  ret (js_or (valInt32 low) (js_shl (valInt32 high) 8)).

Definition readDWord : M Z :=
  low <- readWord ;;
  high <- readWord ;;
  ret (js_or low (js_shl high 16)).

Definition readBytes (length : num) : M (list byte) :=
  fun offset =>
    if num_gt (num_add offset length) (Int (len buffer)) then Throw
    else Ok (slice buffer offset (num_add offset length),
             num_add offset length).

(** The index of the first null byte. *)
Fixpoint find_null (bytes : list byte) : option nat :=
  match bytes with
  | [] => None
  | b :: rest =>
      if byteZ b =? 0 then Some O else S <$> find_null rest
  end.

Definition readString (length : val) : M jsstring :=
  bytes <- readBytes (toNumber length) ;;
  let validBytes :=
    match find_null bytes with
    | Some i => slice bytes (Int 0) (Int (Z.of_nat i))
    | None =>
        match length with
        | Some n => slice bytes (Int 0) (Int n)
        | None => bytes
        end
    end in
  ret (strip_control (utf8_decode validBytes)).

(** The extended headers of a level 1 header (readHeader, lines 157-161);
    [OutOfFuel] when the loop is still running after [fuel] rounds. *)
Fixpoint skipExtendedHeaders (fuel : nat) : M unit :=
  match fuel with
  | O => fun _ => OutOfFuel
  | S fuel' =>
      extSize <- readWord ;;
      if extSize =? 0 then ret tt
      else
        _ <- readBytes (Int (extSize - 2)) ;;
        skipExtendedHeaders fuel'
  end.

(** The rest of a level 2 header (readHeader, lines 164-167). *)
Definition skipLevel2 (headerSize : val) : M unit :=
  totalHeaderSize <- readWord ;;
  if num_gt (Int totalHeaderSize) (toNumber headerSize) then
    _ <- readBytes
           (num_sub (num_sub (Int totalHeaderSize) (toNumber headerSize))
              (Int 2)) ;;
    ret tt
  else ret tt.

Definition val_eq (v : val) (z : Z) : bool :=
  match v with Some x => x =? z | None => false end.

Definition sanitize (filename : jsstring) : jsstring :=
  let s := trim (strip_control filename) in
  match s with [] => str "unnamed" | _ => s end.

Definition readHeader : M (option LHAFile) :=
  offset <- get_offset ;;
  if num_ge offset (Int (len buffer)) then ret None else
  headerSize <- readByte ;;
  if val_eq headerSize 0 || num_gt (toNumber headerSize) (Int 128)
  then ret None else
  headerChecksum <- readByte ;;
  method <- readString (Some 5) ;;
  if negb (startsWith method (str "-lh"))
     && negb (startsWith method (str "-lz"))
     && negb (str_eq method (str "-lhd-"))
  then ret None else
  compressedSize <- readDWord ;;
  originalSize <- readDWord ;;
  if (compressedSize >? len buffer) || (originalSize >? 100 * 1024 * 1024)
  then ret None else
  dosTime <- readWord ;;
  dosDate <- readWord ;;
  let timestamp := dosDateTimeToDate dosDate dosTime in
  attributes <- readByte ;;
  level <- readByte ;;
  filenameLength <- readByte ;;
  filename <- readString filenameLength ;;
  crc <- readWord ;;
  os <- (if num_ge (toNumber level) (Int 1) then readByte
         else ret (Some 0)) ;;
  _ <- (if val_eq level 1 then skipExtendedHeaders (length buffer + 3)
        else if val_eq level 2 then skipLevel2 headerSize
        else ret tt) ;;
  offset <- get_offset ;;
  if num_gt (num_add offset (Int compressedSize)) (Int (len buffer))
  then ret None else
  compressedData <- readBytes (Int compressedSize) ;;
  decompressedData <- lift (decompress method compressedData originalSize) ;;
  ret (Some {| filename := sanitize filename;
               originalSize := originalSize;
               compressedSize := compressedSize;
               timestamp := timestamp;
               crc := crc;
               method := method;
               os := os;
               data := decompressedData |}).

(** The loop of [extractAll] from cursor [offset] with the entries [files]
    found so far; [None] when it is still running after [fuel] rounds.  An
    exception of [readHeader] is caught and ends the loop. *)
Fixpoint extractAll_loop (fuel : nat) (offset : num) (files : list LHAFile)
    : option (list LHAFile) :=
  if num_lt offset (Int (len buffer)) then
    match fuel with
    | O => None
    | S fuel' =>
        match readHeader offset with
        | Ok (Some file, offset') =>
            extractAll_loop fuel' offset' (files ++ [file])
        | Ok (None, _) => Some files
        | Throw => Some files
        | OutOfFuel => None
        end
    end
  else Some files.

Definition extractAll (fuel : nat) : option (list LHAFile) :=
  extractAll_loop fuel (Int 0) [].

End Reader.

End LZHDecoder.

(** ** The encoder (encoder.ts) *)

Module LZHEncoder.

Record LHAFileInput := {
  filename : jsstring;
  data : list byte;
  timestamp : option Date }.

Definition writeWord (buffer : list byte) (offset value : Z) : list byte :=
  <[Z.to_nat (offset + 1) := toUint8 (js_and (js_shr value 8) 0xFF)]>
    (<[Z.to_nat offset := toUint8 (js_and value 0xFF)]> buffer).

Definition writeDWord (buffer : list byte) (offset value : Z) : list byte :=
  <[Z.to_nat (offset + 3) := toUint8 (js_and (js_shr value 24) 0xFF)]>
    (<[Z.to_nat (offset + 2) := toUint8 (js_and (js_shr value 16) 0xFF)]>
       (<[Z.to_nat (offset + 1) := toUint8 (js_and (js_shr value 8) 0xFF)]>
          (<[Z.to_nat offset := toUint8 (js_and value 0xFF)]> buffer))).

(** The packed [(date, time)] of a timestamp. *)
Definition dateToDosTime (date : Date) : Z * Z :=
  let year := Z.max 1980 (Z.min 2107 (getFullYear date)) in
  let month := getMonth date + 1 in
  let day := getDate date in
  let hour := getHours date in
  let minute := getMinutes date in
  let second := getSeconds date / 2 in
  let dosDate := js_or (js_or (js_shl (year - 1980) 9) (js_shl month 5)) day in
  let dosTime := js_or (js_or (js_shl hour 11) (js_shl minute 5)) second in
  (dosDate, dosTime).

(** [sum += header[i]] adds [undefined] outside the array, which makes
    the sum [NaN]; [NaN & 0xFF] is 0. *)
Definition calculateHeaderChecksum (header : list byte) (start length : Z)
    : Z :=
  match fold_left (fun sum i => num_add sum (toNumber (index header (Int i))))
          (seqZ start length) (Int 0) with
  | Int sum => js_and sum 0xFF
  | NaN => 0
  end.

Definition crc_round (crc : Z) : Z :=
  if js_and crc 0x8000 =? 0
  then js_shl crc 1
  else js_xor (js_shl crc 1) 0x1021.

(** One round of the outer loop: [crc ^= data[i] << 8], then the eight
    rounds of the inner loop. *)
Definition crc_byte (crc : Z) (b : byte) : Z :=
  Nat.iter 8 crc_round (js_xor crc (js_shl (byteZ b) 8)).

Definition calculateCRC16 (data : list byte) : Z :=
  js_and (fold_left crc_byte data 0) 0xFFFF.

(** The header of one entry.  [now] is the clock, read when the input has
    no timestamp.  The two [set] calls write inside the header. *)
Definition fileHeader (now : Date) (file : LHAFileInput) : list byte :=
  let timestamp := default now (timestamp file) in
  let method := str "-lh0-" in
  let compressedData := data file in
  let originalSize := len (data file) in
  let compressedSize := len compressedData in
  let crc := calculateCRC16 (data file) in
  let filenameBytes := utf8_encode (filename file) in
  let filenameLength := Z.min (len filenameBytes) 255 in
  let baseHeaderSize := 2 + 5 + 4 + 4 + 2 + 2 + 1 + 1 + 1 + filenameLength + 2 in
  let headerSize := baseHeaderSize - 2 in
  let header := zeros baseHeaderSize in
  let header := <[Z.to_nat 0 := toUint8 headerSize]> header in
  let checksumOffset := 1 in
  let header := <[Z.to_nat 1 := toUint8 0]> header in
  let methodBytes := utf8_encode method in
  let header := list_inserts (Z.to_nat 2) methodBytes header in
  let header := writeDWord header 7 compressedSize in
  let header := writeDWord header 11 originalSize in
  let dosTime := dateToDosTime timestamp in
  let header := writeWord header 15 (snd dosTime) in
  let header := writeWord header 17 (fst dosTime) in
  let header := <[Z.to_nat 19 := toUint8 0x20]> header in
  let header := <[Z.to_nat 20 := toUint8 0x00]> header in
  let header := <[Z.to_nat 21 := toUint8 filenameLength]> header in
  let header :=
    list_inserts (Z.to_nat 22)
      (slice filenameBytes (Int 0) (Int filenameLength)) header in
  let header := writeWord header (22 + filenameLength) crc in
  <[Z.to_nat checksumOffset :=
      toUint8 (calculateHeaderChecksum header 2 headerSize)]> header.

(** [writeFileHeader] pushes the header and the data onto [this.output]. *)
Definition writeFileHeader (now : Date) (output : list (list byte))
    (file : LHAFileInput) : list (list byte) :=
  output ++ [fileHeader now file; data file].

Definition create (now : Date) (files : list LHAFileInput) : list byte :=
  let output := fold_left (writeFileHeader now) files [] in
  let output := output ++ [[x00]] in
  let totalLength := fold_left (fun sum chunk => sum + len chunk) output 0 in
  let result := zeros totalLength in
  fst (fold_left
         (fun '(result, offset) chunk =>
            (list_inserts (Z.to_nat offset) chunk result, offset + len chunk))
         output (result, 0)).

(** The reference CCITT CRC-16 of the design document: a 16-bit
    accumulator, polynomial 0x1021, most significant bit first, initial
    value 0.  This definition follows the document's words; it is compared
    with [calculateCRC16] below. *)
Definition crc16_reference_round (acc : Z) : Z :=
  if Z.testbit acc 15
  then Z.land (Z.lxor (Z.shiftl acc 1) 0x1021) 0xFFFF
  else Z.land (Z.shiftl acc 1) 0xFFFF.

Definition crc16_reference_byte (acc : Z) (b : byte) : Z :=
  Nat.iter 8 crc16_reference_round (Z.lxor acc (Z.shiftl (byteZ b) 8)).

Definition crc16_reference (data : list byte) : Z :=
  Z.land (fold_left crc16_reference_byte data 0) 0xFFFF.

End LZHEncoder.

(** ** Vocabulary of the statements *)

(** The calendar fields of a [Date] are in the ranges of its getters. *)
Definition valid_fields (d : Date) : Prop :=
  0 <= getMonth d <= 11 /\ 1 <= getDate d <= 31 /\ 0 <= getHours d <= 23
  /\ 0 <= getMinutes d <= 59 /\ 0 <= getSeconds d <= 59.

Definition with_year (y : Z) (d : Date) : Date :=
  {| getFullYear := y; getMonth := getMonth d; getDate := getDate d;
     getHours := getHours d; getMinutes := getMinutes d;
     getSeconds := getSeconds d |}.

(** A 24-byte level 0 header (method -lh0-, empty file name) that declares
    the compressed size 0xFFFFFFE8 and the original size 0. *)
Definition negative_size_archive : list byte :=
  map toUint8
    [22; 0; 0x2D; 0x6C; 0x68; 0x30; 0x2D; 0xE8; 0xFF; 0xFF; 0xFF;
     0; 0; 0; 0; 0; 0; 0; 0; 0x20; 0; 0; 0; 0].

(** A level 0 header (method -lh0-, file name "a", no payload) that
    declares the original size 0xFFFFFFFF, followed by the end marker. *)
Definition huge_original_archive : list byte :=
  map toUint8
    [23; 0; 0x2D; 0x6C; 0x68; 0x30; 0x2D; 0; 0; 0; 0;
     0xFF; 0xFF; 0xFF; 0xFF; 0; 0; 0; 0; 0x20; 0; 1; 0x61; 0; 0; 0].

(** A stored entry (method -lh0-, file name "a") that declares the
    compressed size 3 and the original size 0, its three payload bytes and
    the end marker. *)
Definition stored_archive : list byte :=
  map toUint8
    [23; 0; 0x2D; 0x6C; 0x68; 0x30; 0x2D; 3; 0; 0; 0;
     0; 0; 0; 0; 0; 0; 0; 0; 0x20; 0; 1; 0x61; 0; 0; 7; 8; 9; 0].

(** An LH1 stream: the literals 'A', 'B', 'C', then a match at dictionary
    position 0 with length field 0 (three bytes). *)
Definition lh1_vector : list byte :=
  map toUint8 [0x83; 0x0A; 0x1D; 0x02; 0x00; 0x00].

(** The copy loop of a match as the design document words it: the bytes
    are read from consecutive dictionary positions, starting at
    [position].  Compared with [LZHDecoder.lh1_copy] below. *)
Fixpoint lh1_copy_documented (n : nat) (originalSize position : Z)
    (s : LZHDecoder.lh1_state) : LZHDecoder.lh1_state :=
  match n with
  | O => s
  | S n' =>
      if LZHDecoder.outPos s <? originalSize
      then
        let byte :=
          valInt32 (index (LZHDecoder.dictionary s) (Int position)) in
        lh1_copy_documented n' originalSize (js_and (position + 1) 4095)
          (LZHDecoder.lh1_emit byte s)
      else s
  end.

(** The cursor [o] lies inside [buffer] and the bytes from it on are
    [rest]. *)
Definition at_cursor (buffer : list byte) (o : Z) (rest : list byte) : Prop :=
  0 <= o <= len buffer /\ drop (Z.to_nat o) buffer = rest.


(** The bytes that [writeWord] and [writeDWord] store. *)
Definition word_bytes (value : Z) : list byte :=
  [toUint8 (js_and value 0xFF); toUint8 (js_and (js_shr value 8) 0xFF)].

Definition dword_bytes (value : Z) : list byte :=
  [toUint8 (js_and value 0xFF); toUint8 (js_and (js_shr value 8) 0xFF);
   toUint8 (js_and (js_shr value 16) 0xFF);
   toUint8 (js_and (js_shr value 24) 0xFF)].

(** The file name bytes that the encoder stores: at most 255. *)
Definition stored_name (file : LZHEncoder.LHAFileInput) : list byte :=
  let filenameBytes := utf8_encode (LZHEncoder.filename file) in
  slice filenameBytes (Int 0) (Int (Z.min (len filenameBytes) 255)).

(** The fields of a header after the first two bytes, in wire order. *)
Definition header_fields (now : Date) (file : LZHEncoder.LHAFileInput)
    : list byte :=
  let dosTime :=
    LZHEncoder.dateToDosTime (default now (LZHEncoder.timestamp file)) in
  utf8_encode (str "-lh0-")
  ++ dword_bytes (len (LZHEncoder.data file))
  ++ dword_bytes (len (LZHEncoder.data file))
  ++ word_bytes (snd dosTime) ++ word_bytes (fst dosTime)
  ++ [toUint8 0x20; toUint8 0x00; toUint8 (len (stored_name file))]
  ++ stored_name file
  ++ word_bytes (LZHEncoder.calculateCRC16 (LZHEncoder.data file)).

Definition sum_bytes (l : list byte) : Z :=
  fold_right (fun b acc => byteZ b + acc) 0 l.
(** An input whose file name is 234 letters 'a'. *)
Definition long_name_input : LZHEncoder.LHAFileInput :=
  {| LZHEncoder.filename := replicate 234 0x61;
     LZHEncoder.data := [];
     LZHEncoder.timestamp :=
       Some {| getFullYear := 2024; getMonth := 1; getDate := 29;
               getHours := 13; getMinutes := 37; getSeconds := 59 |} |}.

Definition epoch : Date :=
  {| getFullYear := 1980; getMonth := 0; getDate := 1;
     getHours := 0; getMinutes := 0; getSeconds := 0 |}.

(** The output buffer of a decompression routine: [n] bytes, of which
    those from the write position [pos] on are still zero. *)
Definition output_ok (n : Z) (out : list byte) (pos : Z) : Prop :=
  len out = n /\ 0 <= pos <= n
  /\ forall i, pos <= i < n -> out !! Z.to_nat i = Some x00.

(** The run of the LZSS routine that [decompress] chooses for [method]:
    the output buffer, the number of bytes produced and the number of
    input bytes consumed. *)
Definition lzss_run (method : jsstring) (compressed : list byte)
    (originalSize : Z) : option (list byte * Z * Z) :=
  if str_eq method (str "-lh1-") then
    (fun s => (LZHDecoder.output s, LZHDecoder.outPos s,
               LZHDecoder.inPos (LZHDecoder.reader s)))
    <$> LZHDecoder.decompressLH1_run compressed originalSize
  else
    (fun s => (LZHDecoder.output5 s, LZHDecoder.outPos5 s,
               LZHDecoder.inPos5 s))
    <$> LZHDecoder.decompressLH5_run compressed originalSize.

(** A level 0 header with method -lh1-, file name "a", compressed size 6
    and original size 8, the stream [lh1_vector] and the end marker. *)
Definition lh1_archive : list byte :=
  map toUint8
    [23; 0; 0x2D; 0x6C; 0x68; 0x31; 0x2D; 6; 0; 0; 0;
     8; 0; 0; 0; 0; 0; 0; 0; 0x20; 0; 1; 0x61; 0; 0]
  ++ lh1_vector ++ [x00].

(** A file name that the archive stores and returns unchanged: not empty,
    made of scalar values that are not control characters, without white
    space at either end, and at most 106 bytes long in UTF-8. *)
Definition well_named (name : jsstring) : Prop :=
  name <> []
  /\ Forall (fun c => is_scalar c = true /\ is_control c = false) name
  /\ (forall c, head name = Some c -> is_space c = false)
  /\ (forall c, last name = Some c -> is_space c = false)
  /\ len (utf8_encode name) <= 106.

Definition roundtrip_input (file : LZHEncoder.LHAFileInput) : Prop :=
  well_named (LZHEncoder.filename file)
  /\ len (LZHEncoder.data file) <= 100 * 1024 * 1024.

(** The 16-bit value that [readWord] reads from the bytes that
    [writeWord] stores for [value]. *)
Definition stored_word (value : Z) : Z :=
  byteZ (toUint8 (js_and value 0xFF))
  + byteZ (toUint8 (js_and (js_shr value 8) 0xFF)) * 2 ^ 8.

(** The entry that the decoder returns for an input of the encoder. *)
Definition decoded_entry (now : Date) (file : LZHEncoder.LHAFileInput)
    : LZHDecoder.LHAFile :=
  let dosTime :=
    LZHEncoder.dateToDosTime (default now (LZHEncoder.timestamp file)) in
  {| LZHDecoder.filename := LZHEncoder.filename file;
     LZHDecoder.originalSize := len (LZHEncoder.data file);
     LZHDecoder.compressedSize := len (LZHEncoder.data file);
     LZHDecoder.timestamp :=
       LZHDecoder.dosDateTimeToDate (stored_word (fst dosTime))
         (stored_word (snd dosTime));
     LZHDecoder.crc := LZHEncoder.calculateCRC16 (LZHEncoder.data file);
     LZHDecoder.method := str "-lh0-";
     LZHDecoder.os := Some 0;
     LZHDecoder.data := LZHEncoder.data file |}.

(** The header and the payload of one entry, as [create] lays them out. *)
Definition entry_block (now : Date) (file : LZHEncoder.LHAFileInput)
    : list byte :=
  LZHEncoder.fileHeader now file ++ LZHEncoder.data file.

(** An input with an empty file name. *)
Definition unnamed_input : LZHEncoder.LHAFileInput :=
  {| LZHEncoder.filename := []; LZHEncoder.data := [];
     LZHEncoder.timestamp := None |}.
(** An input named "a.txt" with two bytes of data. *)
Definition sample_input : LZHEncoder.LHAFileInput :=
  {| LZHEncoder.filename := str "a.txt";
     LZHEncoder.data := [x41; x42];
     LZHEncoder.timestamp := None |}.

(** The bytes that the entries take in the archive when each header has
    its least size of 24 bytes. *)
Definition blocks_size (files : list LZHDecoder.LHAFile) : Z :=
  fold_right (fun f acc => 24 + LZHDecoder.compressedSize f + acc) 0 files.

(** ** handlers/lzh.ts: the conversions of [LZHHandler.doConvert] that
    use the codec alone

    The handler is taken to be initialised ([ready] is true; otherwise
    [doConvert] throws at once).  The branches that list an archive as
    JSON or that read or write ZIP files go through [JSON.stringify] and
    JSZip and are not modelled. *)

(** [s.endsWith(t)] *)
Definition endsWith (s t : jsstring) : bool :=
  startsWith (reverse s) (reverse t).

(** [s.replace(/\\/g, "/")] *)
Definition replace_backslash (s : jsstring) : jsstring :=
  map (fun c => if c =? 0x5C then 0x2F else c) s.

(** [s.split(sep)] for a separator of one character: never empty. *)
Fixpoint split (sep : Z) (s : jsstring) : list jsstring :=
  match s with
  | [] => [[]]
  | c :: s' =>
      if c =? sep then [] :: split sep s'
      else match split sep s' with
           | seg :: segs => (c :: seg) :: segs
           | [] => [[c]]
           end
  end.

Module LZHHandler.

Record FileData := {
  name : jsstring;
  bytes : list byte }.

(** The test for directory entries. *)
Definition isDirectory (file : LZHDecoder.LHAFile) : bool :=
  str_eq (LZHDecoder.method file) (str "-lhd-")
  || endsWith (LZHDecoder.filename file) (str "/").

(** [file.filename.replace(/\\/g, "/").split("/").pop() || file.filename]:
    the empty string counts as false. *)
Definition outputName (file : LZHDecoder.LHAFile) : jsstring :=
  match last (split 0x2F (replace_backslash (LZHDecoder.filename file))) with
  | Some (c :: filename) => c :: filename
  | _ => LZHDecoder.filename file
  end.

(** The files pushed for the entries of one archive. *)
Definition extractedOutput (extractedFiles : list LZHDecoder.LHAFile)
    : list FileData :=
  map (fun file => {| name := outputName file;
                      bytes := LZHDecoder.data file |})
    (filter (fun file => isDirectory file = false) extractedFiles).

(** The branch [inputFormat.internal === "lzh"] for an output format other
    than JSON and ZIP: every archive is extracted into individual files.
    [None] when [extractAll] is still running after [fuel] rounds. *)
Fixpoint extractFiles (fuel : nat) (inputFiles outputFiles : list FileData)
    : option (list FileData) :=
  match inputFiles with
  | [] => Some outputFiles
  | inputFile :: inputFiles' =>
      match LZHDecoder.extractAll (bytes inputFile) fuel with
      | Some extractedFiles =>
          extractFiles fuel inputFiles'
            (outputFiles ++ extractedOutput extractedFiles)
      | None => None
      end
  end.

(** The branch [outputFormat.internal === "lzh"] for an input format other
    than LZH and ZIP: the input files become one archive.  [clock i] is
    the value of the [i]-th [new Date()]. *)
Definition archiveFiles (clock : nat -> Date) (extension : jsstring)
    (inputFiles : list FileData) : list FileData :=
  let filesToArchive :=
    imap (fun i inputFile =>
            {| LZHEncoder.filename := name inputFile;
               LZHEncoder.data := bytes inputFile;
               LZHEncoder.timestamp := Some (clock i) |}) inputFiles in
  let lzhData :=
    LZHEncoder.create (clock (length inputFiles)) filesToArchive in
  [{| name := str "archive." ++ extension; bytes := lzhData |}].

End LZHHandler.

(** A name without path separators. *)
Definition no_separator (s : jsstring) : Prop :=
  Forall (fun c => c <> 0x2F /\ c <> 0x5C) s.

(** An input file that the handler archives and extracts unchanged. *)
Definition plain_file (f : LZHHandler.FileData) : Prop :=
  well_named (LZHHandler.name f) /\ no_separator (LZHHandler.name f)
  /\ len (LZHHandler.bytes f) <= 100 * 1024 * 1024.

(** The state of the LH5 routine after the input [pre] has given the
    output [done]. *)
Definition lh5_literal_state (originalSize : Z) (pre done : list byte)
    (s : LZHDecoder.lh5_state) : Prop :=
  LZHDecoder.inPos5 s = len pre /\ LZHDecoder.outPos5 s = len done
  /\ LZHDecoder.output5 s = done ++ zeros (originalSize - len done).

(** The [n] low bits of [x], least significant first. *)
Fixpoint bits_of (n : nat) (x : Z) : list Z :=
  match n with
  | O => []
  | S n' => x mod 2 :: bits_of n' (x / 2)
  end.

(** The number whose bits, least significant first, are [bits]. *)
Definition bits_value (bits : list Z) : Z :=
  fold_right (fun b value => b + 2 * value) 0 bits.

(** The bits of a buffer in the order in which [getBit] hands them out:
    byte after byte, the least significant bit of each byte first. *)
Definition bit_stream (compressed : list byte) : list Z :=
  concat (map (fun b => bits_of 8 (byteZ b)) compressed).

(** The bits that a reader of [compressed] has still to hand out: those
    left in its bit buffer, then those of the bytes from [inPos] on. *)
Definition reader_stream (compressed : list byte)
    (r : LZHDecoder.bitreader) : list Z :=
  bits_of (Z.to_nat (LZHDecoder.bitCount r)) (LZHDecoder.bitBuffer r)
  ++ bit_stream (drop (Z.to_nat (LZHDecoder.inPos r)) compressed).

Definition reader_ok (compressed : list byte) (r : LZHDecoder.bitreader)
    : Prop :=
  0 <= LZHDecoder.bitCount r <= 8 /\ 0 <= LZHDecoder.bitBuffer r < 256
  /\ 0 <= LZHDecoder.inPos r <= len compressed.

(** The bits of a literal token of LH1: the flag 1 and the eight bits of
    the byte. *)
Definition literal_token (b : byte) : list Z := 1 :: bits_of 8 (byteZ b).

(** The state of the LH1 routine when it has written [done] and the bits
    [stream] are still to be read. *)
Definition lh1_literal_state (compressed : list byte) (originalSize : Z)
    (done : list byte) (stream : list Z) (s : LZHDecoder.lh1_state) : Prop :=
  LZHDecoder.outPos s = len done
  /\ LZHDecoder.output s = done ++ zeros (originalSize - len done)
  /\ reader_ok compressed (LZHDecoder.reader s)
  /\ reader_stream compressed (LZHDecoder.reader s) = stream.

(** [payload] is the payload of the entry [f] of [buffer]: [readHeader]
    returns [f] from some cursor [o], and the bytes that it reads last,
    [readBytes(compressedSize)] at the cursor [q] behind the header, are
    [payload].  The cursor that [readHeader] leaves is
    [q + compressedSize f], which fixes [q]. *)
Definition entry_payload (buffer : list byte) (f : LZHDecoder.LHAFile)
    (payload : list byte) : Prop :=
  exists o q : num,
    LZHDecoder.readHeader buffer o
    = Ok (Some f, num_add q (Int (LZHDecoder.compressedSize f)))
    /\ payload
       = slice buffer q (num_add q (Int (LZHDecoder.compressedSize f))).

(** * Properties *)

(** ** Bytes *)

Lemma byteZ_range (b : byte) : 0 <= byteZ b < 256.
Proof.
  unfold byteZ. pose proof (Byte.to_N_bounded b). lia.
Qed.

Lemma byteZ_toUint8 (z : Z) : byteZ (toUint8 z) = z mod 256.
Proof.
  unfold byteZ, toUint8.
  pose proof (Z.mod_pos_bound z 256 ltac:(lia)) as Hz.
  destruct (Byte.of_N (Z.to_N (z mod 256))) as [b|] eqn:E.
  - apply Byte.to_of_N in E. rewrite E. lia.
  - apply Byte.of_N_None_iff in E. lia.
Qed.

Lemma toUint8_byteZ (b : byte) : toUint8 (byteZ b) = b.
Proof.
  unfold toUint8, byteZ.
  pose proof (Byte.to_N_bounded b).
  rewrite Z.mod_small by lia.
  rewrite N2Z.id, Byte.of_to_N. reflexivity.
Qed.

(** ** 32-bit integers *)

Lemma toInt32_range (z : Z) : - 2 ^ 31 <= toInt32 z < 2 ^ 31.
Proof.
  unfold toInt32. pose proof (Z.mod_pos_bound (z + 2 ^ 31) (2 ^ 32) ltac:(lia)).
  lia.
Qed.

Lemma toInt32_small (z : Z) : - 2 ^ 31 <= z < 2 ^ 31 -> toInt32 z = z.
Proof.
  intros H. unfold toInt32. rewrite Z.mod_small; lia.
Qed.

Lemma toInt32_mod (z : Z) (k : Z) :
  0 <= k <= 32 -> toInt32 z mod 2 ^ k = z mod 2 ^ k.
Proof.
  intros Hk. unfold toInt32.
  assert (E : 2 ^ 32 = 2 ^ k * 2 ^ (32 - k)).
  { rewrite <- Z.pow_add_r by lia. f_equal. lia. }
  assert (E1 : 2 ^ 31 = 2 ^ k * 2 ^ (31 - k) \/ k = 32).
  { destruct (Z.eq_dec k 32); [now right|left].
    rewrite <- Z.pow_add_r by lia. f_equal. lia. }
  pose proof (Z.pow_pos_nonneg 2 k ltac:(lia) ltac:(lia)) as Hp.
  pose proof (Z.pow_pos_nonneg 2 (32 - k) ltac:(lia) ltac:(lia)) as Hq.
  rewrite (Z.mod_eq (z + 2 ^ 31) (2 ^ 32)) by lia.
  destruct E1 as [E1 | ->].
  - rewrite E at 1.
    replace (z + 2 ^ 31 - 2 ^ k * 2 ^ (32 - k) * ((z + 2 ^ 31) / 2 ^ 32) - 2 ^ 31)
      with (z + (- (2 ^ (32 - k) * ((z + 2 ^ 31) / 2 ^ 32))) * 2 ^ k) by lia.
    apply Z.mod_add. lia.
  - replace (z + 2 ^ 31 - 2 ^ 32 * ((z + 2 ^ 31) / 2 ^ 32) - 2 ^ 31)
      with (z + (- ((z + 2 ^ 31) / 2 ^ 32)) * 2 ^ 32) by lia.
    apply Z.mod_add. lia.
Qed.

(** ** C6: the CRC-16 of the encoder *)

Section CRC.
Import LZHEncoder.

Lemma land_FFFF (x : Z) : Z.land x 0xFFFF = x mod 2 ^ 16.
Proof. change 0xFFFF with (Z.ones 16). apply Z.land_ones. lia. Qed.

Lemma lxor_mod16 (a b : Z) :
  Z.lxor a b mod 2 ^ 16 = Z.lxor (a mod 2 ^ 16) (b mod 2 ^ 16).
Proof.
  rewrite <- !land_FFFF. apply Z.bits_inj'. intros n Hn.
  rewrite !Z.lxor_spec, !Z.land_spec, Z.lxor_spec.
  destruct (Z.testbit 0xFFFF n); rewrite ?andb_true_r, ?andb_false_r; reflexivity.
Qed.

Lemma shiftl1_mod16 (a : Z) :
  Z.shiftl a 1 mod 2 ^ 16 = Z.shiftl (a mod 2 ^ 16) 1 mod 2 ^ 16.
Proof.
  rewrite !Z.shiftl_mul_pow2 by lia.
  rewrite (Z.mul_mod_idemp_l a) by lia. reflexivity.
Qed.

Lemma testbit15_mod16 (a : Z) : Z.testbit (a mod 2 ^ 16) 15 = Z.testbit a 15.
Proof. apply Z.mod_pow2_bits_low. lia. Qed.

Lemma land_bit15 (a : Z) : (Z.land a 0x8000 =? 0) = negb (Z.testbit a 15).
Proof.
  change 0x8000 with (2 ^ 15).
  destruct (Z.testbit a 15) eqn:E; simpl.
  - apply Z.eqb_neq. intros H.
    assert (Z.testbit (Z.land a (2 ^ 15)) 15 = true).
    { rewrite Z.land_spec, E, Z.pow2_bits_true by lia. reflexivity. }
    rewrite H in H0. rewrite Z.bits_0 in H0. discriminate.
  - apply Z.eqb_eq. apply Z.bits_inj'. intros n Hn.
    rewrite Z.land_spec, Z.bits_0.
    destruct (Z.eq_dec n 15) as [->|Hne].
    + rewrite E. reflexivity.
    + rewrite Z.pow2_bits_false by lia. apply andb_false_r.
Qed.

Lemma crc_round_mod16 (crc : Z) :
  crc_round crc mod 2 ^ 16 = crc16_reference_round (crc mod 2 ^ 16).
Proof.
  unfold crc_round, crc16_reference_round, js_and, js_xor, js_shl.
  rewrite (toInt32_small 0x8000), (toInt32_small 0x1021) by lia.
  change (1 mod 32) with 1.
  rewrite land_bit15, testbit15_mod16.
  rewrite <- (testbit15_mod16 (toInt32 crc)), (toInt32_mod crc 16) by lia.
  rewrite testbit15_mod16, !land_FFFF.
  destruct (Z.testbit crc 15); simpl.
  - rewrite !lxor_mod16. f_equal.
    rewrite !(toInt32_mod _ 16) by lia.
    rewrite shiftl1_mod16, (toInt32_mod _ 16) by lia. 
    reflexivity.
  - rewrite !(toInt32_mod _ 16) by lia.
    rewrite shiftl1_mod16, (toInt32_mod _ 16) by lia. reflexivity.
Qed.

Lemma crc_iter_mod16 (n : nat) (crc : Z) :
  Nat.iter n crc_round crc mod 2 ^ 16 =
  Nat.iter n crc16_reference_round (crc mod 2 ^ 16).
Proof.
  induction n as [|n IH]; [reflexivity|].
  change (Nat.iter (S n) crc_round crc) with (crc_round (Nat.iter n crc_round crc)).
  change (Nat.iter (S n) crc16_reference_round (crc mod 2 ^ 16)) with (crc16_reference_round (Nat.iter n crc16_reference_round (crc mod 2 ^ 16))).
  rewrite crc_round_mod16, IH. reflexivity.
Qed.

Lemma crc_byte_mod16 (crc : Z) (b : byte) :
  crc_byte crc b mod 2 ^ 16 = crc16_reference_byte (crc mod 2 ^ 16) b.
Proof.
  unfold crc_byte, crc16_reference_byte.
  rewrite crc_iter_mod16. f_equal.
  unfold js_xor, js_shl. change (8 mod 32) with 8.
  pose proof (byteZ_range b) as Hb.
  rewrite (toInt32_small (byteZ b)) by lia.
  assert (Hs : 0 <= Z.shiftl (byteZ b) 8 < 2 ^ 16).
  { rewrite Z.shiftl_mul_pow2 by lia. lia. }
  rewrite !(toInt32_small (Z.shiftl (byteZ b) 8)) by lia.
  rewrite lxor_mod16, (toInt32_mod crc 16) by lia.
  rewrite (Z.mod_small (Z.shiftl (byteZ b) 8)) by lia. reflexivity.
Qed.

Lemma fold_left_commute {A B C} (f : A -> B -> A) (g : C -> B -> C)
    (h : A -> C) :
  (forall a b, h (f a b) = g (h a) b) ->
  forall l a, h (fold_left f l a) = fold_left g l (h a).
Proof.
  intros Hfg l. induction l as [|b l IH]; intros a; simpl; [reflexivity|].
  rewrite IH, Hfg. reflexivity.
Qed.

Lemma crc_fold_mod16 (data : list byte) (crc : Z) :
  fold_left crc_byte data crc mod 2 ^ 16 =
  fold_left crc16_reference_byte data (crc mod 2 ^ 16).
Proof.
  exact (fold_left_commute crc_byte crc16_reference_byte
           (fun x => x mod 2 ^ 16) crc_byte_mod16 data crc).
Qed.

Lemma crc16_reference_round_range (acc : Z) :
  0 <= crc16_reference_round acc < 2 ^ 16.
Proof.
  unfold crc16_reference_round.
  destruct (Z.testbit acc 15); rewrite land_FFFF; apply Z.mod_pos_bound; lia.
Qed.

Lemma crc16_reference_byte_range (acc : Z) (b : byte) :
  0 <= crc16_reference_byte acc b < 2 ^ 16.
Proof.
  unfold crc16_reference_byte.
  change (Nat.iter 8 crc16_reference_round ?x)
    with (crc16_reference_round (Nat.iter 7 crc16_reference_round x)).
  apply crc16_reference_round_range.
Qed.

Lemma crc16_reference_fold_range (data : list byte) (acc : Z) :
  0 <= acc < 2 ^ 16 ->
  0 <= fold_left crc16_reference_byte data acc < 2 ^ 16.
Proof.
  revert acc. induction data as [|b data IH]; intros acc Hacc.
  - exact Hacc.
  - apply (IH (crc16_reference_byte acc b)), crc16_reference_byte_range.
Qed.

Lemma calculateCRC16_range (data : list byte) :
  0 <= calculateCRC16 data < 2 ^ 16.
Proof.
  unfold calculateCRC16, js_and.
  rewrite (toInt32_small 0xFFFF), land_FFFF by lia.
  apply Z.mod_pos_bound. lia.
Qed.

(** C6: [calculateCRC16] equals the reference CCITT CRC-16 (polynomial
    0x1021, most significant bit first, initial value 0, 16-bit
    accumulator) on every input; its result is a 16-bit value; the CRC of
    the empty buffer and of the single byte 0x00 is 0x0000. *)
Theorem calculateCRC16_reference (data : list byte) :
  calculateCRC16 data = crc16_reference data
  /\ 0 <= calculateCRC16 data < 2 ^ 16
  /\ calculateCRC16 [] = 0
  /\ calculateCRC16 [x00] = 0.
Proof.
  assert (E : calculateCRC16 data = crc16_reference data).
  { unfold calculateCRC16, crc16_reference, js_and.
    rewrite (toInt32_small 0xFFFF) by lia.
    rewrite !land_FFFF, (toInt32_mod _ 16) by lia.
    rewrite crc_fold_mod16. change (0 mod 2 ^ 16) with 0.
    rewrite Z.mod_small; [reflexivity|].
    apply crc16_reference_fold_range. lia. }
  split; [exact E|]. split.
  - rewrite E. unfold crc16_reference. rewrite land_FFFF.
    apply Z.mod_pos_bound. lia.
  - split; vm_compute; reflexivity.
Qed.

End CRC.

(** ** Bit fields as arithmetic *)

Lemma land_shiftl_low (hi lo k : Z) :
  0 <= k -> 0 <= lo < 2 ^ k -> Z.land (hi * 2 ^ k) lo = 0.
Proof.
  intros Hk Hlo. apply Z.bits_inj'. intros n Hn.
  rewrite Z.land_spec, Z.bits_0.
  destruct (Z.lt_ge_cases n k) as [Hlt | Hge].
  - rewrite Z.mul_pow2_bits_low by lia. reflexivity.
  - rewrite <- (Z.mod_small lo (2 ^ k)) by lia.
    rewrite Z.mod_pow2_bits_high by lia. apply andb_false_r.
Qed.

Lemma lor_fields (hi lo k : Z) :
  0 <= k -> 0 <= lo < 2 ^ k -> Z.lor (hi * 2 ^ k) lo = hi * 2 ^ k + lo.
Proof.
  intros Hk Hlo.
  pose proof (land_shiftl_low hi lo k Hk Hlo) as H0.
  rewrite <- Z.lxor_lor by exact H0.
  symmetry. apply Z.add_nocarry_lxor. exact H0.
Qed.

Lemma js_shl_small (a n : Z) :
  0 <= n < 32 -> - 2 ^ 31 <= a * 2 ^ n < 2 ^ 31 -> js_shl a n = a * 2 ^ n.
Proof.
  intros Hn Ha. unfold js_shl.
  assert (P : 1 <= 2 ^ n) by (pose proof (Z.pow_pos_nonneg 2 n ltac:(lia) ltac:(lia)); lia).
  assert (Hsmall : - 2 ^ 31 <= a < 2 ^ 31) by nia.
  rewrite (toInt32_small a) by exact Hsmall.
  rewrite Z.mod_small by lia.
  rewrite Z.shiftl_mul_pow2 by lia.
  apply toInt32_small. exact Ha.
Qed.

Lemma js_shr_small (a n : Z) :
  0 <= n < 32 -> - 2 ^ 31 <= a < 2 ^ 31 -> js_shr a n = a / 2 ^ n.
Proof.
  intros Hn Ha. unfold js_shr.
  rewrite (toInt32_small a) by exact Ha.
  rewrite Z.mod_small by lia.
  apply Z.shiftr_div_pow2. lia.
Qed.

Lemma js_and_ones (a k : Z) :
  0 <= k < 31 -> - 2 ^ 31 <= a < 2 ^ 31 ->
  js_and a (2 ^ k - 1) = a mod 2 ^ k.
Proof.
  intros Hk Ha. unfold js_and.
  assert (P : 1 <= 2 ^ k) by (pose proof (Z.pow_pos_nonneg 2 k ltac:(lia) ltac:(lia)); lia).
  assert (Q : 2 ^ k < 2 ^ 31) by (apply Z.pow_lt_mono_r; lia).
  rewrite (toInt32_small a) by exact Ha.
  rewrite (toInt32_small (2 ^ k - 1)) by lia.
  replace (2 ^ k - 1) with (Z.ones k) by (rewrite Z.ones_equiv; lia).
  apply Z.land_ones. lia.
Qed.

Lemma js_or_fields (hi lo k : Z) :
  0 <= k -> 0 <= lo < 2 ^ k -> 0 <= hi -> hi * 2 ^ k + lo < 2 ^ 31 ->
  js_or (hi * 2 ^ k) lo = hi * 2 ^ k + lo.
Proof.
  intros Hk Hlo Hhi Hsum. unfold js_or.
  assert (P : 1 <= 2 ^ k) by (pose proof (Z.pow_pos_nonneg 2 k ltac:(lia) ltac:(lia)); lia).
  rewrite !toInt32_small by nia.
  apply lor_fields; assumption.
Qed.

(** ** C7: packed timestamps *)

Section Timestamps.
Import LZHEncoder.

Lemma dosDate_fields (y m d : Z) :
  0 <= y <= 127 -> 0 <= m <= 15 -> 0 <= d <= 31 ->
  js_or (js_or (js_shl y 9) (js_shl m 5)) d = y * 512 + m * 32 + d.
Proof.
  intros Hy Hm Hd.
  rewrite !js_shl_small by lia.
  rewrite (js_or_fields y (m * 2 ^ 5) 9) by lia.
  replace (y * 2 ^ 9 + m * 2 ^ 5) with ((y * 16 + m) * 2 ^ 5) by lia.
  rewrite js_or_fields by lia. lia.
Qed.

Lemma dosTime_fields (h m s : Z) :
  0 <= h <= 31 -> 0 <= m <= 63 -> 0 <= s <= 31 ->
  js_or (js_or (js_shl h 11) (js_shl m 5)) s = h * 2048 + m * 32 + s.
Proof.
  intros Hh Hm Hs.
  rewrite !js_shl_small by lia.
  rewrite (js_or_fields h (m * 2 ^ 5) 11) by lia.
  replace (h * 2 ^ 11 + m * 2 ^ 5) with ((h * 64 + m) * 2 ^ 5) by lia.
  rewrite js_or_fields by lia. lia.
Qed.

Lemma js_field (x n k : Z) :
  0 <= n < 32 -> 0 <= k < 31 -> 0 <= x < 2 ^ 31 ->
  js_and (js_shr x n) (2 ^ k - 1) = (x / 2 ^ n) mod 2 ^ k.
Proof.
  intros Hn Hk Hx.
  rewrite js_shr_small by lia.
  apply js_and_ones; [lia|].
  pose proof (Z.pow_pos_nonneg 2 n ltac:(lia) ltac:(lia)).
  split; [apply Z.le_trans with 0; [lia | apply Z.div_pos; lia]|].
  apply Z.le_lt_trans with x; [|lia].
  apply Z.div_le_upper_bound; nia.
Qed.

Lemma dosDateTime_unpack (y mo d h mi s : Z) :
  0 <= y <= 127 -> 0 <= mo <= 15 -> 0 <= d <= 31 ->
  0 <= h <= 31 -> 0 <= mi <= 63 -> 0 <= s <= 31 ->
  LZHDecoder.dosDateTimeToDate (y * 512 + mo * 32 + d) (h * 2048 + mi * 32 + s)
  = {| year := 1980 + y; month := mo - 1; day := d;
       hour := h; minute := mi; second := s * 2 |}.
Proof.
  intros Hy Hmo Hd Hh Hmi Hs. unfold LZHDecoder.dosDateTimeToDate.
  change 0x7F with (2 ^ 7 - 1). change 0x0F with (2 ^ 4 - 1).
  change 0x1F with (2 ^ 5 - 1). change 0x3F with (2 ^ 6 - 1).
  rewrite !js_field by lia.
  rewrite !js_and_ones by lia.
  change (2 ^ 9) with 512. change (2 ^ 7) with 128. change (2 ^ 5) with 32.
  change (2 ^ 4) with 16. change (2 ^ 11) with 2048. change (2 ^ 6) with 64.
  f_equal; Z.div_mod_to_equations; lia.
Qed.

(** C7: a timestamp with calendar fields in range and a year in
    [1980, 2107] is recovered by packing and unpacking, up to the seconds
    rounded down to an even number: unpacking constructs the [Date] from
    the very fields of the timestamp; a year outside that range is packed
    as the nearest bound. *)
Theorem dosDateTime_roundtrip (d : Date) :
  valid_fields d ->
  (1980 <= getFullYear d <= 2107 ->
   LZHDecoder.dosDateTimeToDate (fst (dateToDosTime d)) (snd (dateToDosTime d))
   = {| year := getFullYear d; month := getMonth d;
        day := getDate d; hour := getHours d;
        minute := getMinutes d;
        second := 2 * (getSeconds d / 2) |})
  /\ (getFullYear d < 1980 ->
      dateToDosTime d = dateToDosTime (with_year 1980 d))
  /\ (2107 < getFullYear d ->
      dateToDosTime d = dateToDosTime (with_year 2107 d)).
Proof.
  intros (Hmo & Hd & Hh & Hmi & Hs). split; [|split].
  - intros Hy. unfold dateToDosTime. cbn [fst snd].
    rewrite Z.max_r, Z.min_r by lia.
    assert (Hs2 : 0 <= getSeconds d / 2 <= 29)
      by (Z.div_mod_to_equations; lia).
    rewrite dosDate_fields, dosTime_fields by lia.
    rewrite dosDateTime_unpack by lia.
    f_equal; lia.
  - intros Hy. unfold dateToDosTime, with_year. cbn [getFullYear getMonth
      getDate getHours getMinutes getSeconds].
    rewrite (Z.min_r 2107 (getFullYear d)), Z.max_l by lia. reflexivity.
  - intros Hy. unfold dateToDosTime, with_year. cbn [getFullYear getMonth
      getDate getHours getMinutes getSeconds].
    rewrite (Z.min_l 2107 (getFullYear d)) by lia. reflexivity.
Qed.

Lemma dosDateTime_roundtrip_witness :
  LZHDecoder.dosDateTimeToDate
    (fst (dateToDosTime {| getFullYear := 2024; getMonth := 1; getDate := 29;
                           getHours := 13; getMinutes := 37;
                           getSeconds := 59 |}))
    (snd (dateToDosTime {| getFullYear := 2024; getMonth := 1; getDate := 29;
                           getHours := 13; getMinutes := 37;
                           getSeconds := 59 |}))
  = {| year := 2024; month := 1; day := 29;
       hour := 13; minute := 37; second := 58 |}.
Proof.
  refine (proj1 (dosDateTime_roundtrip
            {| getFullYear := 2024; getMonth := 1; getDate := 29;
               getHours := 13; getMinutes := 37; getSeconds := 59 |} _) _).
  - unfold valid_fields; cbn; lia.
  - cbn; lia.
Defined.

End Timestamps.

(** ** C2, C3: size fields above 2^31 - 1 *)

Section NegativeSizes.
Import LZHDecoder.

Lemma negative_size_header :
  readHeader negative_size_archive (Int 0)
  = Ok (Some {| filename := str "unnamed"; originalSize := 0;
                compressedSize := -24;
                timestamp := dosDateTimeToDate 0 0; crc := 0;
                method := str "-lh0-"; os := Some 0; data := [] |},
        Int 0).
Proof. vm_compute. reflexivity. Qed.

Lemma negative_size_loop (fuel : nat) (files : list LHAFile) :
  extractAll_loop negative_size_archive fuel (Int 0) files = None.
Proof.
  revert files. induction fuel as [|fuel IH]; intros files.
  - reflexivity.
  - cbn [extractAll_loop].
    change (num_lt (Int 0) (Int (len negative_size_archive))) with true.
    cbv iota. rewrite negative_size_header. apply IH.
Qed.

(** C2 (defect): on a header whose compressed-size field is 0xFFFFFFE8
    (4294967272, far more than the 24 bytes of the buffer) the header is
    accepted with the size -24, the cursor goes back to the start of the
    same header, and the loop of [extractAll] never ends: it has not
    returned after any number of rounds. *)
Theorem extractAll_negative_size_diverges (fuel : nat) :
  extractAll negative_size_archive fuel = None.
Proof. unfold extractAll. exact (negative_size_loop fuel []). Qed.

(** C3 (defect): a header whose original-size field is 0xFFFFFFFF
    (4294967295, above 100 MiB) is not rejected: [extractAll] returns an
    entry whose [originalSize] is -1. *)
Theorem extractAll_huge_original_accepted :
  extractAll huge_original_archive 2
  = Some [{| filename := str "a"; originalSize := -1; compressedSize := 0;
             timestamp := dosDateTimeToDate 0 0; crc := 0;
             method := str "-lh0-"; os := Some 0; data := [] |}].
Proof. vm_compute. reflexivity. Qed.

End NegativeSizes.

(** ** C4: the match loop of LH1 *)

Section LH1Match.
Import LZHDecoder.

(** C4 (defect): on the stream "literal A, literal B, literal C, match at
    position 0 of length 3" the decompressor returns "ABCAAA": the match
    loop reads [dictionary[position]] again for every byte.  Copying from
    consecutive positions, as documented, gives "ABCABC" from the same
    state. *)
Theorem decompressLH1_match_repeats_byte :
  decompressLH1 lh1_vector 6 = Ok (map toUint8 [0x41; 0x42; 0x43; 0x41; 0x41; 0x41])
  /\ (let s3 := lh1_token lh1_vector 6
                  (lh1_token lh1_vector 6
                     (lh1_token lh1_vector 6 (lh1_start 6))) in
      output (lh1_copy 3 6 0 s3)
      = map toUint8 [0x41; 0x42; 0x43; 0x41; 0x41; 0x41]
      /\ output (lh1_copy_documented 3 6 0 s3)
         = map toUint8 [0x41; 0x42; 0x43; 0x41; 0x42; 0x43]).
Proof. vm_compute. repeat split; reflexivity. Qed.

End LH1Match.

(** ** The monad *)

Lemma bind_Ok {A B} (m : M A) (k : A -> M B) (s s' : num) (a : A) :
  m s = Ok (a, s') -> bind m k s = k a s'.
Proof. intros H. unfold bind. rewrite H. reflexivity. Qed.

Lemma bind_Throw {A B} (m : M A) (k : A -> M B) (s : num) :
  m s = Throw -> bind m k s = Throw.
Proof. intros H. unfold bind. rewrite H. reflexivity. Qed.

Lemma bind_Ok_inv {A B} (m : M A) (k : A -> M B) (s : num) (r : B * num) :
  bind m k s = Ok r -> exists a s', m s = Ok (a, s') /\ k a s' = Ok r.
Proof.
  unfold bind. destruct (m s) as [[a s']| |]; intros H; try discriminate.
  exists a, s'. split; [reflexivity | exact H].
Qed.

(** ** Lengths and slices *)

Lemma len_nonneg {A} (l : list A) : 0 <= len l.
Proof. unfold len. lia. Qed.

Lemma len_app {A} (l k : list A) : len (l ++ k) = len l + len k.
Proof. unfold len. rewrite length_app. lia. Qed.

Lemma len_cons {A} (x : A) (l : list A) : len (x :: l) = 1 + len l.
Proof. unfold len. cbn [length]. lia. Qed.

Lemma len_nil {A} : len (@nil A) = 0.
Proof. reflexivity. Qed.

Lemma len_zeros (n : Z) : 0 <= n -> len (zeros n) = n.
Proof. intros H. unfold len, zeros. rewrite length_replicate. lia. Qed.

Lemma slice_Int (a : list byte) (s e : Z) :
  0 <= s <= e -> e <= len a ->
  slice a (Int s) (Int e) = take (Z.to_nat (e - s)) (drop (Z.to_nat s) a).
Proof.
  intros Hs He. unfold slice, relative_index.
  destruct (s <? 0) eqn:E1; [lia|]. destruct (e <? 0) eqn:E2; [lia|].
  rewrite !Z.min_l by lia. reflexivity.
Qed.

(** The bytes of [a] from position [s] on are [xs ++ rest]: the slice of
    length [len xs] at [s] is [xs]. *)
Lemma drop_app_length_le {A} (a xs rest : list A) (n : nat) :
  drop n a = xs ++ rest -> xs <> [] -> (n + length xs <= length a)%nat.
Proof.
  intros Hd Hne.
  assert (E : length (drop n a) = length (xs ++ rest))
    by (rewrite Hd; reflexivity).
  rewrite length_drop, length_app in E.
  destruct xs as [|x xs]; [congruence|]. cbn [length] in *. lia.
Qed.

Lemma slice_at (a xs rest : list byte) (s : Z) :
  0 <= s -> drop (Z.to_nat s) a = xs ++ rest ->
  slice a (Int s) (Int (s + len xs)) = xs.
Proof.
  intros Hs Hd. pose proof (len_nonneg xs) as Hx.
  unfold slice, relative_index.
  destruct (s <? 0) eqn:E1; [lia|].
  destruct (s + len xs <? 0) eqn:E2; [lia|].
  destruct xs as [|x xs].
  - rewrite len_nil, Z.add_0_r, Z.sub_diag. reflexivity.
  - pose proof (drop_app_length_le a (x :: xs) rest _ Hd ltac:(discriminate))
      as Hl.
    unfold len in *. rewrite !Z.min_l by lia.
    replace (Z.to_nat (s + Z.of_nat (length (x :: xs)) - s))
      with (length (x :: xs)) by lia.
    rewrite Hd. apply take_app_length.
Qed.

Lemma drop_add_app {A} (a xs rest : list A) (n : nat) :
  drop n a = xs ++ rest -> drop (n + length xs) a = rest.
Proof.
  intros H. rewrite <- drop_drop, H. apply drop_app_length.
Qed.

(** ** Reading at a cursor inside the buffer *)

Section ReaderLemmas.
Import LZHDecoder.
Variable buffer : list byte.

Lemma at_cursor_length (o : Z) (rest : list byte) :
  at_cursor buffer o rest -> len buffer = o + len rest.
Proof.
  intros [Ho Hd]. subst rest. unfold len in *. rewrite length_drop. lia.
Qed.

Lemma at_cursor_lookup (o : Z) (b : byte) (rest : list byte) :
  at_cursor buffer o (b :: rest) -> buffer !! Z.to_nat o = Some b.
Proof.
  intros [Ho Hd].
  rewrite <- (Nat.add_0_r (Z.to_nat o)), <- lookup_drop, Hd. reflexivity.
Qed.

Lemma at_cursor_app (o : Z) (xs rest : list byte) :
  at_cursor buffer o (xs ++ rest) -> at_cursor buffer (o + len xs) rest.
Proof.
  intros H. pose proof (at_cursor_length _ _ H) as Hl.
  destruct H as [Ho Hd]. rewrite len_app in Hl.
  pose proof (len_nonneg xs). pose proof (len_nonneg rest).
  split; [lia|].
  replace (Z.to_nat (o + len xs)) with (Z.to_nat o + length xs)%nat
    by (unfold len; lia).
  exact (drop_add_app _ _ _ _ Hd).
Qed.

Lemma at_cursor_cons (o : Z) (b : byte) (rest : list byte) :
  at_cursor buffer o (b :: rest) -> at_cursor buffer (o + 1) rest.
Proof. intros H. apply (at_cursor_app o [b] rest). exact H. Qed.

Lemma readByte_at (o : Z) (b : byte) (rest : list byte) :
  at_cursor buffer o (b :: rest) ->
  readByte buffer (Int o) = Ok (Some (byteZ b), Int (o + 1)).
Proof.
  intros H. pose proof (at_cursor_length _ _ H) as Hl.
  pose proof (at_cursor_lookup _ _ _ H) as Hb.
  destruct H as [Ho _]. rewrite len_cons in Hl. pose proof (len_nonneg rest).
  unfold readByte, num_ge, index, num_add.
  destruct (o >=? len buffer) eqn:E; [lia|].
  destruct (o <? 0) eqn:E0; [lia|]. rewrite Hb. reflexivity.
Qed.

Lemma readByte_end (o : Z) : len buffer <= o -> readByte buffer (Int o) = Throw.
Proof.
  intros H. unfold readByte, num_ge.
  destruct (o >=? len buffer) eqn:E; [reflexivity | lia].
Qed.

Lemma js_or_low_high (lo hi k : Z) :
  0 <= k < 31 -> 0 <= lo < 2 ^ k -> 0 <= hi -> hi * 2 ^ k + lo < 2 ^ 31 ->
  js_or lo (js_shl hi k) = lo + hi * 2 ^ k.
Proof.
  intros Hk Hlo Hhi Hs.
  pose proof (Z.pow_pos_nonneg 2 k ltac:(lia) ltac:(lia)).
  rewrite js_shl_small by nia.
  unfold js_or. rewrite Z.lor_comm. fold (js_or (hi * 2 ^ k) lo).
  rewrite js_or_fields by lia. lia.
Qed.

Lemma readWord_at (o : Z) (b0 b1 : byte) (rest : list byte) :
  at_cursor buffer o (b0 :: b1 :: rest) ->
  readWord buffer (Int o) = Ok (byteZ b0 + byteZ b1 * 2 ^ 8, Int (o + 2)).
Proof.
  intros H. unfold readWord.
  rewrite (bind_Ok _ _ _ _ _ (readByte_at _ _ _ H)).
  apply at_cursor_cons in H.
  rewrite (bind_Ok _ _ _ _ _ (readByte_at _ _ _ H)).
  unfold ret. cbn [valInt32].
  pose proof (byteZ_range b0). pose proof (byteZ_range b1).
  rewrite js_or_low_high by lia.
  do 3 f_equal. lia.
Qed.

Lemma toInt32_idem (z : Z) : toInt32 (toInt32 z) = toInt32 z.
Proof. apply toInt32_small, toInt32_range. Qed.

Lemma toInt32_add_mul (z c : Z) : toInt32 (z + c * 2 ^ 32) = toInt32 z.
Proof.
  unfold toInt32.
  replace (z + c * 2 ^ 32 + 2 ^ 31) with (z + 2 ^ 31 + c * 2 ^ 32) by lia.
  rewrite Z.mod_add by lia. reflexivity.
Qed.

(** The signed 32-bit value that [low | (high << 16)] gives for two
    16-bit words. *)
Lemma js_or_words (low high : Z) :
  0 <= low < 2 ^ 16 -> 0 <= high < 2 ^ 16 ->
  js_or low (js_shl high 16) = toInt32 (low + high * 2 ^ 16).
Proof.
  intros Hl Hh. unfold js_shl, js_or.
  rewrite (toInt32_small high), (toInt32_small low), toInt32_idem by lia.
  change (16 mod 32) with 16. rewrite Z.shiftl_mul_pow2 by lia.
  destruct (Z.lt_ge_cases high (2 ^ 15)) as [Hs | Hs].
  - rewrite !toInt32_small by lia.
    rewrite Z.lor_comm, lor_fields by lia. lia.
  - rewrite <- (toInt32_add_mul (high * 2 ^ 16) (-1)).
    rewrite <- (toInt32_add_mul (low + high * 2 ^ 16) (-1)).
    rewrite !toInt32_small by lia.
    replace (high * 2 ^ 16 + -1 * 2 ^ 32) with ((high - 2 ^ 16) * 2 ^ 16)
      by lia.
    rewrite Z.lor_comm, lor_fields by lia. lia.
Qed.

Lemma readDWord_at (o : Z) (b0 b1 b2 b3 : byte) (rest : list byte) :
  at_cursor buffer o (b0 :: b1 :: b2 :: b3 :: rest) ->
  readDWord buffer (Int o)
  = Ok (toInt32 (byteZ b0 + byteZ b1 * 2 ^ 8 + byteZ b2 * 2 ^ 16
                 + byteZ b3 * 2 ^ 24),
        Int (o + 4)).
Proof.
  intros H. unfold readDWord.
  rewrite (bind_Ok _ _ _ _ _ (readWord_at _ _ _ _ H)).
  apply at_cursor_cons, at_cursor_cons in H.
  replace (o + 1 + 1) with (o + 2) in H by lia.
  rewrite (bind_Ok _ _ _ _ _ (readWord_at _ _ _ _ H)).
  unfold ret.
  pose proof (byteZ_range b0). pose proof (byteZ_range b1).
  pose proof (byteZ_range b2). pose proof (byteZ_range b3).
  rewrite js_or_words by lia.
  f_equal. f_equal; f_equal; lia.
Qed.

Lemma readBytes_at (o : Z) (xs rest : list byte) :
  at_cursor buffer o (xs ++ rest) ->
  readBytes buffer (Int (len xs)) (Int o) = Ok (xs, Int (o + len xs)).
Proof.
  intros H. pose proof (at_cursor_length _ _ H) as Hl.
  destruct H as [Ho Hd]. rewrite len_app in Hl.
  pose proof (len_nonneg xs). pose proof (len_nonneg rest).
  unfold readBytes, num_add, num_gt.
  destruct (o + len xs >? len buffer) eqn:E; [lia|].
  rewrite (slice_at buffer xs rest o) by (lia || exact Hd). reflexivity.
Qed.

End ReaderLemmas.

(** ** C9: the rest of a level 2 header *)

Section Level2.
Import LZHDecoder.




End Level2.

(** ** The layout of an encoded header *)

Section Layout.
Import LZHEncoder.

Lemma len_insert {A} (l : list A) (i : nat) (x : A) : len (<[i:=x]> l) = len l.
Proof. unfold len. rewrite length_insert. reflexivity. Qed.

Lemma len_slice_prefix (a : list byte) (n : Z) :
  0 <= n <= len a -> len (slice a (Int 0) (Int n)) = n.
Proof.
  intros H. rewrite slice_Int by lia. unfold len in *.
  rewrite length_take, length_drop. lia.
Qed.

Lemma len_stored_name (file : LHAFileInput) :
  len (stored_name file) = Z.min (len (utf8_encode (filename file))) 255.
Proof.
  unfold stored_name. cbv zeta.
  pose proof (len_nonneg (utf8_encode (filename file))).
  apply len_slice_prefix. lia.
Qed.

Lemma zeros_header (n : Z) :
  0 <= n ->
  zeros (2 + 5 + 4 + 4 + 2 + 2 + 1 + 1 + 1 + n + 2)
  = replicate 22 x00 ++ replicate (Z.to_nat n) x00 ++ [x00; x00].
Proof.
  intros H. unfold zeros.
  replace (Z.to_nat (2 + 5 + 4 + 4 + 2 + 2 + 1 + 1 + 1 + n + 2))
    with (22 + (Z.to_nat n + 2))%nat by lia.
  rewrite !replicate_add. reflexivity.
Qed.

Lemma insert_cons_0 {A} (x a : A) (l : list A) : <[0%nat := x]> (a :: l) = x :: l.
Proof. reflexivity. Qed.

Lemma insert_cons_S {A} (x a : A) (l : list A) (n : nat) :
  <[S n := x]> (a :: l) = a :: <[n := x]> l.
Proof. reflexivity. Qed.

Lemma list_inserts_here {A} (x a : A) (xs l : list A) :
  list_inserts 0 (x :: xs) (a :: l) = x :: list_inserts 0 xs l.
Proof. cbn [list_inserts]. rewrite list_inserts_cons. reflexivity. Qed.

Lemma list_inserts_none {A} (l : list A) (i : nat) : list_inserts i [] l = l.
Proof. reflexivity. Qed.

Lemma insert_after {A} (l1 l2 : list A) (n : nat) (x : A) :
  <[(length l1 + n)%nat := x]> (l1 ++ l2) = l1 ++ <[n := x]> l2.
Proof.
  rewrite insert_app_r_alt by lia. f_equal. f_equal. lia.
Qed.

(** The header before the checksum is stamped. *)
Lemma header_layout (now : Date) (file : LHAFileInput) :
  exists checksum : byte,
    fileHeader now file
    = toUint8 (22 + len (stored_name file)) :: checksum
      :: header_fields now file
    /\ checksum
       = toUint8 (calculateHeaderChecksum
                    (toUint8 (22 + len (stored_name file)) :: toUint8 0
                     :: header_fields now file)
                    2 (22 + len (stored_name file))).
Proof.
  pose proof (len_stored_name file) as HL.
  pose proof (len_nonneg (stored_name file)) as HL0.
  unfold fileHeader. cbv zeta.
  match goal with
  | |- exists _, <[_ := toUint8 (calculateHeaderChecksum ?h _ _)]> ?h = _ /\ _ =>
      set (hdr := h)
  end.
  assert (Hhdr : hdr = toUint8 (22 + len (stored_name file)) :: toUint8 0
                       :: header_fields now file).
  { subst hdr. unfold header_fields, writeWord, writeDWord, word_bytes,
      dword_bytes. cbv zeta.
    fold (stored_name file). rewrite <- HL.
    rewrite zeros_header by lia.
    replace (utf8_encode (str "-lh0-")) with [x2d; x6c; x68; x30; x2d]
      by (vm_compute; reflexivity).
    replace (2 + 5 + 4 + 4 + 2 + 2 + 1 + 1 + 1 + len (stored_name file) + 2 - 2)
      with (22 + len (stored_name file)) by lia.
    replace (Z.to_nat (22 + len (stored_name file) + 1))
      with (22 + (length (stored_name file) + 1))%nat by (unfold len; lia).
    replace (Z.to_nat (22 + len (stored_name file)))
      with (22 + (length (stored_name file) + 0))%nat by (unfold len; lia).
    repeat match goal with
           | |- context [toUint8 ?x] =>
               let v := fresh "v" in generalize (toUint8 x); intros v
           end.
    generalize (dateToDosTime (default now (timestamp file))). intros dt.
    remember (stored_name file) as fn eqn:Efn.
    assert (Hfl : length (replicate (Z.to_nat (len fn)) x00) = length fn)
      by (rewrite length_replicate; unfold len; lia).
    generalize dependent (replicate (Z.to_nat (len fn)) x00). intros zs Hfl.
    repeat match goal with
           | |- context [Z.to_nat ?z] =>
               let n := eval vm_compute in (Z.to_nat z) in
               change (Z.to_nat z) with n
           end.
    cbn [replicate app Nat.add].
    repeat first [ rewrite insert_cons_0 | rewrite insert_cons_S
                 | rewrite list_inserts_cons | rewrite list_inserts_here
                 | rewrite list_inserts_none ].
    rewrite list_inserts_0_r by (symmetry; exact Hfl).
    rewrite !insert_app_r_alt by lia.
    replace (length fn + 0 - length fn)%nat with 0%nat by lia.
    replace (length fn + 1 - length fn)%nat with 1%nat by lia.
    reflexivity. }
  exists (toUint8 (calculateHeaderChecksum hdr 2
            (2 + 5 + 4 + 4 + 2 + 2 + 1 + 1 + 1
             + len (utf8_encode (filename file)) `min` 255 + 2 - 2))).
  split.
  - rewrite Hhdr at 2. reflexivity.
  - rewrite Hhdr, HL. do 2 f_equal. lia.
Qed.

End Layout.

(** ** C5: the header checksum *)

Section Checksum.
Import LZHEncoder.

Lemma checksum_fold (header : list byte) (n start : nat) (acc : Z) :
  (start + n <= length header)%nat ->
  fold_left (fun sum i => num_add sum (toNumber (index header (Int i))))
    (seqZ (Z.of_nat start) (Z.of_nat n)) (Int acc)
  = Int (acc + sum_bytes (take n (drop start header))).
Proof.
  revert start acc. induction n as [|n IH]; intros start acc Hn.
  - change (seqZ (Z.of_nat start) (Z.of_nat 0)) with (@nil Z).
    rewrite take_0. cbn [fold_left sum_bytes fold_right]. f_equal. lia.
  - rewrite seqZ_cons by lia. cbn [fold_left].
    destruct (lookup_lt_is_Some_2 header start ltac:(lia)) as [b Hb].
    replace (Z.succ (Z.of_nat start)) with (Z.of_nat (S start)) by lia.
    replace (Z.pred (Z.of_nat (S n))) with (Z.of_nat n) by lia.
    assert (Hi : index header (Int (Z.of_nat start)) = Some (byteZ b)).
    { unfold index. destruct (Z.of_nat start <? 0) eqn:E; [lia|].
      rewrite Nat2Z.id, Hb. reflexivity. }
    rewrite Hi. cbn [toNumber num_add].
    rewrite IH by lia.
    rewrite (drop_S _ _ _ Hb). cbn [take sum_bytes fold_right].
    f_equal. fold (sum_bytes (take n (drop (S start) header))). lia.
Qed.

Lemma calculateHeaderChecksum_sum (header : list byte) (start length : Z) :
  0 <= start -> 0 <= length -> start + length <= len header ->
  calculateHeaderChecksum header start length
  = sum_bytes (take (Z.to_nat length) (drop (Z.to_nat start) header)) mod 256.
Proof.
  intros Hs Hl Hle. unfold calculateHeaderChecksum.
  rewrite <- (Z2Nat.id start), <- (Z2Nat.id length) by lia.
  rewrite checksum_fold by (unfold len in Hle; lia).
  rewrite !Z2Nat.id by lia.
  unfold js_and. rewrite (toInt32_small 0xFF) by lia.
  change 0xFF with (Z.ones 8). rewrite Z.land_ones by lia.
  rewrite Z.add_0_l. apply (toInt32_mod _ 8). lia.
Qed.

Lemma index_0 (a : byte) (l : list byte) : index (a :: l) (Int 0) = Some (byteZ a).
Proof. reflexivity. Qed.

Lemma index_1 (a b : byte) (l : list byte) :
  index (a :: b :: l) (Int 1) = Some (byteZ b).
Proof. reflexivity. Qed.

Lemma len_header_fields (now : Date) (file : LHAFileInput) :
  len (header_fields now file) = 22 + len (stored_name file).
Proof.
  unfold header_fields. cbv zeta. rewrite !len_app.
  replace (len (utf8_encode (str "-lh0-"))) with 5 by (vm_compute; reflexivity).
  unfold dword_bytes, word_bytes. rewrite !len_cons, len_nil. lia.
Qed.

(** The checksum byte of every header is the sum, modulo 256, of all
    header bytes after the first two; when the file name has at most 233
    bytes, the byte at offset 0 is the header length minus two and the
    checksum is the sum of the bytes [2, 2 + headerSize) for the
    [headerSize] stored at offset 0. *)
Theorem fileHeader_checksum (now : Date) (file : LHAFileInput) :
  index (fileHeader now file) (Int 1)
  = Some (sum_bytes (drop 2 (fileHeader now file)) mod 256)
  /\ (len (utf8_encode (filename file)) <= 233 ->
      exists headerSize,
        index (fileHeader now file) (Int 0) = Some headerSize
        /\ headerSize = len (fileHeader now file) - 2
        /\ index (fileHeader now file) (Int 1)
           = Some (sum_bytes (take (Z.to_nat headerSize)
                                (drop 2 (fileHeader now file))) mod 256)).
Proof.
  destruct (header_layout now file) as (ck & Hh & Hck).
  pose proof (len_header_fields now file) as Hlen.
  pose proof (len_nonneg (stored_name file)) as H0.
  assert (Hsum : byteZ ck = sum_bytes (header_fields now file) mod 256).
  { rewrite Hck, byteZ_toUint8.
    rewrite calculateHeaderChecksum_sum
      by (rewrite ?len_cons; lia).
    change (Z.to_nat 2) with 2%nat. cbn [skipn]. rewrite ?drop_0.
    rewrite take_ge by (unfold len in *; lia).
    apply Z.mod_mod. lia. }
  rewrite Hh, index_0, index_1. change (drop 2 (?a :: ?b :: ?l)) with l.
  split.
  - rewrite Hsum. reflexivity.
  - intros Hname. pose proof (len_stored_name file) as HL.
    exists (22 + len (stored_name file)). split; [|split].
    + rewrite byteZ_toUint8, Z.mod_small by lia. reflexivity.
    + rewrite !len_cons. lia.
    + rewrite take_ge by (unfold len in *; lia).
      rewrite Hsum. reflexivity.
Qed.

Lemma fileHeader_checksum_witness :
  exists headerSize,
    index (fileHeader epoch long_name_input) (Int 1)
    = Some (sum_bytes (drop 2 (fileHeader epoch long_name_input)) mod 256)
    /\ index (fileHeader epoch
                {| filename := str "a.txt"; data := []; timestamp := None |})
         (Int 0) = Some headerSize.
Proof.
  destruct (proj2 (fileHeader_checksum epoch
              {| filename := str "a.txt"; data := []; timestamp := None |}))
    as (h & Hh & _).
  - vm_compute. discriminate.
  - exists h. split; [|exact Hh].
    exact (proj1 (fileHeader_checksum epoch long_name_input)).
Defined.

(** C5 (defect): for a file name of 234 bytes the encoder computes the
    header size 256 and stores it in one byte, which keeps 0.  The header
    has 258 bytes and its checksum byte is 240, the sum modulo 256 of the
    256 bytes after the first two; but the byte at offset 0 is 0, so the
    bytes [2, 2 + headerSize) that it delimits are none, with sum 0. *)
Theorem fileHeader_size_byte_wraps :
  len (utf8_encode (filename long_name_input)) = 234
  /\ len (fileHeader epoch long_name_input) = 258
  /\ index (fileHeader epoch long_name_input) (Int 0) = Some 0
  /\ index (fileHeader epoch long_name_input) (Int 1) = Some 240
  /\ sum_bytes (drop 2 (fileHeader epoch long_name_input)) mod 256 = 240
  /\ sum_bytes (take (Z.to_nat 0) (drop 2 (fileHeader epoch long_name_input)))
     mod 256 = 0.
Proof. repeat split; vm_compute; reflexivity. Qed.

End Checksum.

(** ** The bit reader of LH1 *)

Section BitReader.
Import LZHDecoder.
Variable compressed : list byte.

Lemma js_and_1 (x : Z) : js_and x 1 = toInt32 x mod 2.
Proof.
  unfold js_and. rewrite (toInt32_small 1) by lia.
  change 1 with (Z.ones 1) at 1. rewrite Z.land_ones by lia. reflexivity.
Qed.

Lemma getBit_range (r : bitreader) : 0 <= fst (getBit compressed r) <= 1.
Proof.
  unfold getBit.
  destruct ((bitCount r =? 0) && (inPos r >=? len compressed)).
  - cbn [fst]. lia.
  - cbn [fst]. rewrite js_and_1.
    match goal with |- context [?x mod 2] =>
      pose proof (Z.mod_pos_bound x 2 ltac:(lia)) end. lia.
Qed.

Lemma getBit_inPos (r : bitreader) :
  inPos r <= inPos (snd (getBit compressed r)) <= inPos r + 1.
Proof.
  unfold getBit.
  destruct ((bitCount r =? 0) && (inPos r >=? len compressed));
    [cbn [snd]; lia|].
  destruct (bitCount r =? 0); cbn [snd inPos]; lia.
Qed.

Lemma getBits_from_range (n : nat) (i value : Z) (r : bitreader) :
  0 <= i -> i + Z.of_nat n <= 31 -> 0 <= value < 2 ^ i ->
  0 <= fst (getBits_from compressed n i value r) < 2 ^ (i + Z.of_nat n).
Proof.
  revert i value r. induction n as [|n IH]; intros i value r Hi Hn Hv.
  - cbn [getBits_from fst]. rewrite Z.add_0_r. exact Hv.
  - cbn [getBits_from].
    pose proof (getBit_range r) as Hb.
    destruct (getBit compressed r) as [bit r']. cbn [fst] in Hb.
    replace (i + Z.of_nat (S n)) with (i + 1 + Z.of_nat n) by lia.
    assert (Hp : 2 ^ (i + 1) = 2 * 2 ^ i)
      by (rewrite Z.pow_add_r by lia; lia).
    assert (Hq : 2 ^ i <= 2 ^ 30) by (apply Z.pow_le_mono_r; lia).
    apply IH; [lia | lia |].
    rewrite js_or_low_high by nia. nia.
Qed.

Lemma getBits_range (n : nat) (r : bitreader) :
  (n <= 31)%nat -> 0 <= fst (getBits compressed n r) < 2 ^ Z.of_nat n.
Proof.
  intros Hn. apply (getBits_from_range n 0 0 r); lia.
Qed.

Lemma getBits_from_inPos (n : nat) (i value : Z) (r : bitreader) :
  inPos r <= inPos (snd (getBits_from compressed n i value r)).
Proof.
  revert i value r. induction n as [|n IH]; intros i value r.
  - cbn [getBits_from snd]. lia.
  - cbn [getBits_from].
    pose proof (getBit_inPos r) as Hb.
    destruct (getBit compressed r) as [bit r']. cbn [snd] in Hb.
    specialize (IH (i + 1) (js_or value (js_shl bit i)) r'). lia.
Qed.

End BitReader.
(** ** The output buffer of the decompression routines *)

Lemma output_ok_start (n : Z) : 0 <= n -> output_ok n (zeros n) 0.
Proof.
  intros Hn. split; [apply len_zeros; exact Hn|]. split; [lia|].
  intros i Hi. unfold zeros. apply lookup_replicate_2. lia.
Qed.

Lemma output_ok_write (n : Z) (out : list byte) (pos : Z) (b : byte) :
  output_ok n out pos -> pos < n ->
  output_ok n (<[Z.to_nat pos := b]> out) (pos + 1).
Proof.
  intros (Hl & Hp & Hz) Hlt. split; [rewrite len_insert; exact Hl|].
  split; [lia|]. intros i Hi.
  rewrite list_lookup_insert_ne by lia. apply Hz. lia.
Qed.

Section LH1.
Import LZHDecoder.
Variable compressed : list byte.
Variable originalSize : Z.

Local Abbreviation lh1_ok s := (output_ok originalSize (output s) (outPos s)).

Lemma lh1_emit_ok (byte : Z) (s : lh1_state) :
  lh1_ok s -> outPos s < originalSize -> lh1_ok (lh1_emit byte s).
Proof. intros H Hlt. apply output_ok_write; assumption. Qed.

Lemma lh1_copy_ok (n : nat) (position : Z) (s : lh1_state) :
  lh1_ok s ->
  lh1_ok (lh1_copy n originalSize position s)
  /\ reader (lh1_copy n originalSize position s) = reader s
  /\ outPos s <= outPos (lh1_copy n originalSize position s)
  /\ ((0 < n)%nat -> outPos s < originalSize ->
      outPos s < outPos (lh1_copy n originalSize position s)).
Proof.
  revert s. induction n as [|n IH]; intros s Hok.
  - cbn [lh1_copy]. split; [exact Hok|]. split; [reflexivity|]. lia.
  - cbn [lh1_copy]. destruct (outPos s <? originalSize) eqn:E.
    + set (s1 := lh1_emit _ s).
      assert (Hok1 : lh1_ok s1) by (apply lh1_emit_ok; [exact Hok | lia]).
      destruct (IH s1 Hok1) as (H1 & H2 & H3 & _).
      assert (E1 : outPos s1 = outPos s + 1) by reflexivity.
      split; [exact H1|]. split; [rewrite H2; reflexivity|]. lia.
    + split; [exact Hok|]. split; [reflexivity|]. lia.
Qed.

Lemma lh1_token_ok (s : lh1_state) :
  lh1_ok s -> outPos s < originalSize ->
  lh1_ok (lh1_token compressed originalSize s)
  /\ outPos s < outPos (lh1_token compressed originalSize s)
  /\ inPos (reader s) <= inPos (reader (lh1_token compressed originalSize s)).
Proof.
  intros Hok Hlt. unfold lh1_token.
  pose proof (getBit_inPos compressed (reader s)) as Hb.
  destruct (getBit compressed (reader s)) as [flag r1]. cbn [snd] in Hb.
  destruct (negb (flag =? 0)).
  - pose proof (getBits_from_inPos compressed 8 0 0 r1) as H8.
    fold (getBits compressed 8 r1) in H8.
    destruct (getBits compressed 8 r1) as [byte r2]. cbn [snd] in H8.
    split; [|split].
    + apply lh1_emit_ok; [exact Hok | exact Hlt].
    + cbn [lh1_emit outPos]. lia.
    + cbn [lh1_emit reader]. lia.
  - pose proof (getBits_from_inPos compressed 12 0 0 r1) as H12.
    fold (getBits compressed 12 r1) in H12.
    destruct (getBits compressed 12 r1) as [position r2]. cbn [snd] in H12.
    pose proof (getBits_from_inPos compressed 4 0 0 r2) as H4.
    fold (getBits compressed 4 r2) in H4.
    pose proof (getBits_range compressed 4 r2 ltac:(lia)) as Hl.
    destruct (getBits compressed 4 r2) as [length r3]. cbn [snd fst] in H4, Hl.
    set (s0 := {| output := output s; outPos := outPos s;
                  dictionary := dictionary s; dictPos := dictPos s;
                  reader := r3 |}).
    destruct (lh1_copy_ok (Z.to_nat (length + 3)) position s0 Hok)
      as (H1 & H2 & H3 & H5).
    split; [exact H1|]. split.
    + apply (H5 ltac:(lia) Hlt).
    + rewrite H2. cbn [s0 reader]. lia.
Qed.

Lemma lh1_loop_ok (fuel : nat) (s : lh1_state) :
  lh1_ok s -> (Z.to_nat (originalSize - outPos s) <= fuel)%nat ->
  exists s',
    lh1_loop fuel compressed originalSize s = Some s'
    /\ lh1_ok s'
    /\ (outPos s' < originalSize -> len compressed <= inPos (reader s')).
Proof.
  revert s. induction fuel as [|fuel IH]; intros s Hok Hfuel.
  - cbn [lh1_loop].
    destruct (outPos s <? originalSize) eqn:E; [lia|]. cbn [andb].
    exists s. split; [reflexivity|]. split; [exact Hok|]. lia.
  - cbn [lh1_loop].
    destruct (outPos s <? originalSize) eqn:E1;
      [destruct (inPos (reader s) <? len compressed) eqn:E2|]; cbn [andb].
    + destruct (lh1_token_ok s Hok ltac:(lia)) as (H1 & H2 & H3).
      apply IH; [exact H1 | lia].
    + exists s. split; [reflexivity|]. split; [exact Hok|]. lia.
    + exists s. split; [reflexivity|]. split; [exact Hok|]. lia.
Qed.

(** [decompressLH1] returns for every size that is not negative: the
    buffer has [originalSize] bytes, the part that was not written is
    zero, and the buffer is only left partly written when the input is
    used up. *)
Lemma decompressLH1_total :
  0 <= originalSize ->
  exists s,
    decompressLH1_run compressed originalSize = Some s
    /\ decompressLH1 compressed originalSize = Ok (output s)
    /\ output_ok originalSize (output s) (outPos s)
    /\ (outPos s < originalSize -> len compressed <= inPos (reader s)).
Proof.
  intros Hn.
  destruct (lh1_loop_ok (Z.to_nat originalSize) (lh1_start originalSize))
    as (s & Hs & Hok & Hex).
  - apply output_ok_start. exact Hn.
  - cbn [lh1_start outPos]. lia.
  - exists s. unfold decompressLH1, decompressLH1_run. rewrite Hs.
    destruct (originalSize <? 0) eqn:E; [lia|]. auto.
Qed.

End LH1.
Section LH5.
Import LZHDecoder.
Variable compressed : list byte.
Variable originalSize : Z.

Local Abbreviation lh5_ok s :=
  (output_ok originalSize (output5 s) (outPos5 s)).

Lemma lh5_emit_ok (byte : Z) (s : lh5_state) :
  lh5_ok s -> outPos5 s < originalSize -> lh5_ok (lh5_emit byte s).
Proof. intros H Hlt. apply output_ok_write; assumption. Qed.

Lemma lh5_copy_ok (n : nat) (offset : Z) (s : lh5_state) :
  lh5_ok s ->
  lh5_ok (lh5_copy n originalSize offset s)
  /\ inPos5 (lh5_copy n originalSize offset s) = inPos5 s.
Proof.
  revert s. induction n as [|n IH]; intros s Hok.
  - cbn [lh5_copy]. split; [exact Hok | reflexivity].
  - cbn [lh5_copy]. destruct (outPos5 s <? originalSize) eqn:E.
    + set (s1 := lh5_emit _ s).
      assert (Hok1 : lh5_ok s1) by (apply lh5_emit_ok; [exact Hok | lia]).
      destruct (IH s1 Hok1) as (H1 & H2).
      split; [exact H1 | rewrite H2; reflexivity].
    + split; [exact Hok | reflexivity].
Qed.

Lemma lh5_bits_ok (n : nat) (flag bit : Z) (s : lh5_state) :
  lh5_ok s ->
  lh5_ok (lh5_bits n compressed originalSize flag bit s)
  /\ inPos5 s <= inPos5 (lh5_bits n compressed originalSize flag bit s).
Proof.
  revert bit s. induction n as [|n IH]; intros bit s Hok.
  - cbn [lh5_bits]. split; [exact Hok | lia].
  - cbn [lh5_bits].
    destruct (outPos5 s <? originalSize) eqn:E1;
      [destruct (inPos5 s <? len compressed) eqn:E2|]; cbn [andb];
      try (split; [exact Hok | lia]).
    destruct (negb (js_and flag (js_shl 1 bit) =? 0)).
    + match goal with |- context [lh5_emit ?b (lh5_skip 1 s)] =>
        set (s1 := lh5_emit b (lh5_skip 1 s)) end.
      assert (Hok1 : lh5_ok s1)
        by (apply lh5_emit_ok; cbn [lh5_skip output5 outPos5];
            [exact Hok | lia]).
      destruct (IH (bit + 1) s1 Hok1) as (H1 & H2).
      split; [exact H1|]. cbn [s1 lh5_emit lh5_skip inPos5] in H2. lia.
    + destruct (inPos5 s + 1 >=? len compressed);
        [split; [exact Hok | lia]|].
      match goal with |- context [lh5_copy ?k originalSize ?o (lh5_skip 2 s)] =>
        destruct (lh5_copy_ok k o (lh5_skip 2 s) Hok) as (Hc1 & Hc2);
        set (s1 := lh5_copy k originalSize o (lh5_skip 2 s)) in *
      end.
      destruct (IH (bit + 1) s1 Hc1) as (H1 & H2).
      split; [exact H1|]. rewrite Hc2 in H2. cbn [lh5_skip inPos5] in H2. lia.
Qed.

Lemma lh5_group_ok (s : lh5_state) :
  lh5_ok s ->
  lh5_ok (lh5_group compressed originalSize s)
  /\ inPos5 s < inPos5 (lh5_group compressed originalSize s).
Proof.
  intros Hok. unfold lh5_group.
  match goal with |- context [lh5_bits 8 _ _ ?f 0 _] =>
    destruct (lh5_bits_ok 8 f 0 (lh5_skip 1 s) Hok) as (H1 & H2) end.
  split; [exact H1|]. cbn [lh5_skip inPos5] in H2. lia.
Qed.

Lemma lh5_loop_ok (fuel : nat) (s : lh5_state) :
  lh5_ok s -> (Z.to_nat (len compressed - inPos5 s) <= fuel)%nat ->
  exists s',
    lh5_loop fuel compressed originalSize s = Some s'
    /\ lh5_ok s'
    /\ (outPos5 s' < originalSize -> len compressed <= inPos5 s').
Proof.
  revert s. induction fuel as [|fuel IH]; intros s Hok Hfuel.
  - cbn [lh5_loop].
    destruct (inPos5 s <? len compressed) eqn:E; [lia|].
    rewrite andb_false_r.
    exists s. split; [reflexivity|]. split; [exact Hok|]. lia.
  - cbn [lh5_loop].
    destruct (outPos5 s <? originalSize) eqn:E1;
      [destruct (inPos5 s <? len compressed) eqn:E2|]; cbn [andb].
    + destruct (lh5_group_ok s Hok) as (H1 & H2).
      apply IH; [exact H1 | lia].
    + exists s. split; [reflexivity|]. split; [exact Hok|]. lia.
    + exists s. split; [reflexivity|]. split; [exact Hok|]. lia.
Qed.

(** [decompressLH5] returns for every size that is not negative; its
    buffer is as for [decompressLH1]. *)
Lemma decompressLH5_total :
  0 <= originalSize ->
  exists s,
    decompressLH5_run compressed originalSize = Some s
    /\ decompressLH5 compressed originalSize = Ok (output5 s)
    /\ output_ok originalSize (output5 s) (outPos5 s)
    /\ (outPos5 s < originalSize -> len compressed <= inPos5 s).
Proof.
  intros Hn.
  destruct (lh5_loop_ok (length compressed) (lh5_start originalSize))
    as (s & Hs & Hok & Hex).
  - apply output_ok_start. exact Hn.
  - cbn [lh5_start inPos5]. unfold len. lia.
  - exists s. unfold decompressLH5, decompressLH5_run. rewrite Hs.
    destruct (originalSize <? 0) eqn:E; [lia|]. auto.
Qed.

End LH5.

(** ** Reading at a cursor that is a non-negative integer *)

Section RegularCursor.
Import LZHDecoder.
Variable buffer : list byte.

Lemma readByte_regular (o : Z) (v : val) (st' : num) :
  readByte buffer (Int o) = Ok (v, st') -> 0 <= o ->
  st' = Int (o + 1) /\ o < len buffer /\ exists b, v = Some (byteZ b).
Proof.
  intros H Ho. unfold readByte, num_ge, num_add, index in H.
  destruct (o >=? len buffer) eqn:E; [discriminate|].
  destruct (o <? 0) eqn:E0; [lia|].
  injection H as <- <-. split; [reflexivity|]. split; [lia|].
  destruct (lookup_lt_is_Some_2 buffer (Z.to_nat o)) as [b Hb].
  - unfold len in E. lia.
  - exists b. rewrite Hb. reflexivity.
Qed.

Lemma readBytes_regular (o n : Z) (xs : list byte) (st' : num) :
  readBytes buffer (Int n) (Int o) = Ok (xs, st') ->
  st' = Int (o + n) /\ o + n <= len buffer
  /\ xs = slice buffer (Int o) (Int (o + n)).
Proof.
  intros H. unfold readBytes, num_add, num_gt in H.
  destruct (o + n >? len buffer) eqn:E; [discriminate|].
  injection H as <- <-. split; [reflexivity|]. split; [lia | reflexivity].
Qed.

Lemma len_slice (a : list byte) (s e : Z) :
  0 <= s <= e -> e <= len a -> len (slice a (Int s) (Int e)) = e - s.
Proof.
  intros Hs He. rewrite slice_Int by lia. unfold len in *.
  rewrite length_take, length_drop. lia.
Qed.

Lemma readWord_regular (o w : Z) (st' : num) :
  readWord buffer (Int o) = Ok (w, st') -> 0 <= o ->
  st' = Int (o + 2) /\ 0 <= w < 2 ^ 16.
Proof.
  intros H Ho. unfold readWord in H.
  apply bind_Ok_inv in H. destruct H as (low & s1 & H1 & H).
  apply bind_Ok_inv in H. destruct H as (high & s2 & H2 & H).
  destruct (readByte_regular _ _ _ H1 Ho) as (-> & _ & b0 & ->).
  destruct (readByte_regular _ _ _ H2 ltac:(lia)) as (-> & _ & b1 & ->).
  unfold ret in H. injection H as <- <-. cbn [valInt32].
  pose proof (byteZ_range b0). pose proof (byteZ_range b1).
  rewrite js_or_low_high by lia.
  split; [f_equal; lia | lia].
Qed.

Lemma readDWord_regular (o w : Z) (st' : num) :
  readDWord buffer (Int o) = Ok (w, st') -> 0 <= o -> st' = Int (o + 4).
Proof.
  intros H Ho. unfold readDWord in H.
  apply bind_Ok_inv in H. destruct H as (low & s1 & H1 & H).
  apply bind_Ok_inv in H. destruct H as (high & s2 & H2 & H).
  destruct (readWord_regular _ _ _ H1 Ho) as (-> & _).
  destruct (readWord_regular _ _ _ H2 ltac:(lia)) as (-> & _).
  unfold ret in H. injection H as <- <-. f_equal. lia.
Qed.

Lemma readString_regular (o n : Z) (s : jsstring) (st' : num) :
  readString buffer (Some n) (Int o) = Ok (s, st') -> st' = Int (o + n).
Proof.
  intros H. unfold readString in H.
  apply bind_Ok_inv in H. destruct H as (bytes & s1 & H1 & H).
  cbn [toNumber] in H1.
  destruct (readBytes_regular _ _ _ _ H1) as (-> & _).
  unfold ret in H. injection H as _ <-. reflexivity.
Qed.

Lemma skipExtendedHeaders_regular (fuel : nat) (o : Z) (st' : num) :
  skipExtendedHeaders buffer fuel (Int o) = Ok (tt, st') -> 0 <= o ->
  exists o', st' = Int o' /\ o <= o'.
Proof.
  revert o. induction fuel as [|fuel IH]; intros o H Ho.
  - discriminate H.
  - cbn [skipExtendedHeaders] in H.
    apply bind_Ok_inv in H. destruct H as (extSize & s1 & H1 & H).
    destruct (readWord_regular _ _ _ H1 Ho) as (-> & Hw).
    destruct (extSize =? 0) eqn:E.
    + unfold ret in H. injection H as <-. exists (o + 2). split; [reflexivity | lia].
    + apply bind_Ok_inv in H. destruct H as (xs & s2 & H2 & H).
      destruct (readBytes_regular _ _ _ _ H2) as (-> & _).
      destruct (IH _ H ltac:(lia)) as (o' & -> & Ho').
      exists o'. split; [reflexivity | lia].
Qed.

Lemma skipLevel2_regular (headerSize : val) (o : Z) (st' : num) :
  skipLevel2 buffer headerSize (Int o) = Ok (tt, st') -> 0 <= o ->
  exists o', st' = Int o' /\ o <= o'.
Proof.
  intros H Ho. unfold skipLevel2 in H.
  apply bind_Ok_inv in H. destruct H as (total & s1 & H1 & H).
  destruct (readWord_regular _ _ _ H1 Ho) as (-> & Hw).
  destruct headerSize as [h|]; cbn [toNumber num_gt num_sub] in H.
  - destruct (total >? h) eqn:E.
    + apply bind_Ok_inv in H. destruct H as (xs & s2 & H2 & H).
      destruct (readBytes_regular _ _ _ _ H2) as (-> & _).
      unfold ret in H. injection H as <-.
      eexists. split; [reflexivity | lia].
    + unfold ret in H. injection H as <-.
      eexists. split; [reflexivity | lia].
  - unfold ret in H. injection H as <-.
    eexists. split; [reflexivity | lia].
Qed.

Ltac invert_bind H a s Hm :=
  apply bind_Ok_inv in H; destruct H as (a & s & Hm & H).

Ltac invert_if H E :=
  match type of H with
  | (if ?c then _ else _) _ = Ok _ => destruct c eqn:E; [discriminate H|]
  end.

(** A header read at a cursor inside the buffer: the payload starts at a
    cursor [q] at least 24 bytes further, and fits. *)
Lemma readHeader_regular (o : Z) (st' : num) (f : LHAFile) :
  0 <= o -> readHeader buffer (Int o) = Ok (Some f, st') ->
  exists q,
    o + 24 <= q /\ q + compressedSize f <= len buffer
    /\ st' = Int (q + compressedSize f)
    /\ decompress (method f)
         (slice buffer (Int q) (Int (q + compressedSize f))) (originalSize f)
       = Ok (data f).
Proof.
  intros Ho H. unfold readHeader in H.
  invert_bind H off0 s0 H0. invert_if H E0.
  unfold get_offset in H0. injection H0 as <- <-.
  invert_bind H headerSize s1 H1. invert_if H E1.
  destruct (readByte_regular _ _ _ H1 Ho) as (-> & _ & bh & ->).
  invert_bind H checksum s2 H2.
  destruct (readByte_regular _ _ _ H2 ltac:(lia)) as (-> & _ & _).
  invert_bind H meth s3 H3. invert_if H E3.
  apply readString_regular in H3. subst s3.
  invert_bind H cs s4 H4.
  apply readDWord_regular in H4; [subst s4 | lia].
  invert_bind H osz s5 H5. invert_if H E5.
  apply readDWord_regular in H5; [subst s5 | lia].
  invert_bind H dosTime s6 H6.
  destruct (readWord_regular _ _ _ H6 ltac:(lia)) as (-> & _).
  invert_bind H dosDate s7 H7.
  destruct (readWord_regular _ _ _ H7 ltac:(lia)) as (-> & _).
  invert_bind H attributes s8 H8.
  destruct (readByte_regular _ _ _ H8 ltac:(lia)) as (-> & _ & _).
  invert_bind H level s9 H9.
  destruct (readByte_regular _ _ _ H9 ltac:(lia)) as (-> & _ & _).
  invert_bind H filenameLength s10 H10.
  destruct (readByte_regular _ _ _ H10 ltac:(lia)) as (-> & _ & bn & ->).
  invert_bind H fname s11 H11.
  apply readString_regular in H11. subst s11.
  pose proof (byteZ_range bn) as Hbn.
  invert_bind H crc16 s12 H12.
  destruct (readWord_regular _ _ _ H12 ltac:(lia)) as (-> & _).
  invert_bind H os_ s13 H13.
  assert (Hos : exists o13, s13 = Int o13 /\ o + 24 <= o13).
  { destruct (num_ge (toNumber level) (Int 1)).
    - destruct (readByte_regular _ _ _ H13 ltac:(lia)) as (-> & _ & _).
      eexists. split; [reflexivity | lia].
    - unfold ret in H13. injection H13 as _ <-.
      eexists. split; [reflexivity | lia]. }
  destruct Hos as (o13 & -> & Ho13).
  invert_bind H u s14 H14.
  assert (Hext : exists o14, s14 = Int o14 /\ o13 <= o14).
  { destruct u. destruct (val_eq level 1); [|destruct (val_eq level 2)].
    - exact (skipExtendedHeaders_regular _ _ _ H14 ltac:(lia)).
    - exact (skipLevel2_regular _ _ _ H14 ltac:(lia)).
    - unfold ret in H14. injection H14 as <-.
      eexists. split; [reflexivity | lia]. }
  destruct Hext as (q & -> & Hq).
  invert_bind H off s15 H15. invert_if H E15.
  unfold get_offset in H15. injection H15 as <- <-.
  invert_bind H compressedData s16 H16.
  destruct (readBytes_regular _ _ _ _ H16) as (-> & Hfit & ->).
  invert_bind H d s17 H17.
  unfold ret in H. injection H as Hf Hst. subst f st'.
  cbn [compressedSize originalSize method data].
  unfold lift in H17.
  destruct (decompress meth _ osz) as [d'| |] eqn:Ed; try discriminate H17.
  injection H17 as <- <-.
  exists q. split; [lia|]. split; [exact Hfit|]. split; [reflexivity | exact Ed].
Qed.

End RegularCursor.
(** ** What a header that is accepted went through *)

Section HeaderInversion.
Import LZHDecoder.
Variable buffer : list byte.

Ltac invert_bind H a s Hm :=
  apply bind_Ok_inv in H; destruct H as (a & s & Hm & H).

Ltac invert_if H E :=
  match type of H with
  | (if ?c then _ else _) _ = Ok _ => destruct c eqn:E; [discriminate H|]
  end.

Lemma readHeader_Some (st st' : num) (f : LHAFile) :
  readHeader buffer st = Ok (Some f, st') ->
  compressedSize f <= len buffer
  /\ originalSize f <= 100 * 1024 * 1024
  /\ exists p : num,
       num_gt (num_add p (Int (compressedSize f))) (Int (len buffer)) = false
       /\ st' = num_add p (Int (compressedSize f))
       /\ decompress (method f)
            (slice buffer p (num_add p (Int (compressedSize f))))
            (originalSize f)
          = Ok (data f).
Proof.
  intros H. unfold readHeader in H.
  invert_bind H off0 s0 H0. invert_if H E0.
  invert_bind H headerSize s1 H1. invert_if H E1.
  invert_bind H checksum s2 H2.
  invert_bind H meth s3 H3. invert_if H E3.
  invert_bind H cs s4 H4.
  invert_bind H osz s5 H5. invert_if H E5.
  invert_bind H dosTime s6 H6.
  invert_bind H dosDate s7 H7.
  invert_bind H attributes s8 H8.
  invert_bind H level s9 H9.
  invert_bind H filenameLength s10 H10.
  invert_bind H fname s11 H11.
  invert_bind H crc16 s12 H12.
  invert_bind H os_ s13 H13.
  invert_bind H u s14 H14.
  invert_bind H off s15 H15. invert_if H E15.
  invert_bind H compressedData s16 H16.
  invert_bind H d s17 H17.
  unfold ret in H. injection H as Hf Hst. subst f st'.
  cbn [compressedSize originalSize method data].
  apply orb_false_iff in E5. destruct E5 as [Ec Eo].
  split; [lia|]. split; [lia|].
  unfold get_offset in H15. injection H15 as <- <-.
  exists s14. split; [exact E15|].
  unfold readBytes in H16. rewrite E15 in H16. injection H16 as <- <-.
  unfold lift in H17.
  destruct (decompress meth _ osz) as [d'| |] eqn:Ed; try discriminate H17.
  injection H17 as <- <-. auto.
Qed.

End HeaderInversion.
Section Entries.
Import LZHDecoder.
Variable buffer : list byte.

(** A property of every accepted header holds for every entry that
    [extractAll] returns. *)
Lemma extractAll_loop_Forall (P : LHAFile -> Prop) :
  (forall st st' f, readHeader buffer st = Ok (Some f, st') -> P f) ->
  forall fuel st files0 files,
    Forall P files0 ->
    extractAll_loop buffer fuel st files0 = Some files ->
    Forall P files.
Proof.
  intros HP fuel. induction fuel as [|fuel IH]; intros st files0 files H0 H.
  - cbn [extractAll_loop] in H.
    destruct (num_lt st (Int (len buffer))); [discriminate|].
    injection H as <-. exact H0.
  - cbn [extractAll_loop] in H.
    destruct (num_lt st (Int (len buffer))); [|injection H as <-; exact H0].
    destruct (readHeader buffer st) as [[[f|] st']| |] eqn:E.
    + apply (IH st' (files0 ++ [f]) files); [|exact H].
      apply Forall_app. split; [exact H0|].
      apply Forall_singleton. exact (HP _ _ _ E).
    + injection H as <-. exact H0.
    + injection H as <-. exact H0.
    + discriminate.
Qed.

Lemma extractAll_Forall (P : LHAFile -> Prop) :
  (forall st st' f, readHeader buffer st = Ok (Some f, st') -> P f) ->
  forall fuel files, extractAll buffer fuel = Some files -> Forall P files.
Proof.
  intros HP fuel files H.
  exact (extractAll_loop_Forall P HP fuel (Int 0) [] files (Forall_nil_2 P) H).
Qed.

End Entries.

Section Decompress.
Import LZHDecoder.

Lemma decompressLH1_Ok (c : list byte) (n : Z) (d : list byte) :
  decompressLH1 c n = Ok d ->
  exists s,
    decompressLH1_run c n = Some s /\ d = output s
    /\ output_ok n d (outPos s)
    /\ (outPos s < n -> len c <= inPos (reader s)).
Proof.
  intros H. unfold decompressLH1 in H.
  destruct (n <? 0) eqn:E; [discriminate|].
  destruct (decompressLH1_total c n ltac:(lia)) as (s & Hs & _ & Hok & Hex).
  rewrite Hs in H. injection H as <-. exists s. auto.
Qed.

Lemma decompressLH5_Ok (c : list byte) (n : Z) (d : list byte) :
  decompressLH5 c n = Ok d ->
  exists s,
    decompressLH5_run c n = Some s /\ d = output5 s
    /\ output_ok n d (outPos5 s)
    /\ (outPos5 s < n -> len c <= inPos5 s).
Proof.
  intros H. unfold decompressLH5 in H.
  destruct (n <? 0) eqn:E; [discriminate|].
  destruct (decompressLH5_total c n ltac:(lia)) as (s & Hs & _ & Hok & Hex).
  rewrite Hs in H. injection H as <-. exists s. auto.
Qed.

Lemma str_eq_true (s t : jsstring) : str_eq s t = true <-> s = t.
Proof. unfold str_eq. apply bool_decide_eq_true. Qed.

Lemma decompress_lzss (method : jsstring) (c : list byte) (n : Z)
    (d : list byte) :
  decompress method c n = Ok d -> is_lzss_method method = true ->
  exists produced consumed,
    lzss_run method c n = Some (d, produced, consumed)
    /\ output_ok n d produced
    /\ (produced < n -> len c <= consumed).
Proof.
  unfold decompress, is_lzss_method, lzss_run. intros H Hm.
  destruct (str_eq method (str "-lh0-")) eqn:E0.
  { apply str_eq_true in E0. subst method. discriminate Hm. }
  destruct (str_eq method (str "-lh1-")) eqn:E1.
  - apply decompressLH1_Ok in H. destruct H as (s & Hs & -> & Hok & Hex).
    exists (outPos s), (inPos (reader s)). rewrite Hs. auto.
  - cbn [orb] in Hm. rewrite Hm in H.
    apply decompressLH5_Ok in H. destruct H as (s & Hs & -> & Hok & Hex).
    exists (outPos5 s), (inPos5 s). rewrite Hs. auto.
Qed.

Lemma decompress_other (method : jsstring) (c : list byte) (n : Z)
    (d : list byte) :
  decompress method c n = Ok d ->
  (method = str "-lhd-" -> d = [])
  /\ (is_lzss_method method = false -> method <> str "-lhd-" -> d = c).
Proof.
  unfold decompress, is_lzss_method. intros H. split.
  - intros ->. vm_compute in H. injection H as <-. reflexivity.
  - intros Hm Hd.
    destruct (str_eq method (str "-lh0-")); [injection H as <-; reflexivity|].
    apply orb_false_iff in Hm. destruct Hm as [Hm E7].
    apply orb_false_iff in Hm. destruct Hm as [Hm E6].
    apply orb_false_iff in Hm. destruct Hm as [Hm E5].
    apply orb_false_iff in Hm. destruct Hm as [E1 E4].
    rewrite E1, E4, E5, E6, E7 in H. cbn [orb] in H.
    destruct (str_eq method (str "-lhd-")) eqn:Ed.
    + apply str_eq_true in Ed. contradiction.
    + injection H as <-. reflexivity.
Qed.

End Decompress.

(** ** C10, C8: the length of the data of an entry *)

Section EntryData.
Import LZHDecoder.

(** C10: every entry that [extractAll] returns with one of the methods
    -lh1-, -lh4-, -lh5-, -lh6-, -lh7- has data of exactly [originalSize]
    bytes: the data is the output buffer of the routine run on the
    payload of the entry, the bytes that follow its header in the buffer;
    the bytes of the data after the last one produced are zero, and fewer
    than [originalSize] bytes are produced only when the payload is used
    up. *)
Theorem lzss_entry_length (buffer : list byte) (fuel : nat)
    (files : list LHAFile) :
  extractAll buffer fuel = Some files ->
  Forall (fun f =>
            is_lzss_method (method f) = true ->
            len (data f) = originalSize f
            /\ exists payload produced consumed,
                 entry_payload buffer f payload
                 /\ lzss_run (method f) payload (originalSize f)
                    = Some (data f, produced, consumed)
                 /\ 0 <= produced <= originalSize f
                 /\ (forall i, produced <= i < originalSize f ->
                               data f !! Z.to_nat i = Some x00)
                 /\ (produced < originalSize f -> len payload <= consumed))
    files.
Proof.
  apply extractAll_Forall. intros st st' f H Hm.
  destruct (readHeader_Some _ _ _ _ H) as (_ & _ & p & _ & Hst & Hd).
  destruct (decompress_lzss _ _ _ _ Hd Hm)
    as (produced & consumed & Hrun & (Hlen & Hp & Hz) & Hex).
  split; [exact Hlen|].
  exists (slice buffer p (num_add p (Int (compressedSize f)))),
    produced, consumed.
  split; [|auto].
  exists st, p. rewrite <- Hst. split; [exact H | reflexivity].
Qed.

Lemma lzss_entry_length_witness :
  Forall (fun f =>
            is_lzss_method (method f) = true ->
            len (data f) = originalSize f
            /\ exists payload produced consumed,
                 entry_payload lh1_archive f payload
                 /\ lzss_run (method f) payload (originalSize f)
                    = Some (data f, produced, consumed)
                 /\ 0 <= produced <= originalSize f
                 /\ (forall i, produced <= i < originalSize f ->
                               data f !! Z.to_nat i = Some x00)
                 /\ (produced < originalSize f -> len payload <= consumed))
    [{| filename := str "a"; originalSize := 8; compressedSize := 6;
        timestamp := dosDateTimeToDate 0 0; crc := 0;
        method := str "-lh1-"; os := Some 0;
        data := map toUint8 [0x41; 0x42; 0x43; 0x41; 0x41; 0x41; 0; 0] |}].
Proof.
  apply (lzss_entry_length lh1_archive 2). vm_compute. reflexivity.
Defined.

End EntryData.
Section EntryPayload.
Import LZHDecoder.
Variable buffer : list byte.

(** From a cursor inside the buffer, as long as the entries declare
    compressed sizes that are not negative, every header is read at a
    cursor inside the buffer. *)
Lemma extractAll_loop_regular (Q : LHAFile -> Prop) :
  (forall o st' f,
      0 <= o -> readHeader buffer (Int o) = Ok (Some f, st') ->
      0 <= compressedSize f -> Q f) ->
  forall fuel o files0 files,
    0 <= o ->
    extractAll_loop buffer fuel (Int o) files0 = Some files ->
    exists new,
      files = files0 ++ new
      /\ (Forall (fun f => 0 <= compressedSize f) new -> Forall Q new).
Proof.
  intros HQ fuel. induction fuel as [|fuel IH]; intros o files0 files Ho H.
  - cbn [extractAll_loop] in H.
    destruct (num_lt (Int o) (Int (len buffer))); [discriminate|].
    injection H as <-. exists []. rewrite app_nil_r. auto.
  - cbn [extractAll_loop] in H.
    destruct (num_lt (Int o) (Int (len buffer)));
      [|injection H as <-; exists []; rewrite app_nil_r; auto].
    destruct (readHeader buffer (Int o)) as [[[f|] st']| |] eqn:E;
      try discriminate;
      try (injection H as <-; exists []; rewrite app_nil_r; auto).
    destruct (readHeader_regular _ _ _ _ Ho E) as (q & Hq & Hfit & -> & Hd).
    destruct (Z.lt_ge_cases (compressedSize f) 0) as [Hneg | Hpos].
    + (* the cursor may leave the buffer; the premise on the sizes fails *)
      assert (Hsub : exists new, files = (files0 ++ [f]) ++ new).
      { clear -H. revert H. generalize (Int (q + compressedSize f)).
        generalize (files0 ++ [f]). revert files.
        induction fuel as [|fuel IH]; intros files l n H.
        - cbn [extractAll_loop] in H.
          destruct (num_lt n (Int (len buffer))); [discriminate|].
          injection H as <-. exists []. rewrite app_nil_r. reflexivity.
        - cbn [extractAll_loop] in H.
          destruct (num_lt n (Int (len buffer)));
            [|injection H as <-; exists []; rewrite app_nil_r; reflexivity].
          destruct (readHeader buffer n) as [[[g|] st']| |];
            try discriminate;
            try (injection H as <-; exists []; rewrite app_nil_r;
                 reflexivity).
          destruct (IH _ _ _ H) as (new & ->).
          exists (g :: new). rewrite <- app_assoc. reflexivity. }
      destruct Hsub as (new & ->). exists (f :: new).
      rewrite <- app_assoc. split; [reflexivity|].
      intros Hall. apply Forall_cons_1 in Hall. lia.
    + destruct (IH (q + compressedSize f) _ _ ltac:(lia) H) as (new & -> & Hnew).
      exists (f :: new). rewrite <- app_assoc. split; [reflexivity|].
      intros Hall. apply Forall_cons_1 in Hall. destruct Hall as [Hf Hall].
      apply Forall_cons. split; [|exact (Hnew Hall)].
      exact (HQ _ _ _ Ho E Hf).
Qed.

End EntryPayload.

Section EntryDataLength.
Import LZHDecoder.

(** C8 (amended): for every entry that [extractAll] returns, the data has
    exactly [originalSize] bytes when the method is -lh1-, -lh4-, -lh5-,
    -lh6- or -lh7-, and is empty for a directory entry; for the store
    method and for an unrecognized method the data is the payload of the
    entry as it is.  When no entry declares a negative compressed size,
    that payload is the [compressedSize] bytes of the buffer from the
    cursor [q] behind the header on, so its length is the declared
    [compressedSize], whatever [originalSize] is. *)
Theorem entry_data_length (buffer : list byte) (fuel : nat)
    (files : list LHAFile) :
  extractAll buffer fuel = Some files ->
  Forall (fun f =>
            (is_lzss_method (method f) = true ->
             len (data f) = originalSize f)
            /\ (method f = str "-lhd-" -> data f = [])
            /\ (is_lzss_method (method f) = false ->
                method f <> str "-lhd-" ->
                entry_payload buffer f (data f))) files
  /\ (Forall (fun f => 0 <= compressedSize f) files ->
      Forall (fun f =>
                is_lzss_method (method f) = false ->
                method f <> str "-lhd-" ->
                len (data f) = compressedSize f
                /\ exists o q,
                     0 <= o /\ o + 24 <= q
                     /\ q + compressedSize f <= len buffer
                     /\ readHeader buffer (Int o)
                        = Ok (Some f, Int (q + compressedSize f))
                     /\ data f
                        = take (Z.to_nat (compressedSize f))
                            (drop (Z.to_nat q) buffer)) files).
Proof.
  intros H. split.
  - revert H. apply extractAll_Forall. intros st st' f H.
    destruct (readHeader_Some _ _ _ _ H) as (_ & _ & p & _ & Hst & Hd).
    split; [|split].
    + intros Hm.
      destruct (decompress_lzss _ _ _ _ Hd Hm)
        as (produced & consumed & _ & (Hlen & _) & _).
      exact Hlen.
    + exact (proj1 (decompress_other _ _ _ _ Hd)).
    + intros Hm Hdir.
      rewrite (proj2 (decompress_other _ _ _ _ Hd) Hm Hdir).
      exists st, p. rewrite <- Hst. split; [exact H | reflexivity].
  - unfold extractAll in H.
    destruct (extractAll_loop_regular buffer
                (fun f => is_lzss_method (method f) = false ->
                          method f <> str "-lhd-" ->
                          len (data f) = compressedSize f
                          /\ exists o q,
                               0 <= o /\ o + 24 <= q
                               /\ q + compressedSize f <= len buffer
                               /\ readHeader buffer (Int o)
                                  = Ok (Some f, Int (q + compressedSize f))
                               /\ data f
                                  = take (Z.to_nat (compressedSize f))
                                      (drop (Z.to_nat q) buffer))) with
      (fuel := fuel) (o := 0) (files0 := @nil LHAFile) (files := files)
      as (new & -> & Hnew); [|lia|exact H|exact Hnew].
    intros o st' f Ho Hr Hcs Hm Hd.
    destruct (readHeader_regular _ _ _ _ Ho Hr)
      as (q & Hq & Hfit & Hst & Hdec).
    rewrite (proj2 (decompress_other _ _ _ _ Hdec) Hm Hd).
    split; [rewrite len_slice by lia; lia|].
    rewrite Hst in Hr. exists o, q.
    split; [exact Ho|]. split; [exact Hq|]. split; [exact Hfit|].
    split; [exact Hr|].
    rewrite slice_Int by lia. do 2 f_equal. lia.
Qed.

Lemma stored_archive_entries :
  extractAll stored_archive 2
  = Some [{| filename := str "a"; originalSize := 0; compressedSize := 3;
             timestamp := dosDateTimeToDate 0 0; crc := 0;
             method := str "-lh0-"; os := Some 0;
             data := map toUint8 [7; 8; 9] |}].
Proof. vm_compute. reflexivity. Qed.

Lemma entry_data_length_witness :
  Forall (fun f =>
            is_lzss_method (method f) = false ->
            method f <> str "-lhd-" ->
            len (data f) = compressedSize f
            /\ exists o q,
                 0 <= o /\ o + 24 <= q
                 /\ q + compressedSize f <= len stored_archive
                 /\ readHeader stored_archive (Int o)
                    = Ok (Some f, Int (q + compressedSize f))
                 /\ data f
                    = take (Z.to_nat (compressedSize f))
                        (drop (Z.to_nat q) stored_archive))
    [{| filename := str "a"; originalSize := 0; compressedSize := 3;
        timestamp := dosDateTimeToDate 0 0; crc := 0;
        method := str "-lh0-"; os := Some 0;
        data := map toUint8 [7; 8; 9] |}].
Proof.
  apply (proj2 (entry_data_length stored_archive 2 _ stored_archive_entries)).
  apply Forall_singleton. cbn. lia.
Defined.

(** C8 (as stated) fails for the store method: an entry that declares the
    original size 0 and the compressed size 3 is returned with three bytes
    of data. *)
Lemma stored_entry_exceeds_originalSize :
  ~ (forall (buffer : list byte) (fuel : nat) (files : list LHAFile),
        extractAll buffer fuel = Some files ->
        Forall (fun f => len (data f) <= originalSize f) files).
Proof.
  intros H.
  specialize (H stored_archive 2%nat _ stored_archive_entries).
  apply Forall_inv in H. vm_compute in H. apply H. reflexivity.
Qed.

End EntryDataLength.

(** ** UTF-8: decoding what was encoded *)

Lemma byteZ_toUint8_small (z : Z) : 0 <= z < 256 -> byteZ (toUint8 z) = z.
Proof. intros H. rewrite byteZ_toUint8. apply Z.mod_small. exact H. Qed.

Lemma utf8_run_cons (s : utf8_state) (z : Z) (rest : list byte) :
  0 <= z < 256 ->
  utf8_run s (toUint8 z :: rest)
  = snd (utf8_step s z) ++ utf8_run (fst (utf8_step s z)) rest.
Proof.
  intros Hz. cbn [utf8_run]. rewrite byteZ_toUint8_small by exact Hz.
  destruct (utf8_step s z). reflexivity.
Qed.

Lemma utf8_lead_1 (b : Z) : b <= 0x7F -> utf8_lead b = (utf8_start, [b]).
Proof.
  intros H. unfold utf8_lead.
  destruct (Z.leb_spec b 0x7F); [reflexivity | lia].
Qed.

Lemma utf8_lead_2 (b : Z) :
  0xC2 <= b <= 0xDF ->
  utf8_lead b
  = ({| u_point := b - 0xC0; u_seen := 0; u_needed := 1;
        u_lower := 0x80; u_upper := 0xBF |}, []).
Proof.
  intros H. unfold utf8_lead.
  destruct (Z.leb_spec b 0x7F); [lia|].
  destruct (Z.leb_spec 0xC2 b); [|lia].
  destruct (Z.leb_spec b 0xDF); [reflexivity | lia].
Qed.

Lemma utf8_lead_3 (b : Z) :
  0xE0 <= b <= 0xEF ->
  utf8_lead b
  = ({| u_point := b - 0xE0; u_seen := 0; u_needed := 2;
        u_lower := if b =? 0xE0 then 0xA0 else 0x80;
        u_upper := if b =? 0xED then 0x9F else 0xBF |}, []).
Proof.
  intros H. unfold utf8_lead.
  destruct (Z.leb_spec b 0x7F); [lia|].
  destruct (Z.leb_spec 0xC2 b); [|lia].
  destruct (Z.leb_spec b 0xDF); [lia|].
  destruct (Z.leb_spec 0xE0 b); [|lia].
  destruct (Z.leb_spec b 0xEF); [reflexivity | lia].
Qed.

Lemma utf8_lead_4 (b : Z) :
  0xF0 <= b <= 0xF4 ->
  utf8_lead b
  = ({| u_point := b - 0xF0; u_seen := 0; u_needed := 3;
        u_lower := if b =? 0xF0 then 0x90 else 0x80;
        u_upper := if b =? 0xF4 then 0x8F else 0xBF |}, []).
Proof.
  intros H. unfold utf8_lead.
  destruct (Z.leb_spec b 0x7F); [lia|].
  destruct (Z.leb_spec 0xC2 b); [|lia].
  destruct (Z.leb_spec b 0xDF); [lia|].
  destruct (Z.leb_spec 0xE0 b); [|lia].
  destruct (Z.leb_spec b 0xEF); [lia|].
  destruct (Z.leb_spec 0xF0 b); [|lia].
  destruct (Z.leb_spec b 0xF4); [reflexivity | lia].
Qed.

Lemma utf8_step_start (b : Z) : utf8_step utf8_start b = utf8_lead b.
Proof. reflexivity. Qed.

(** A continuation byte inside the bounds. *)
Lemma utf8_step_continue (point seen needed lower upper b : Z) :
  needed <> 0 -> lower <= b <= upper ->
  utf8_step {| u_point := point; u_seen := seen; u_needed := needed;
               u_lower := lower; u_upper := upper |} b
  = if seen + 1 =? needed then (utf8_start, [point * 64 + (b - 0x80)])
    else ({| u_point := point * 64 + (b - 0x80); u_seen := seen + 1;
             u_needed := needed; u_lower := 0x80; u_upper := 0xBF |}, []).
Proof.
  intros Hn Hb. unfold utf8_step. cbn [u_needed u_lower u_upper u_point u_seen].
  destruct (Z.eqb_spec needed 0); [contradiction|].
  destruct (Z.leb_spec lower b); [|lia].
  destruct (Z.leb_spec b upper); [|lia]. reflexivity.
Qed.

Lemma if_eqb_bounds (b k x y lo hi : Z) :
  (b = k -> lo <= x <= hi) -> (b <> k -> lo <= y <= hi) ->
  lo <= (if b =? k then x else y) <= hi.
Proof. intros H1 H2. destruct (Z.eqb_spec b k); auto. Qed.

Lemma utf8_run_point (c : Z) (rest : list byte) :
  is_scalar c = true ->
  utf8_run utf8_start (utf8_encode_point c ++ rest)
  = c :: utf8_run utf8_start rest.
Proof.
  unfold is_scalar, is_surrogate. intros Hc.
  apply andb_true_iff in Hc. destruct Hc as [Hc Hs].
  apply andb_true_iff in Hc. destruct Hc as [H0 H1].
  apply Z.leb_le in H0, H1.
  assert (Hns : c < 0xD800 \/ 0xDFFF < c).
  { apply negb_true_iff, andb_false_iff in Hs.
    destruct Hs as [Hs | Hs]; apply Z.leb_gt in Hs; lia. }
  clear Hs.
  unfold utf8_encode_point, is_surrogate.
  replace ((0xD800 <=? c) && (c <=? 0xDFFF)) with false
    by (symmetry; apply andb_false_iff;
        destruct Hns; [left | right]; apply Z.leb_gt; lia).
  destruct (Z.leb_spec c 0x7F) as [H7 | H7].
  { cbn [app]. rewrite utf8_run_cons by lia.
    rewrite utf8_step_start, utf8_lead_1 by lia. reflexivity. }
  destruct (Z.leb_spec c 0x7FF) as [H8 | H8].
  { assert (B1 : 0xC2 <= 0xC0 + c / 64 <= 0xDF)
      by (Z.div_mod_to_equations; lia).
    assert (B2 : 0x80 <= 0x80 + c mod 64 <= 0xBF)
      by (Z.div_mod_to_equations; lia).
    cbn [app]. rewrite utf8_run_cons by lia.
    rewrite utf8_step_start, utf8_lead_2 by lia. cbn [fst snd app].
    rewrite utf8_run_cons by lia.
    rewrite utf8_step_continue by lia.
    change (0 + 1 =? 1) with true. cbv iota. cbn [fst snd app].
    f_equal. Z.div_mod_to_equations. lia. }
  destruct (Z.leb_spec c 0xFFFF) as [H9 | H9].
  { assert (B1 : 0xE0 <= 0xE0 + c / 4096 <= 0xEF)
      by (Z.div_mod_to_equations; lia).
    assert (B2 : 0x80 <= 0x80 + (c / 64) mod 64 <= 0xBF)
      by (Z.div_mod_to_equations; lia).
    assert (B3 : 0x80 <= 0x80 + c mod 64 <= 0xBF)
      by (Z.div_mod_to_equations; lia).
    cbn [app]. rewrite utf8_run_cons by lia.
    rewrite utf8_step_start, utf8_lead_3 by lia. cbn [fst snd app].
    rewrite utf8_run_cons by lia.
    rewrite utf8_step_continue.
    2: lia.
    2:{ split.
        - destruct (Z.eqb_spec (0xE0 + c / 4096) 0xE0);
            Z.div_mod_to_equations; lia.
        - destruct (Z.eqb_spec (0xE0 + c / 4096) 0xED);
            Z.div_mod_to_equations; lia. }
    change (0 + 1 =? 2) with false. cbv iota. cbn [fst snd app].
    rewrite utf8_run_cons by lia.
    rewrite utf8_step_continue by lia.
    change (0 + 1 + 1 =? 2) with true. cbv iota. cbn [fst snd app].
    f_equal. Z.div_mod_to_equations. lia. }
  { assert (B1 : 0xF0 <= 0xF0 + c / 262144 <= 0xF4)
      by (Z.div_mod_to_equations; lia).
    assert (B2 : 0x80 <= 0x80 + (c / 4096) mod 64 <= 0xBF)
      by (Z.div_mod_to_equations; lia).
    assert (B3 : 0x80 <= 0x80 + (c / 64) mod 64 <= 0xBF)
      by (Z.div_mod_to_equations; lia).
    assert (B4 : 0x80 <= 0x80 + c mod 64 <= 0xBF)
      by (Z.div_mod_to_equations; lia).
    cbn [app]. rewrite utf8_run_cons by lia.
    rewrite utf8_step_start, utf8_lead_4 by lia. cbn [fst snd app].
    rewrite utf8_run_cons by lia.
    rewrite utf8_step_continue.
    2: lia.
    2:{ split.
        - destruct (Z.eqb_spec (0xF0 + c / 262144) 0xF0);
            Z.div_mod_to_equations; lia.
        - destruct (Z.eqb_spec (0xF0 + c / 262144) 0xF4);
            Z.div_mod_to_equations; lia. }
    change (0 + 1 =? 3) with false. cbv iota. cbn [fst snd app].
    rewrite utf8_run_cons by lia.
    rewrite utf8_step_continue by lia.
    change (0 + 1 + 1 =? 3) with false. cbv iota. cbn [fst snd app].
    rewrite utf8_run_cons by lia.
    rewrite utf8_step_continue by lia.
    change (0 + 1 + 1 + 1 =? 3) with true. cbv iota. cbn [fst snd app].
    f_equal. Z.div_mod_to_equations. lia. }
Qed.

Lemma utf8_run_encode (s : jsstring) (rest : list byte) :
  Forall (fun c => is_scalar c = true) s ->
  utf8_run utf8_start (utf8_encode s ++ rest) = s ++ utf8_run utf8_start rest.
Proof.
  intros Hs. induction Hs as [|c s Hc Hs IH]; [reflexivity|].
  unfold utf8_encode in *. cbn [map concat]. rewrite <- app_assoc.
  rewrite utf8_run_point by exact Hc. rewrite IH. reflexivity.
Qed.

(** Decoding the encoding of a string of scalar values that does not
    start with a byte order mark gives the string back. *)
Lemma utf8_decode_encode (s : jsstring) :
  Forall (fun c => is_scalar c = true) s ->
  (forall c, head s = Some c -> c <> 0xFEFF) ->
  utf8_decode (utf8_encode s) = s.
Proof.
  intros Hs Hbom. unfold utf8_decode.
  rewrite <- (app_nil_r (utf8_encode s)), utf8_run_encode by exact Hs.
  cbn [utf8_run u_needed utf8_start]. change (0 =? 0) with true. cbv iota.
  rewrite app_nil_r. destruct s as [|c s]; [reflexivity|].
  destruct (Z.eqb_spec c 0xFEFF) as [E|E]; [|reflexivity].
  exfalso. exact (Hbom c eq_refl E).
Qed.

(** ** C1: what the decoder reads from the encoder's output *)

Section StoredValues.

Lemma js_and_FF (v : Z) :
  - 2 ^ 31 <= v < 2 ^ 31 -> js_and v 0xFF = v mod 2 ^ 8.
Proof. intros H. change 0xFF with (2 ^ 8 - 1). apply js_and_ones; lia. Qed.

Lemma js_field_FF (v n : Z) :
  0 <= n < 32 -> 0 <= v < 2 ^ 31 ->
  js_and (js_shr v n) 0xFF = (v / 2 ^ n) mod 2 ^ 8.
Proof.
  intros Hn Hv. change 0xFF with (2 ^ 8 - 1). apply js_field; lia.
Qed.

Lemma stored_word_small (v : Z) : 0 <= v < 2 ^ 16 -> stored_word v = v.
Proof.
  intros Hv. unfold stored_word.
  rewrite js_and_FF, js_field_FF by lia.
  rewrite !byteZ_toUint8.
  change (2 ^ 8) with 256. Z.div_mod_to_equations. lia.
Qed.

Lemma stored_dword_small (v : Z) :
  0 <= v < 2 ^ 31 ->
  toInt32 (byteZ (toUint8 (js_and v 0xFF))
           + byteZ (toUint8 (js_and (js_shr v 8) 0xFF)) * 2 ^ 8
           + byteZ (toUint8 (js_and (js_shr v 16) 0xFF)) * 2 ^ 16
           + byteZ (toUint8 (js_and (js_shr v 24) 0xFF)) * 2 ^ 24) = v.
Proof.
  intros Hv.
  rewrite js_and_FF, !js_field_FF by lia.
  rewrite !byteZ_toUint8.
  change (2 ^ 8) with 256. change (2 ^ 16) with 65536.
  change (2 ^ 24) with 16777216.
  replace (v mod 256 mod 256 + (v / 256) mod 256 mod 256 * 256
           + (v / 65536) mod 256 mod 256 * 65536
           + (v / 16777216) mod 256 mod 256 * 16777216) with v
    by (Z.div_mod_to_equations; lia).
  apply toInt32_small. lia.
Qed.

End StoredValues.

Section Names.

Lemma strip_control_id (s : jsstring) :
  Forall (fun c => is_control c = false) s -> strip_control s = s.
Proof.
  intros H. unfold strip_control. induction H as [|c s Hc Hs IH].
  - reflexivity.
  - rewrite filter_cons_True by exact Hc. rewrite IH. reflexivity.
Qed.

Lemma trimStart_id (s : jsstring) :
  (forall c, head s = Some c -> is_space c = false) -> trimStart s = s.
Proof.
  intros H. destruct s as [|c s]; [reflexivity|].
  cbn [trimStart]. rewrite (H c eq_refl). reflexivity.
Qed.

Lemma trim_id (s : jsstring) :
  (forall c, head s = Some c -> is_space c = false) ->
  (forall c, last s = Some c -> is_space c = false) ->
  trim s = s.
Proof.
  intros Hh Hl. unfold trim. rewrite (trimStart_id s Hh).
  rewrite trimStart_id.
  - apply reverse_involutive.
  - intros c Hc. rewrite head_reverse in Hc. exact (Hl c Hc).
Qed.

Lemma well_named_sanitize (name : jsstring) :
  well_named name ->
  strip_control name = name /\ LZHDecoder.sanitize name = name.
Proof.
  intros (Hne & Hall & Hh & Hl & _).
  assert (Hs : strip_control name = name).
  { apply strip_control_id. eapply Forall_impl; [exact Hall|].
    intros c [_ Hc]. exact Hc. }
  split; [exact Hs|]. unfold LZHDecoder.sanitize. cbv zeta.
  rewrite Hs, trim_id by assumption.
  destruct name; [contradiction | reflexivity].
Qed.

Lemma utf8_encode_point_nonzero (c : Z) :
  is_scalar c = true -> is_control c = false ->
  Forall (fun b => byteZ b <> 0) (utf8_encode_point c).
Proof.
  unfold is_scalar, is_control, is_surrogate. intros Hc Hk.
  apply andb_true_iff in Hc. destruct Hc as [Hc Hs].
  apply andb_true_iff in Hc. destruct Hc as [H0 H1].
  apply Z.leb_le in H0, H1.
  assert (Hpos : 0x1F < c).
  { apply orb_false_iff in Hk. destruct Hk as [Hk _].
    apply andb_false_iff in Hk.
    destruct Hk as [Hk | Hk]; apply Z.leb_gt in Hk; lia. }
  clear Hs Hk. unfold utf8_encode_point.
  destruct (is_surrogate c); destruct (_ <=? 0x7F) eqn:E1;
    try destruct (_ <=? 0x7FF) eqn:E2; try destruct (_ <=? 0xFFFF) eqn:E3;
    repeat constructor;
    rewrite byteZ_toUint8; Z.div_mod_to_equations; lia.
Qed.

Lemma find_null_nonzero (bytes : list byte) :
  Forall (fun b => byteZ b <> 0) bytes -> LZHDecoder.find_null bytes = None.
Proof.
  intros H. induction H as [|b bytes Hb Hbs IH]; [reflexivity|].
  cbn [LZHDecoder.find_null].
  destruct (Z.eqb_spec (byteZ b) 0); [contradiction|].
  rewrite IH. reflexivity.
Qed.

Lemma utf8_encode_nonzero (name : jsstring) :
  Forall (fun c => is_scalar c = true /\ is_control c = false) name ->
  Forall (fun b => byteZ b <> 0) (utf8_encode name).
Proof.
  intros H. unfold utf8_encode. induction H as [|c s [Hc Hk] Hs IH].
  - constructor.
  - cbn [map concat]. apply Forall_app. split; [|exact IH].
    apply utf8_encode_point_nonzero; assumption.
Qed.

Lemma slice_all (a : list byte) : slice a (Int 0) (Int (len a)) = a.
Proof.
  pose proof (len_nonneg a). rewrite slice_Int by lia.
  rewrite Z.sub_0_r. unfold len. rewrite Nat2Z.id. cbn [Z.to_nat drop].
  rewrite drop_0. apply firstn_all.
Qed.

Lemma well_named_stored (file : LZHEncoder.LHAFileInput) :
  well_named (LZHEncoder.filename file) ->
  stored_name file = utf8_encode (LZHEncoder.filename file)
  /\ len (stored_name file) <= 106.
Proof.
  intros (_ & _ & _ & _ & Hlen).
  assert (E : stored_name file = utf8_encode (LZHEncoder.filename file)).
  { unfold stored_name. cbv zeta. rewrite Z.min_l by lia. apply slice_all. }
  rewrite E. auto.
Qed.

Lemma well_named_decode (name : jsstring) :
  well_named name -> utf8_decode (utf8_encode name) = name.
Proof.
  intros (_ & Hall & Hh & _ & _). apply utf8_decode_encode.
  - eapply Forall_impl; [exact Hall|]. intros c [Hc _]. exact Hc.
  - intros c Hc ->. specialize (Hh _ Hc). discriminate Hh.
Qed.

End Names.
Section ReadEncoded.
Import LZHDecoder.
Variable buffer : list byte.

Lemma readString_method (o : Z) (rest : list byte) :
  at_cursor buffer o ([x2d; x6c; x68; x30; x2d] ++ rest) ->
  readString buffer (Some 5) (Int o) = Ok (str "-lh0-", Int (o + 5)).
Proof.
  intros H. unfold readString. cbn [toNumber].
  rewrite (bind_Ok _ _ _ _ _
             (readBytes_at buffer o [x2d; x6c; x68; x30; x2d] rest H)).
  reflexivity.
Qed.

Lemma readString_name (o : Z) (name : jsstring) (rest : list byte) :
  well_named name ->
  at_cursor buffer o (utf8_encode name ++ rest) ->
  readString buffer (Some (len (utf8_encode name))) (Int o)
  = Ok (name, Int (o + len (utf8_encode name))).
Proof.
  intros Hn H. unfold readString. cbn [toNumber].
  rewrite (bind_Ok _ _ _ _ _ (readBytes_at buffer o _ rest H)).
  destruct Hn as (Hne & Hall & Hh & Hl & Hlen).
  rewrite find_null_nonzero by (apply utf8_encode_nonzero; exact Hall).
  rewrite slice_all.
  rewrite well_named_decode by (repeat split; assumption).
  rewrite strip_control_id
    by (eapply Forall_impl; [exact Hall|]; intros c [_ Hc]; exact Hc).
  reflexivity.
Qed.

End ReadEncoded.
Section ReadHeaderEncoded.
Import LZHDecoder.
Variable buffer : list byte.

Lemma at_cursor_cons2 (o : Z) (a b : byte) (rest : list byte) :
  at_cursor buffer o (a :: b :: rest) -> at_cursor buffer (o + 2) rest.
Proof. intros H. apply (at_cursor_app buffer o [a; b] rest). exact H. Qed.

Lemma at_cursor_cons4 (o : Z) (a b c d : byte) (rest : list byte) :
  at_cursor buffer o (a :: b :: c :: d :: rest) ->
  at_cursor buffer (o + 4) rest.
Proof. intros H. apply (at_cursor_app buffer o [a; b; c; d] rest). exact H. Qed.

Local Tactic Notation "step_with" uconstr(L) hyp(H) :=
  rewrite (bind_Ok _ _ _ _ _ (L H)).

Lemma readHeader_encoded (now : Date) (file : LZHEncoder.LHAFileInput)
    (o : Z) (rest : list byte) :
  roundtrip_input file ->
  at_cursor buffer o (entry_block now file ++ rest) ->
  readHeader buffer (Int o)
  = Ok (Some (decoded_entry now file),
        Int (o + len (entry_block now file))).
Proof.
  intros [Hname Hdata] H.
  destruct (header_layout now file) as (ck & Hh & _).
  destruct (well_named_stored file Hname) as [Hstored HL].
  pose proof (len_nonneg (stored_name file)) as HL0.
  pose proof (len_nonneg (LZHEncoder.data file)) as Hd0.
  pose proof (at_cursor_length _ _ _ H) as Hlen.
  pose proof (proj1 (proj1 H)) as Ho.
  assert (Hblock : len (entry_block now file)
                   = 24 + len (stored_name file) + len (LZHEncoder.data file)).
  { unfold entry_block. rewrite len_app, Hh, !len_cons, len_header_fields.
    lia. }
  rewrite len_app, Hblock in Hlen. pose proof (len_nonneg rest) as Hr0.
  unfold entry_block in H. rewrite Hh in H.
  unfold header_fields, dword_bytes, word_bytes in H. cbv zeta in H.
  replace (utf8_encode (str "-lh0-")) with [x2d; x6c; x68; x30; x2d] in H
    by (vm_compute; reflexivity).
  rewrite <- ?app_assoc in H. cbn [app] in H.
  rewrite <- ?app_assoc in H. cbn [app] in H.
  set (dt := LZHEncoder.dateToDosTime
               (default now (LZHEncoder.timestamp file))) in *.
  unfold readHeader.
  unfold get_offset at 1. unfold bind at 1.
  destruct (num_ge (Int o) (Int (len buffer))) eqn:E0;
    [unfold num_ge in E0; lia|].
  step_with (readByte_at buffer o _ _) H. apply at_cursor_cons in H.
  rewrite byteZ_toUint8_small by lia.
  cbn [val_eq toNumber num_gt].
  destruct ((22 + len (stored_name file) =? 0)
            || (22 + len (stored_name file) >? 128)) eqn:E1;
    [apply orb_true_iff in E1; destruct E1; lia|].
  step_with (readByte_at buffer (o + 1) _ _) H. apply at_cursor_cons in H.
  step_with (readString_method buffer (o + 1 + 1) _) H.
  apply (at_cursor_app buffer _ [x2d; x6c; x68; x30; x2d]) in H.
  change (len [x2d; x6c; x68; x30; x2d]) with 5 in H.
  change (negb (startsWith (str "-lh0-") (str "-lh"))
          && negb (startsWith (str "-lh0-") (str "-lz"))
          && negb (str_eq (str "-lh0-") (str "-lhd-"))) with false.
  cbv iota.
  step_with (readDWord_at buffer (o + 1 + 1 + 5) _ _ _ _ _) H.
  apply at_cursor_cons4 in H.
  step_with (readDWord_at buffer (o + 1 + 1 + 5 + 4) _ _ _ _ _) H.
  apply at_cursor_cons4 in H.
  rewrite stored_dword_small by lia.
  destruct ((len (LZHEncoder.data file) >? len buffer)
            || (len (LZHEncoder.data file) >? 100 * 1024 * 1024)) eqn:E2;
    [apply orb_true_iff in E2; destruct E2; lia|].
  step_with (readWord_at buffer (o + 1 + 1 + 5 + 4 + 4) _ _ _) H.
  apply at_cursor_cons2 in H.
  step_with (readWord_at buffer (o + 1 + 1 + 5 + 4 + 4 + 2) _ _ _) H.
  apply at_cursor_cons2 in H.
  step_with (readByte_at buffer (o + 1 + 1 + 5 + 4 + 4 + 2 + 2) _ _) H.
  apply at_cursor_cons in H.
  step_with (readByte_at buffer (o + 1 + 1 + 5 + 4 + 4 + 2 + 2 + 1) _ _) H.
  apply at_cursor_cons in H.
  step_with (readByte_at buffer (o + 1 + 1 + 5 + 4 + 4 + 2 + 2 + 1 + 1) _ _) H.
  apply at_cursor_cons in H.
  rewrite (byteZ_toUint8_small (len (stored_name file))) by lia.
  rewrite Hstored in H |- *.
  step_with (readString_name buffer _ _ _ Hname) H.
  apply at_cursor_app in H.
  step_with (readWord_at buffer _ _ _ _) H.
  apply at_cursor_cons2 in H.
  change (byteZ (toUint8 0)) with 0.
  cbn [toNumber num_ge val_eq]. change (0 >=? 1) with false.
  change (0 =? 1) with false. change (0 =? 2) with false. cbv iota.
  unfold ret at 1 2. unfold bind at 1 2. unfold get_offset at 1.
  unfold bind at 1.
  cbn [num_add num_gt].
  match goal with
  | |- (if ?c then ret None else _) _ = _ =>
      destruct c eqn:E3; [rewrite ?Hstored in *; lia|]
  end.
  step_with (readBytes_at buffer _ _ _) H.
  unfold lift, bind, ret.
  change (decompress (str "-lh0-") ?c ?n) with (@Ok (list byte) c).
  cbv iota.
  destruct (well_named_sanitize _ Hname) as [_ ->].
  pose proof (stored_word_small _
                (calculateCRC16_range (LZHEncoder.data file))) as Hcrc.
  unfold stored_word in Hcrc. rewrite Hcrc.
  unfold decoded_entry, stored_word. cbv zeta. fold dt.
  f_equal. f_equal. f_equal. rewrite Hblock, Hstored. lia.
Qed.

End ReadHeaderEncoded.
Section CreateLayout.
Import LZHEncoder.

Lemma fold_left_chunks {A B} (g : B -> list A) (l : list B) (acc : list A) :
  fold_left (fun out x => out ++ g x) l acc = acc ++ concat (map g l).
Proof.
  revert acc. induction l as [|x l IH]; intros acc; cbn [fold_left map concat].
  - rewrite app_nil_r. reflexivity.
  - rewrite IH, app_assoc. reflexivity.
Qed.

Lemma fold_left_len (chunks : list (list byte)) (acc : Z) :
  fold_left (fun sum chunk => sum + len chunk) chunks acc
  = acc + len (concat chunks).
Proof.
  revert acc. induction chunks as [|c chunks IH]; intros acc;
    cbn [fold_left concat].
  - rewrite len_nil. lia.
  - rewrite IH, len_app. lia.
Qed.

Lemma zeros_add (a b : Z) :
  0 <= a -> 0 <= b -> zeros (a + b) = zeros a ++ zeros b.
Proof.
  intros Ha Hb. unfold zeros. rewrite Z2Nat.inj_add by lia.
  apply replicate_add.
Qed.

(** Writing the chunks one after the other into a zeroed buffer of the
    total length gives their concatenation. *)
Lemma assemble_chunks (chunks : list (list byte)) (pre : list byte) :
  fst (fold_left
         (fun '(result, offset) chunk =>
            (list_inserts (Z.to_nat offset) chunk result, offset + len chunk))
         chunks (pre ++ zeros (len (concat chunks)), len pre))
  = pre ++ concat chunks.
Proof.
  revert pre. induction chunks as [|c chunks IH]; intros pre.
  - cbn [fold_left concat fst]. reflexivity.
  - cbn [fold_left concat].
    rewrite len_app, zeros_add by apply len_nonneg.
    replace (Z.to_nat (len pre)) with (length pre + 0)%nat
      by (unfold len; lia).
    rewrite list_inserts_app_r.
    rewrite list_inserts_0_r
      by (unfold zeros, len; rewrite length_replicate; lia).
    rewrite app_assoc, <- len_app.
    rewrite IH, <- app_assoc. reflexivity.
Qed.

(** The archive is the blocks of the entries followed by the end
    marker. *)
Lemma create_layout (now : Date) (files : list LHAFileInput) :
  create now files = concat (map (entry_block now) files) ++ [x00].
Proof.
  unfold create. cbv zeta. unfold writeFileHeader.
  rewrite (fold_left_chunks (fun f => [fileHeader now f; data f])).
  cbn [app]. rewrite fold_left_len, Z.add_0_l.
  pose proof (assemble_chunks
                (concat (map (fun f => [fileHeader now f; data f]) files)
                 ++ [[x00]]) []) as H.
  cbn [app] in H. change (len (@nil byte)) with 0 in H.
  rewrite H. rewrite concat_app. cbn [concat app]. f_equal. clear H.
  induction files as [|f files IH]; [reflexivity|].
  cbn [map concat app]. rewrite IH. unfold entry_block.
  rewrite <- app_assoc. reflexivity.
Qed.

End CreateLayout.

Section RoundTrip.
Import LZHDecoder.

Lemma readHeader_end_marker (buffer : list byte) (o : Z) (rest : list byte) :
  at_cursor buffer o (x00 :: rest) ->
  exists st, readHeader buffer (Int o) = Ok (None, st).
Proof.
  intros H. pose proof (at_cursor_length _ _ _ H) as Hlen.
  rewrite len_cons in Hlen. pose proof (len_nonneg rest).
  unfold readHeader. unfold get_offset at 1. unfold bind at 1.
  destruct (num_ge (Int o) (Int (len buffer))) eqn:E0;
    [unfold num_ge in E0; lia|].
  rewrite (bind_Ok _ _ _ _ _ (readByte_at buffer o _ _ H)).
  change (byteZ x00) with 0. cbn [val_eq]. change (0 =? 0) with true.
  cbn [orb]. eexists. reflexivity.
Qed.

Lemma extractAll_loop_encoded (now : Date) (buffer : list byte)
    (files : list LZHEncoder.LHAFileInput) :
  Forall roundtrip_input files ->
  forall (fuel : nat) (o : Z) (found : list LHAFile),
    at_cursor buffer o (concat (map (entry_block now) files) ++ [x00]) ->
    (length files < fuel)%nat ->
    extractAll_loop buffer fuel (Int o) found
    = Some (found ++ map (decoded_entry now) files).
Proof.
  intros Hfiles. induction Hfiles as [|f files Hf Hfs IH];
    intros fuel o found H Hfuel.
  - cbn [map concat app] in *. destruct fuel as [|fuel]; [cbn in Hfuel; lia|].
    pose proof (at_cursor_length _ _ _ H) as Hlen.
    rewrite len_cons, len_nil in Hlen.
    cbn [extractAll_loop].
    destruct (num_lt (Int o) (Int (len buffer))) eqn:E;
      [|unfold num_lt in E; lia].
    destruct (readHeader_end_marker _ _ _ H) as (st & ->).
    rewrite app_nil_r. reflexivity.
  - destruct fuel as [|fuel]; [cbn in Hfuel; lia|].
    cbn [map concat] in H. rewrite <- app_assoc in H.
    pose proof (at_cursor_length _ _ _ H) as Hlen.
    pose proof (proj1 (proj1 H)) as Ho.
    assert (Hpos : 0 < len (entry_block now f
                       ++ concat (map (entry_block now) files) ++ [x00])).
    { rewrite !len_app, len_cons.
      pose proof (len_nonneg (entry_block now f)).
      pose proof (len_nonneg (concat (map (entry_block now) files))).
      pose proof (@len_nonneg byte []). lia. }
    cbn [extractAll_loop].
    destruct (num_lt (Int o) (Int (len buffer))) eqn:E;
      [|unfold num_lt in E; lia].
    rewrite (readHeader_encoded buffer now f o _ Hf H).
    apply at_cursor_app in H.
    rewrite (IH fuel _ (found ++ [decoded_entry now f]) H)
      by (cbn [length] in Hfuel; lia).
    rewrite <- app_assoc. reflexivity.
Qed.

(** C1 (amended): for inputs whose file names are well formed (not empty,
    no control characters, no white space at either end, at most 106
    bytes in UTF-8) and whose data is at most 100 MiB long, decoding the
    archive that the encoder produces returns one entry per input, in
    order, with the file name and the data of the input, the store method,
    both sizes equal to the length of the data, and the CRC-16 of the
    data. *)
Theorem extractAll_create (now : Date)
    (files : list LZHEncoder.LHAFileInput) (fuel : nat) :
  Forall roundtrip_input files ->
  (length files < fuel)%nat ->
  exists entries,
    extractAll (LZHEncoder.create now files) fuel = Some entries
    /\ Forall2 (fun e f =>
                  filename e = LZHEncoder.filename f
                  /\ data e = LZHEncoder.data f
                  /\ method e = str "-lh0-"
                  /\ originalSize e = len (LZHEncoder.data f)
                  /\ compressedSize e = len (LZHEncoder.data f)
                  /\ crc e = LZHEncoder.calculateCRC16 (LZHEncoder.data f))
         entries files.
Proof.
  intros Hfiles Hfuel. exists (map (decoded_entry now) files). split.
  - unfold extractAll.
    rewrite (extractAll_loop_encoded now _ files Hfiles fuel 0 []);
      [reflexivity | | exact Hfuel].
    rewrite create_layout. split; [|reflexivity].
    pose proof (len_nonneg (concat (map (entry_block now) files) ++ [x00])).
    lia.
  - clear. induction files as [|f files IH]; constructor; [|exact IH].
    repeat split.
Qed.

End RoundTrip.
Section RoundTripExamples.
Import LZHDecoder.

Lemma sample_input_ok : roundtrip_input sample_input.
Proof.
  split; [|vm_compute; discriminate].
  split; [discriminate|]. split; [|split; [|split]].
  - repeat constructor.
  - intros c Hc. injection Hc as <-. reflexivity.
  - intros c Hc. injection Hc as <-. reflexivity.
  - vm_compute. discriminate.
Qed.

Lemma extractAll_create_witness :
  exists entries,
    extractAll (LZHEncoder.create epoch [sample_input]) 2 = Some entries
    /\ Forall2 (fun e f =>
                  filename e = LZHEncoder.filename f
                  /\ data e = LZHEncoder.data f
                  /\ method e = str "-lh0-"
                  /\ originalSize e = len (LZHEncoder.data f)
                  /\ compressedSize e = len (LZHEncoder.data f)
                  /\ crc e = LZHEncoder.calculateCRC16 (LZHEncoder.data f))
         entries [sample_input].
Proof.
  apply (extractAll_create epoch [sample_input] 2).
  - apply Forall_singleton. exact sample_input_ok.
  - cbn [length]. lia.
Defined.

(** C1 (as stated) fails for an input with an empty file name: the
    decoder returns the entry under the name "unnamed". *)
Lemma extractAll_create_unnamed :
  ~ (forall (now : Date) (files : list LZHEncoder.LHAFileInput),
        exists fuel entries,
          extractAll (LZHEncoder.create now files) fuel = Some entries
          /\ Forall2 (fun e f =>
                        filename e = LZHEncoder.filename f
                        /\ data e = LZHEncoder.data f)
               entries files).
Proof.
  intros H. destruct (H epoch [unnamed_input]) as (fuel & entries & He & Hf).
  destruct fuel as [|[|fuel]]; vm_compute in He; try discriminate He.
  injection He as <-.
  apply Forall2_cons_1 in Hf. destruct Hf as [[Hn _] _].
  vm_compute in Hn. discriminate Hn.
Qed.

End RoundTripExamples.

(** * Further properties of the codec *)

(** ** The reading primitives of the decoder *)

Section ReadingPrimitives.
Import LZHDecoder.

Lemma readByte_at_end (buffer : list byte) (o : Z) :
  at_cursor buffer o [] -> readByte buffer (Int o) = Throw.
Proof.
  intros H. pose proof (at_cursor_length _ _ _ H) as Hl.
  rewrite len_nil in Hl. apply readByte_end. lia.
Qed.

Lemma readWord_short (buffer : list byte) (o : Z) (rest : list byte) :
  at_cursor buffer o rest -> (length rest < 2)%nat ->
  readWord buffer (Int o) = Throw.
Proof.
  intros H Hl. unfold readWord. destruct rest as [|b0 [|b1 rest]].
  - apply bind_Throw. exact (readByte_at_end _ _ H).
  - rewrite (bind_Ok _ _ _ _ _ (readByte_at _ _ _ _ H)).
    apply at_cursor_cons in H.
    apply bind_Throw. exact (readByte_at_end _ _ H).
  - cbn [length] in Hl. lia.
Qed.

Lemma toInt32_dword (b0 b1 b2 b3 : Z) :
  0 <= b0 < 256 -> 0 <= b1 < 256 -> 0 <= b2 < 256 -> 0 <= b3 < 256 ->
  toInt32 (b0 + b1 * 2 ^ 8 + b2 * 2 ^ 16 + b3 * 2 ^ 24)
  = b0 + b1 * 2 ^ 8 + b2 * 2 ^ 16
    + (if b3 <? 128 then b3 else b3 - 256) * 2 ^ 24.
Proof.
  intros H0 H1 H2 H3. destruct (Z.ltb_spec b3 128).
  - apply toInt32_small. lia.
  - rewrite <- (toInt32_add_mul _ (-1)). rewrite toInt32_small by lia. lia.
Qed.

(** X1: at a cursor inside the buffer, [readDWord] returns the four next
    bytes as a little-endian two's complement 32-bit integer (negative
    when the top bit of the fourth byte is set) and advances the cursor by
    four; it throws when fewer than four bytes remain. *)
Theorem readDWord_little_endian (buffer : list byte) (o : Z)
    (rest : list byte) :
  at_cursor buffer o rest ->
  readDWord buffer (Int o)
  = match rest with
    | b0 :: b1 :: b2 :: b3 :: _ =>
        Ok (byteZ b0 + byteZ b1 * 2 ^ 8 + byteZ b2 * 2 ^ 16
            + (if byteZ b3 <? 128 then byteZ b3 else byteZ b3 - 256) * 2 ^ 24,
            Int (o + 4))
    | _ => Throw
    end.
Proof.
  intros H.
  destruct rest as [|b0 [|b1 [|b2 [|b3 rest]]]].
  - unfold readDWord. apply bind_Throw.
    apply (readWord_short _ _ _ H). cbn [length]. lia.
  - unfold readDWord. apply bind_Throw.
    apply (readWord_short _ _ _ H). cbn [length]. lia.
  - unfold readDWord.
    rewrite (bind_Ok _ _ _ _ _ (readWord_at _ _ _ _ _ H)).
    apply at_cursor_cons2 in H. apply bind_Throw.
    apply (readWord_short _ _ _ H). cbn [length]. lia.
  - unfold readDWord.
    rewrite (bind_Ok _ _ _ _ _ (readWord_at _ _ _ _ _ H)).
    pose proof H as H'. apply at_cursor_cons2 in H'. apply bind_Throw.
    apply (readWord_short _ _ _ H'). cbn [length]. lia.
  - rewrite (readDWord_at _ _ _ _ _ _ _ H).
    pose proof (byteZ_range b0). pose proof (byteZ_range b1).
    pose proof (byteZ_range b2). pose proof (byteZ_range b3).
    rewrite toInt32_dword by assumption. reflexivity.
Qed.

Lemma readDWord_little_endian_witness :
  readDWord negative_size_archive (Int 7) = Ok (-24, Int 11).
Proof.
  refine (eq_trans (readDWord_little_endian negative_size_archive 7 _ _) _).
  - split; [vm_compute; split; discriminate | reflexivity].
  - reflexivity.
Defined.

End ReadingPrimitives.
(** ** The encoder's writes read back by the decoder *)

Section WriteRead.
Import LZHDecoder.

Lemma split_at {A} (l : list A) (n : nat) :
  (n <= length l)%nat ->
  exists pre post, l = pre ++ post /\ length pre = n.
Proof.
  intros H. exists (take n l), (drop n l). split.
  - symmetry. apply take_drop.
  - rewrite length_take. lia.
Qed.

Lemma writeWord_at (pre post : list byte) (a b : byte) (value : Z) :
  LZHEncoder.writeWord (pre ++ a :: b :: post) (len pre) value
  = pre ++ word_bytes value ++ post.
Proof.
  unfold LZHEncoder.writeWord, word_bytes.
  replace (Z.to_nat (len pre + 1)) with (length pre + 1)%nat
    by (unfold len; lia).
  replace (Z.to_nat (len pre)) with (length pre + 0)%nat
    by (unfold len; lia).
  rewrite !insert_after. reflexivity.
Qed.

Lemma writeDWord_at (pre post : list byte) (a b c d : byte) (value : Z) :
  LZHEncoder.writeDWord (pre ++ a :: b :: c :: d :: post) (len pre) value
  = pre ++ dword_bytes value ++ post.
Proof.
  unfold LZHEncoder.writeDWord, dword_bytes.
  replace (Z.to_nat (len pre + 3)) with (length pre + 3)%nat
    by (unfold len; lia).
  replace (Z.to_nat (len pre + 2)) with (length pre + 2)%nat
    by (unfold len; lia).
  replace (Z.to_nat (len pre + 1)) with (length pre + 1)%nat
    by (unfold len; lia).
  replace (Z.to_nat (len pre)) with (length pre + 0)%nat
    by (unfold len; lia).
  rewrite !insert_after. reflexivity.
Qed.

Lemma at_cursor_here (pre rest : list byte) :
  at_cursor (pre ++ rest) (len pre) rest.
Proof.
  split.
  - rewrite len_app. pose proof (len_nonneg pre). pose proof (len_nonneg rest).
    lia.
  - unfold len. rewrite Nat2Z.id. apply drop_app_length.
Qed.

Lemma js_and_FF_any (v : Z) : js_and v 0xFF = toInt32 v mod 2 ^ 8.
Proof.
  unfold js_and. rewrite (toInt32_small 0xFF) by lia.
  change 0xFF with (Z.ones 8). apply Z.land_ones. lia.
Qed.

Lemma js_shr_any (v n : Z) : 0 <= n < 32 -> js_shr v n = toInt32 v / 2 ^ n.
Proof.
  intros Hn. unfold js_shr. rewrite Z.mod_small by lia.
  apply Z.shiftr_div_pow2. lia.
Qed.

Lemma toInt32_div_small (x n : Z) :
  0 <= n -> - 2 ^ 31 <= x < 2 ^ 31 -> - 2 ^ 31 <= x / 2 ^ n < 2 ^ 31.
Proof.
  intros Hn Hx. pose proof (Z.pow_pos_nonneg 2 n ltac:(lia) ltac:(lia)) as Hp.
  split.
  - apply Z.div_le_lower_bound; nia.
  - apply Z.div_lt_upper_bound; nia.
Qed.

Lemma stored_dword_any (v : Z) :
  toInt32 (byteZ (toUint8 (js_and v 0xFF))
           + byteZ (toUint8 (js_and (js_shr v 8) 0xFF)) * 2 ^ 8
           + byteZ (toUint8 (js_and (js_shr v 16) 0xFF)) * 2 ^ 16
           + byteZ (toUint8 (js_and (js_shr v 24) 0xFF)) * 2 ^ 24)
  = toInt32 v.
Proof.
  pose proof (toInt32_range v) as Hr. set (x := toInt32 v) in *.
  rewrite !js_and_FF_any, !js_shr_any by lia. fold x.
  rewrite !(toInt32_small (x / _)) by (apply toInt32_div_small; lia).
  rewrite !byteZ_toUint8.
  change (2 ^ 8) with 256. change (2 ^ 16) with 65536.
  change (2 ^ 24) with 16777216.
  destruct (Z.lt_ge_cases x 0) as [Hneg | Hpos].
  - replace (x mod 256 mod 256 + (x / 256) mod 256 mod 256 * 256
             + (x / 65536) mod 256 mod 256 * 65536
             + (x / 16777216) mod 256 mod 256 * 16777216)
      with (x + 1 * 2 ^ 32) by (Z.div_mod_to_equations; lia).
    rewrite toInt32_add_mul. apply toInt32_small. lia.
  - replace (x mod 256 mod 256 + (x / 256) mod 256 mod 256 * 256
             + (x / 65536) mod 256 mod 256 * 65536
             + (x / 16777216) mod 256 mod 256 * 16777216)
      with x by (Z.div_mod_to_equations; lia).
    apply toInt32_small. lia.
Qed.

(** X2: what the encoder's [writeDWord] stores at an offset inside a
    buffer, the decoder's [readDWord] reads back at that offset as the
    same 32-bit integer (the value wrapped to 32 bits, signed), and the
    write keeps the length of the buffer. *)
Theorem readDWord_writeDWord (buffer : list byte) (o value : Z) :
  0 <= o -> o + 4 <= len buffer ->
  readDWord (LZHEncoder.writeDWord buffer o value) (Int o)
  = Ok (toInt32 value, Int (o + 4))
  /\ len (LZHEncoder.writeDWord buffer o value) = len buffer.
Proof.
  intros Ho Hfit.
  destruct (split_at buffer (Z.to_nat o)) as (pre & post & -> & Hpre);
    [unfold len in Hfit; lia|].
  assert (Ho' : o = len pre) by (unfold len; lia). subst o.
  rewrite len_app in Hfit.
  destruct post as [|a [|b [|c [|d post]]]];
    try (exfalso; rewrite ?len_cons, ?len_nil in Hfit; lia).
  rewrite writeDWord_at. split.
  - pose proof (at_cursor_here pre (dword_bytes value ++ post)) as H.
    unfold dword_bytes in *. cbn [app] in *.
    rewrite (readDWord_at _ _ _ _ _ _ _ H), stored_dword_any. reflexivity.
  - rewrite !len_app. unfold dword_bytes. rewrite !len_cons, len_nil. lia.
Qed.

Lemma readDWord_writeDWord_witness :
  readDWord (LZHEncoder.writeDWord (zeros 6) 1 (-24)) (Int 1)
  = Ok (-24, Int 5).
Proof.
  refine (proj1 (readDWord_writeDWord (zeros 6) 1 (-24) _ _)).
  - lia.
  - vm_compute. discriminate.
Defined.

End WriteRead.
(** ** Strings read from the buffer *)

Section ReadStrings.
Import LZHDecoder.

Lemma utf8_run_ascii (bytes : list byte) :
  Forall (fun b => byteZ b <= 0x7F) bytes ->
  utf8_run utf8_start bytes = map byteZ bytes.
Proof.
  intros H. induction H as [|b bytes Hb Hbs IH]; [reflexivity|].
  cbn [utf8_run map]. rewrite utf8_step_start, utf8_lead_1 by exact Hb.
  rewrite IH. reflexivity.
Qed.

Lemma utf8_decode_ascii (bytes : list byte) :
  Forall (fun b => byteZ b <= 0x7F) bytes ->
  utf8_decode bytes = map byteZ bytes.
Proof.
  intros H. unfold utf8_decode. rewrite utf8_run_ascii by exact H.
  destruct H as [|b bytes Hb Hbs]; [reflexivity|]. cbn [map].
  destruct (Z.eqb_spec (byteZ b) 0xFEFF); [lia | reflexivity].
Qed.

Lemma find_null_app (xs ys : list byte) :
  Forall (fun b => byteZ b <> 0) xs ->
  find_null (xs ++ x00 :: ys) = Some (length xs).
Proof.
  intros H. induction H as [|b xs Hb Hxs IH]; [reflexivity|].
  cbn [app find_null length].
  destruct (Z.eqb_spec (byteZ b) 0); [contradiction|].
  rewrite IH. reflexivity.
Qed.

(** X3: [readString(n)] consumes [n] bytes but returns only the text
    before the first null byte: for printable ASCII bytes [xs] followed by
    a null byte and any bytes [ys], it returns the characters of [xs] and
    the cursor moves past [ys] as well. *)
Theorem readString_stops_at_null (buffer : list byte) (o : Z)
    (xs ys rest : list byte) :
  Forall (fun b => 0x20 <= byteZ b <= 0x7E) xs ->
  at_cursor buffer o ((xs ++ x00 :: ys) ++ rest) ->
  readString buffer (Some (len (xs ++ x00 :: ys))) (Int o)
  = Ok (map byteZ xs, Int (o + len (xs ++ x00 :: ys))).
Proof.
  intros Hxs H. unfold readString. cbn [toNumber].
  rewrite (bind_Ok _ _ _ _ _ (readBytes_at buffer o _ rest H)).
  rewrite find_null_app
    by (eapply Forall_impl; [exact Hxs|]; cbv beta; intros b Hb; lia).
  pose proof (len_nonneg xs) as Hx0. pose proof (len_nonneg ys) as Hy0.
  fold (len xs).
  rewrite slice_Int by (rewrite ?len_app, ?len_cons; lia).
  cbn [Z.to_nat]. rewrite drop_0, Z.sub_0_r.
  unfold len at 1. rewrite Nat2Z.id, take_app_length.
  rewrite utf8_decode_ascii
    by (eapply Forall_impl; [exact Hxs|]; cbv beta; intros b Hb; lia).
  rewrite strip_control_id; [reflexivity|].
  apply Forall_fmap. eapply Forall_impl; [exact Hxs|].
  cbv beta. intros b Hb. unfold is_control, compose.
  destruct (Z.leb_spec (byteZ b) 0x1F); [lia|].
  destruct (Z.eqb_spec (byteZ b) 0x7F); [lia|].
  rewrite andb_false_r. reflexivity.
Qed.

Lemma readString_stops_at_null_witness :
  readString (map toUint8 [0x61; 0x62; 0; 0x63; 0x64; 0x65]) (Some 5) (Int 0)
  = Ok (str "ab", Int 5).
Proof.
  refine (readString_stops_at_null
            (map toUint8 [0x61; 0x62; 0; 0x63; 0x64; 0x65]) 0
            (map toUint8 [0x61; 0x62]) (map toUint8 [0x63; 0x64])
            [toUint8 0x65] _ _).
  - repeat constructor; vm_compute; discriminate.
  - split; [vm_compute; split; discriminate | reflexivity].
Defined.

End ReadStrings.
(** ** Where the archive ends *)

Section ArchiveEnd.
Import LZHDecoder.

Lemma rejected_header_size (b : byte) (rest : list byte) (fuel : nat) :
  byteZ b = 0 \/ 128 < byteZ b ->
  extractAll (b :: rest) (S fuel) = Some [].
Proof.
  intros Hb. unfold extractAll. cbn [extractAll_loop].
  pose proof (len_nonneg rest) as Hr.
  assert (Hlt : num_lt (Int 0) (Int (len (b :: rest))) = true).
  { rewrite len_cons. unfold num_lt. apply Z.ltb_lt. lia. }
  rewrite Hlt.
  assert (Hh : exists st, readHeader (b :: rest) (Int 0) = Ok (None, st)).
  { unfold readHeader. unfold get_offset at 1. unfold bind at 1.
    destruct (num_ge (Int 0) (Int (len (b :: rest)))) eqn:E0;
      [rewrite len_cons in E0; unfold num_ge in E0; lia|].
    assert (Hc : at_cursor (b :: rest) 0 (b :: rest)).
    { split; [rewrite len_cons; lia | reflexivity]. }
    rewrite (bind_Ok _ _ _ _ _ (readByte_at _ _ _ _ Hc)).
    cbn [val_eq toNumber num_gt].
    destruct ((byteZ b =? 0) || (byteZ b >? 128)) eqn:E1.
    - eexists. reflexivity.
    - apply orb_false_iff in E1. lia. }
  destruct Hh as (st & ->). reflexivity.
Qed.

(** X4: an empty buffer gives no entries, whatever the fuel; so does a
    buffer whose first byte, read as a header size, is 0 (the end marker)
    or more than 128: the rest of the buffer is not looked at. *)
Theorem extractAll_stops_at_header_size :
  (forall fuel, extractAll [] fuel = Some [])
  /\ (forall (b : byte) (rest : list byte) (fuel : nat),
         byteZ b = 0 \/ 128 < byteZ b ->
         extractAll (b :: rest) (S fuel) = Some []).
Proof.
  split.
  - intros [|fuel]; reflexivity.
  - intros b rest fuel Hb. apply rejected_header_size. exact Hb.
Qed.

Lemma extractAll_stops_at_header_size_witness :
  extractAll (x00 :: map toUint8 [1; 2; 3]) 1 = Some [].
Proof.
  apply (proj2 extractAll_stops_at_header_size). left. reflexivity.
Defined.

End ArchiveEnd.

(** ** Unpacked timestamps *)

Section UnpackedTimestamps.
Import LZHDecoder.

Lemma js_and_ones_range (a k : Z) :
  0 <= k < 31 -> 0 <= js_and a (2 ^ k - 1) < 2 ^ k.
Proof.
  intros Hk. unfold js_and.
  pose proof (Z.pow_pos_nonneg 2 k ltac:(lia) ltac:(lia)) as Hp.
  assert (Q : 2 ^ k < 2 ^ 31) by (apply Z.pow_lt_mono_r; lia).
  rewrite (toInt32_small (2 ^ k - 1)) by lia.
  replace (2 ^ k - 1) with (Z.ones k) by (rewrite Z.ones_equiv; lia).
  rewrite Z.land_ones by lia. apply Z.mod_pos_bound. lia.
Qed.

(** X5: whatever the packed date and time words are, the fields that
    [dosDateTimeToDate] unpacks and hands to [new Date] lie in fixed
    ranges: the year in [1980, 2107], the month (counted from 0) in
    [-1, 14], the day in [0, 31], the hour in [0, 31], the minute in
    [0, 63], and the second is even and in [0, 62]. *)
Theorem dosDateTimeToDate_ranges (dosDate dosTime : Z) :
  1980 <= year (dosDateTimeToDate dosDate dosTime) <= 2107
  /\ -1 <= month (dosDateTimeToDate dosDate dosTime) <= 14
  /\ 0 <= day (dosDateTimeToDate dosDate dosTime) <= 31
  /\ 0 <= hour (dosDateTimeToDate dosDate dosTime) <= 31
  /\ 0 <= minute (dosDateTimeToDate dosDate dosTime) <= 63
  /\ 0 <= second (dosDateTimeToDate dosDate dosTime) <= 62
  /\ second (dosDateTimeToDate dosDate dosTime) mod 2 = 0.
Proof.
  unfold dosDateTimeToDate.
  cbn [year month day hour minute second].
  pose proof (js_and_ones_range (js_shr dosDate 9) 7 ltac:(lia)) as H1.
  pose proof (js_and_ones_range (js_shr dosDate 5) 4 ltac:(lia)) as H2.
  pose proof (js_and_ones_range dosDate 5 ltac:(lia)) as H3.
  pose proof (js_and_ones_range (js_shr dosTime 11) 5 ltac:(lia)) as H4.
  pose proof (js_and_ones_range (js_shr dosTime 5) 6 ltac:(lia)) as H5.
  pose proof (js_and_ones_range dosTime 5 ltac:(lia)) as H6.
  change (2 ^ 7 - 1) with 0x7F in H1. change (2 ^ 4 - 1) with 0x0F in H2.
  change (2 ^ 5 - 1) with 0x1F in H3, H4, H6.
  change (2 ^ 6 - 1) with 0x3F in H5.
  change (2 ^ 7) with 128 in H1. change (2 ^ 4) with 16 in H2.
  change (2 ^ 5) with 32 in H3, H4, H6. change (2 ^ 6) with 64 in H5.
  repeat split; try lia.
  apply Z.mod_mul. lia.
Qed.

End UnpackedTimestamps.
(** ** Header parsing always ends *)

Section HeaderParsingEnds.
Import LZHDecoder.
Variable buffer : list byte.

Lemma bind_not_fuel {A B} (m : M A) (k : A -> M B) (s : num) :
  m s <> OutOfFuel ->
  (forall a s', m s = Ok (a, s') -> k a s' <> OutOfFuel) ->
  bind m k s <> OutOfFuel.
Proof.
  intros Hm Hk. unfold bind. destruct (m s) as [[a s']| |].
  - apply Hk. reflexivity.
  - discriminate.
  - contradiction.
Qed.

Lemma ret_not_fuel {A} (a : A) (s : num) : ret a s <> OutOfFuel.
Proof. discriminate. Qed.

Lemma readByte_not_fuel (s : num) : readByte buffer s <> OutOfFuel.
Proof. unfold readByte. destruct (num_ge s _); discriminate. Qed.

Lemma readBytes_not_fuel (n s : num) : readBytes buffer n s <> OutOfFuel.
Proof. unfold readBytes. destruct (num_gt _ _); discriminate. Qed.

Lemma readWord_not_fuel (s : num) : readWord buffer s <> OutOfFuel.
Proof.
  unfold readWord.
  apply bind_not_fuel; [apply readByte_not_fuel | intros low s1 _].
  apply bind_not_fuel; [apply readByte_not_fuel | intros high s2 _].
  apply ret_not_fuel.
Qed.

Lemma readDWord_not_fuel (s : num) : readDWord buffer s <> OutOfFuel.
Proof.
  unfold readDWord.
  apply bind_not_fuel; [apply readWord_not_fuel | intros low s1 _].
  apply bind_not_fuel; [apply readWord_not_fuel | intros high s2 _].
  apply ret_not_fuel.
Qed.

Lemma readString_not_fuel (n : val) (s : num) :
  readString buffer n s <> OutOfFuel.
Proof.
  unfold readString.
  apply bind_not_fuel; [apply readBytes_not_fuel | intros bytes s1 _].
  apply ret_not_fuel.
Qed.

Lemma skipLevel2_not_fuel (headerSize : val) (s : num) :
  skipLevel2 buffer headerSize s <> OutOfFuel.
Proof.
  unfold skipLevel2.
  apply bind_not_fuel; [apply readWord_not_fuel | intros total s1 _].
  destruct (num_gt _ _); [|apply ret_not_fuel].
  apply bind_not_fuel; [apply readBytes_not_fuel | intros xs s2 _].
  apply ret_not_fuel.
Qed.

(** From a cursor inside the buffer every round of the loop over the
    extended headers moves the cursor forward, so the bytes that are left
    bound the number of rounds. *)
Lemma skipExtendedHeaders_inside (fuel : nat) (o : Z) :
  0 <= o -> (Z.to_nat (len buffer - o) < fuel)%nat ->
  skipExtendedHeaders buffer fuel (Int o) <> OutOfFuel.
Proof.
  revert o. induction fuel as [|fuel IH]; intros o Ho Hfuel; [lia|].
  cbn [skipExtendedHeaders].
  apply bind_not_fuel; [apply readWord_not_fuel | intros extSize s1 H1].
  destruct (readWord_regular _ _ _ _ H1 Ho) as (-> & Hw).
  destruct (extSize =? 0) eqn:E; [apply ret_not_fuel|].
  apply bind_not_fuel; [apply readBytes_not_fuel | intros xs s2 H2].
  destruct (readBytes_regular _ _ _ _ _ H2) as (-> & Hfit & _).
  apply IH; lia.
Qed.

Lemma readWord_before_buffer (o : Z) :
  o <= -2 -> readWord buffer (Int o) = Ok (0, Int (o + 1 + 1)).
Proof.
  intros Ho. pose proof (len_nonneg buffer) as Hl.
  unfold readWord, bind, readByte, num_ge, num_add, index, ret.
  destruct (o >=? len buffer) eqn:E1; [lia|].
  destruct (o + 1 >=? len buffer) eqn:E2; [lia|].
  destruct (o <? 0) eqn:E3; [|lia].
  destruct (o + 1 <? 0) eqn:E4; [|lia]. reflexivity.
Qed.

Lemma skipExtendedHeaders_not_fuel (s : num) :
  skipExtendedHeaders buffer (length buffer + 3) s <> OutOfFuel.
Proof.
  pose proof (len_nonneg buffer) as Hl.
  destruct s as [o|].
  - destruct (Z.le_gt_cases 0 o) as [Hpos | Hneg].
    + apply skipExtendedHeaders_inside; [exact Hpos | unfold len; lia].
    + replace (length buffer + 3)%nat with (S (length buffer + 2)) by lia.
      cbn [skipExtendedHeaders].
      destruct (Z.le_gt_cases o (-2)) as [H2 | H1].
      * rewrite (bind_Ok _ _ _ _ _ (readWord_before_buffer o H2)).
        apply ret_not_fuel.
      * assert (o = -1) by lia. subst o.
        apply bind_not_fuel; [apply readWord_not_fuel | intros extSize s1 Hw].
        assert (Hs1 : s1 = Int 1 /\ (extSize = 0 \/ 256 <= extSize)).
        { unfold readWord, bind, readByte, num_ge, num_add, index, ret in Hw.
          destruct (-1 >=? len buffer) eqn:E1; [lia|].
          destruct (-1 + 1 >=? len buffer) eqn:E2; [discriminate|].
          change (-1 <? 0) with true in Hw. change (-1 + 1 <? 0) with false in Hw.
          change (Z.to_nat (-1 + 1)) with 0%nat in Hw. cbv iota in Hw.
          destruct (buffer !! 0%nat) as [b|];
            cbn [fmap option_fmap option_map valInt32] in Hw;
            injection Hw as <- <-.
          - split; [reflexivity|]. pose proof (byteZ_range b).
            rewrite js_or_low_high by lia. lia.
          - split; [reflexivity | left; reflexivity]. }
        destruct Hs1 as [-> Hext].
        destruct (extSize =? 0) eqn:E; [apply ret_not_fuel|].
        apply bind_not_fuel; [apply readBytes_not_fuel | intros xs s2 H2].
        destruct (readBytes_regular _ _ _ _ _ H2) as (-> & Hfit & _).
        apply skipExtendedHeaders_inside; [lia | unfold len in *; lia].
  - replace (length buffer + 3)%nat with (S (length buffer + 2)) by lia.
    cbn [skipExtendedHeaders]. unfold bind at 1. cbn. discriminate.
Qed.

End HeaderParsingEnds.
Section HeaderReturns.
Import LZHDecoder.

Lemma decompressLH1_cases (c : list byte) (n : Z) :
  (n < 0 /\ decompressLH1 c n = Throw)
  \/ (0 <= n /\ exists d, decompressLH1 c n = Ok d /\ len d = n).
Proof.
  destruct (Z.lt_ge_cases n 0) as [Hn | Hn].
  - left. split; [exact Hn|]. unfold decompressLH1.
    destruct (Z.ltb_spec n 0); [reflexivity | lia].
  - right. split; [exact Hn|].
    destruct (decompressLH1_total c n Hn) as (s & _ & Hd & (Hl & _) & _).
    exists (output s). auto.
Qed.

Lemma decompressLH5_cases (c : list byte) (n : Z) :
  (n < 0 /\ decompressLH5 c n = Throw)
  \/ (0 <= n /\ exists d, decompressLH5 c n = Ok d /\ len d = n).
Proof.
  destruct (Z.lt_ge_cases n 0) as [Hn | Hn].
  - left. split; [exact Hn|]. unfold decompressLH5.
    destruct (Z.ltb_spec n 0); [reflexivity | lia].
  - right. split; [exact Hn|].
    destruct (decompressLH5_total c n Hn) as (s & _ & Hd & (Hl & _) & _).
    exists (output5 s). auto.
Qed.

Lemma decompress_cases (method : jsstring) (c : list byte) (n : Z) :
  (is_lzss_method method = true ->
   (n < 0 -> decompress method c n = Throw)
   /\ (0 <= n -> exists d, decompress method c n = Ok d /\ len d = n))
  /\ (is_lzss_method method = false ->
      decompress method c n
      = Ok (if str_eq method (str "-lhd-") then [] else c)).
Proof.
  unfold decompress, is_lzss_method. split.
  - intros Hm.
    destruct (str_eq method (str "-lh0-")) eqn:E0.
    { apply str_eq_true in E0. subst method. discriminate Hm. }
    destruct (str_eq method (str "-lh1-")) eqn:E1.
    + destruct (decompressLH1_cases c n) as [[Hn ->] | [Hn (d & -> & Hd)]];
        split; intros; try lia; eauto.
    + cbn [orb] in Hm. rewrite Hm.
      destruct (decompressLH5_cases c n) as [[Hn ->] | [Hn (d & -> & Hd)]];
        split; intros; try lia; eauto.
  - intros Hm.
    apply orb_false_iff in Hm. destruct Hm as [Hm E7].
    apply orb_false_iff in Hm. destruct Hm as [Hm E6].
    apply orb_false_iff in Hm. destruct Hm as [Hm E5].
    apply orb_false_iff in Hm. destruct Hm as [E1 E4].
    rewrite E1, E4, E5, E6, E7. cbn [orb].
    destruct (str_eq method (str "-lh0-")) eqn:E0.
    + apply str_eq_true in E0. subst method. reflexivity.
    + destruct (str_eq method (str "-lhd-")); reflexivity.
Qed.

(** X6: decompression always ends.  The LZSS routines throw exactly when
    the declared original size is negative and otherwise return a buffer
    of that size; the other methods return at once: the payload, or
    nothing for a directory. *)
Theorem decompress_returns (method : jsstring) (c : list byte) (n : Z) :
  (is_lzss_method method = true ->
   (n < 0 -> decompress method c n = Throw)
   /\ (0 <= n -> exists d, decompress method c n = Ok d /\ len d = n))
  /\ (is_lzss_method method = false ->
      decompress method c n
      = Ok (if str_eq method (str "-lhd-") then [] else c)).
Proof. exact (decompress_cases method c n). Qed.

Lemma decompress_returns_witness :
  decompress (str "-lh5-") [] (-1) = Throw
  /\ (exists d, decompress (str "-lh1-") lh1_vector 6 = Ok d /\ len d = 6)
  /\ decompress (str "-lhd-") lh1_vector 6 = Ok [].
Proof.
  split; [|split].
  - apply (proj1 (decompress_returns (str "-lh5-") [] (-1))); [reflexivity | lia].
  - apply (proj1 (decompress_returns (str "-lh1-") lh1_vector 6));
      [reflexivity | lia].
  - apply (proj2 (decompress_returns (str "-lhd-") lh1_vector 6)). reflexivity.
Defined.

Lemma decompress_not_fuel (method : jsstring) (c : list byte) (n : Z) :
  decompress method c n <> OutOfFuel.
Proof.
  destruct (decompress_cases method c n) as [Hl Ho].
  destruct (is_lzss_method method) eqn:E.
  - destruct (Hl eq_refl) as [Hneg Hpos].
    destruct (Z.lt_ge_cases n 0) as [Hn | Hn].
    + rewrite (Hneg Hn). discriminate.
    + destruct (Hpos Hn) as (d & -> & _). discriminate.
  - rewrite (Ho eq_refl). discriminate.
Qed.

Lemma lift_not_fuel {A} (r : result A) (s : num) :
  r <> OutOfFuel -> lift r s <> OutOfFuel.
Proof. intros H. unfold lift. destruct r; [discriminate.. | contradiction]. Qed.

Lemma readHeader_not_fuel (buffer : list byte) (s : num) :
  readHeader buffer s <> OutOfFuel.
Proof.
  unfold readHeader.
  apply bind_not_fuel; [discriminate | intros offset s0 _].
  destruct (num_ge offset _); [apply ret_not_fuel|].
  apply bind_not_fuel; [apply readByte_not_fuel | intros headerSize s1 _].
  destruct (_ || _); [apply ret_not_fuel|].
  apply bind_not_fuel; [apply readByte_not_fuel | intros checksum s2 _].
  apply bind_not_fuel; [apply readString_not_fuel | intros method s3 _].
  destruct (_ && _); [apply ret_not_fuel|].
  apply bind_not_fuel; [apply readDWord_not_fuel | intros cs s4 _].
  apply bind_not_fuel; [apply readDWord_not_fuel | intros osz s5 _].
  destruct (_ || _); [apply ret_not_fuel|].
  apply bind_not_fuel; [apply readWord_not_fuel | intros dosTime s6 _].
  apply bind_not_fuel; [apply readWord_not_fuel | intros dosDate s7 _].
  apply bind_not_fuel; [apply readByte_not_fuel | intros attributes s8 _].
  apply bind_not_fuel; [apply readByte_not_fuel | intros level s9 _].
  apply bind_not_fuel; [apply readByte_not_fuel | intros nameLength s10 _].
  apply bind_not_fuel; [apply readString_not_fuel | intros name s11 _].
  apply bind_not_fuel; [apply readWord_not_fuel | intros crc16 s12 _].
  apply bind_not_fuel;
    [destruct (num_ge _ _); [apply readByte_not_fuel | apply ret_not_fuel]
    | intros os_ s13 _].
  apply bind_not_fuel;
    [destruct (val_eq level 1);
       [apply skipExtendedHeaders_not_fuel
       | destruct (val_eq level 2);
           [apply skipLevel2_not_fuel | apply ret_not_fuel]]
    | intros u s14 _].
  apply bind_not_fuel; [discriminate | intros off s15 _].
  destruct (num_gt _ _); [apply ret_not_fuel|].
  apply bind_not_fuel; [apply readBytes_not_fuel | intros payload s16 _].
  apply bind_not_fuel;
    [apply lift_not_fuel, decompress_not_fuel | intros d s17 _].
  apply ret_not_fuel.
Qed.

(** X7: reading a header always ends, from any cursor: the loop over the
    extended headers of a level 1 header and the decompression routines
    return or throw, so [readHeader] gives an entry, no entry or an
    exception. *)
Theorem readHeader_returns (buffer : list byte) (s : num) :
  (exists f s', readHeader buffer s = Ok (Some f, s'))
  \/ (exists s', readHeader buffer s = Ok (None, s'))
  \/ readHeader buffer s = Throw.
Proof.
  pose proof (readHeader_not_fuel buffer s) as H.
  destruct (readHeader buffer s) as [[[f|] s']| |]; eauto.
  contradiction.
Qed.

End HeaderReturns.
(** ** The loop of extractAll *)

Section ExtractAllLoop.
Import LZHDecoder.
Variable buffer : list byte.

Lemma extractAll_loop_ends (fuel : nat) (o : Z) (found : list LHAFile) :
  0 <= o -> (Z.to_nat (len buffer - o) < fuel)%nat ->
  (exists files, extractAll_loop buffer fuel (Int o) found = Some files)
  \/ (exists o' st' f,
         0 <= o' /\ readHeader buffer (Int o') = Ok (Some f, st')
         /\ compressedSize f < 0).
Proof.
  revert o found. induction fuel as [|fuel IH]; intros o found Ho Hfuel; [lia|].
  cbn [extractAll_loop].
  destruct (num_lt (Int o) (Int (len buffer))) eqn:E; [|left; eauto].
  pose proof (readHeader_not_fuel buffer (Int o)) as Hnf.
  destruct (readHeader buffer (Int o)) as [[[f|] st']| |] eqn:Eh;
    [|left; eauto|left; eauto|contradiction].
  destruct (readHeader_regular _ _ _ _ Ho Eh) as (q & Hq & Hfit & -> & _).
  destruct (Z.lt_ge_cases (compressedSize f) 0) as [Hneg | Hpos].
  - right. exists o, (Int (q + compressedSize f)), f. auto.
  - apply IH; lia.
Qed.

Lemma blocks_size_count (files : list LHAFile) :
  Forall (fun f => 0 <= compressedSize f) files ->
  24 * len files <= blocks_size files.
Proof.
  intros H. induction H as [|f files Hf Hfs IH]; [reflexivity|].
  rewrite len_cons. cbn [blocks_size fold_right]. fold (blocks_size files).
  lia.
Qed.

Lemma extractAll_loop_fit (fuel : nat) (o : Z) (found files : list LHAFile) :
  0 <= o <= len buffer ->
  extractAll_loop buffer fuel (Int o) found = Some files ->
  exists new,
    files = found ++ new
    /\ (Forall (fun f => 0 <= compressedSize f) new ->
        o + blocks_size new <= len buffer).
Proof.
  revert o found. induction fuel as [|fuel IH]; intros o found Ho H.
  - cbn [extractAll_loop] in H.
    destruct (num_lt (Int o) (Int (len buffer))); [discriminate|].
    injection H as <-. exists []. rewrite app_nil_r.
    split; [reflexivity|]. intros _. cbn. lia.
  - cbn [extractAll_loop] in H.
    assert (Hstop : exists new : list LHAFile,
               found = found ++ new
               /\ (Forall (fun f => 0 <= compressedSize f) new ->
                   o + blocks_size new <= len buffer)).
    { exists []. rewrite app_nil_r. split; [reflexivity|].
      intros _. cbn. lia. }
    destruct (num_lt (Int o) (Int (len buffer)));
      [|injection H as <-; exact Hstop].
    destruct (readHeader buffer (Int o)) as [[[f|] st']| |] eqn:Eh;
      try discriminate; try (injection H as <-; exact Hstop).
    destruct (readHeader_regular _ _ _ _ (proj1 Ho) Eh)
      as (q & Hq & Hfit & -> & _).
    destruct (Z.lt_ge_cases (compressedSize f) 0) as [Hneg | Hpos].
    + assert (Hsub : exists new, files = (found ++ [f]) ++ new).
      { clear -H. revert H. generalize (Int (q + compressedSize f)).
        generalize (found ++ [f]). revert files.
        induction fuel as [|fuel IH]; intros files l n H.
        - cbn [extractAll_loop] in H.
          destruct (num_lt n (Int (len buffer))); [discriminate|].
          injection H as <-. exists []. rewrite app_nil_r. reflexivity.
        - cbn [extractAll_loop] in H.
          destruct (num_lt n (Int (len buffer)));
            [|injection H as <-; exists []; rewrite app_nil_r; reflexivity].
          destruct (readHeader buffer n) as [[[g|] st']| |];
            try discriminate;
            try (injection H as <-; exists []; rewrite app_nil_r;
                 reflexivity).
          destruct (IH _ _ _ H) as (new & ->).
          exists (g :: new). rewrite <- app_assoc. reflexivity. }
      destruct Hsub as (new & ->). exists (f :: new).
      rewrite <- app_assoc. split; [reflexivity|].
      intros Hall. apply Forall_cons_1 in Hall. lia.
    + destruct (IH (q + compressedSize f) (found ++ [f]) ltac:(lia) H)
        as (new & -> & Hnew).
      exists (f :: new). rewrite <- app_assoc. split; [reflexivity|].
      intros Hall. apply Forall_cons_1 in Hall. destruct Hall as [Hf Hall].
      specialize (Hnew Hall). cbn [blocks_size fold_right].
      fold (blocks_size new). lia.
Qed.

End ExtractAllLoop.

Section ExtractAllEnds.
Import LZHDecoder.

(** X8: with more rounds than the buffer has bytes, [extractAll] returns,
    unless some header of the buffer is accepted with a negative
    compressed size (a size field above 2^31 - 1). *)
Theorem extractAll_ends (buffer : list byte) (fuel : nat) :
  (length buffer < fuel)%nat ->
  (exists files, extractAll buffer fuel = Some files)
  \/ (exists o st' f,
         0 <= o /\ readHeader buffer (Int o) = Ok (Some f, st')
         /\ compressedSize f < 0).
Proof.
  intros Hfuel. unfold extractAll.
  apply extractAll_loop_ends; [lia | unfold len; lia].
Qed.

Lemma extractAll_ends_witness :
  (exists files, extractAll stored_archive 30 = Some files)
  \/ (exists o st' f,
         0 <= o /\ readHeader stored_archive (Int o) = Ok (Some f, st')
         /\ compressedSize f < 0).
Proof.
  apply (extractAll_ends stored_archive 30). vm_compute. lia.
Defined.

(** X9: every entry that [extractAll] returns has an original size of at
    most 100 MiB and a compressed size of at most the buffer length; and
    when no entry has a negative compressed size, the entries take
    disjoint parts of the buffer: 24 bytes of header and the payload
    each, so their number is at most a 24th of the buffer length. *)
Theorem entries_fit (buffer : list byte) (fuel : nat) (files : list LHAFile) :
  extractAll buffer fuel = Some files ->
  Forall (fun f => originalSize f <= 100 * 1024 * 1024
                   /\ compressedSize f <= len buffer) files
  /\ (Forall (fun f => 0 <= compressedSize f) files ->
      blocks_size files <= len buffer /\ 24 * len files <= len buffer).
Proof.
  intros H. split.
  - revert H. apply extractAll_Forall. intros st st' f Hh.
    destruct (readHeader_Some _ _ _ _ Hh) as (Hc & Ho & _). auto.
  - intros Hall. unfold extractAll in H.
    destruct (extractAll_loop_fit buffer fuel 0 [] files) as (new & -> & Hnew);
      [pose proof (len_nonneg buffer); lia | exact H |].
    cbn [app] in *. specialize (Hnew Hall).
    pose proof (blocks_size_count new Hall). lia.
Qed.

Lemma entries_fit_witness :
  blocks_size
    [{| filename := str "a"; originalSize := 0; compressedSize := 3;
        timestamp := dosDateTimeToDate 0 0; crc := 0;
        method := str "-lh0-"; os := Some 0;
        data := map toUint8 [7; 8; 9] |}]
  <= len stored_archive.
Proof.
  refine (proj1 (proj2 (entries_fit stored_archive 2 _
                          stored_archive_entries) _)).
  apply Forall_singleton. cbn. lia.
Defined.

End ExtractAllEnds.

(** ** The names, methods and checksums of the entries *)

Section EntryFields.
Import LZHDecoder.

Lemma readByte_value (buffer : list byte) (s s' : num) (v : val) :
  readByte buffer s = Ok (v, s') -> 0 <= valInt32 v < 256.
Proof.
  unfold readByte. destruct (num_ge s _); [discriminate|].
  intros H. injection H as <- _. unfold index.
  destruct s as [z|]; [|cbn; lia].
  destruct (z <? 0); [cbn; lia|].
  destruct (buffer !! Z.to_nat z) as [b|]; cbn; [apply byteZ_range | lia].
Qed.

Lemma readWord_value (buffer : list byte) (s s' : num) (w : Z) :
  readWord buffer s = Ok (w, s') -> 0 <= w < 2 ^ 16.
Proof.
  unfold readWord. intros H.
  apply bind_Ok_inv in H. destruct H as (low & s1 & H1 & H).
  apply bind_Ok_inv in H. destruct H as (high & s2 & H2 & H).
  unfold ret in H. injection H as <- _.
  apply readByte_value in H1, H2.
  rewrite js_or_low_high by lia. lia.
Qed.

Local Tactic Notation "invert_bind" hyp(H) ident(a) ident(s) ident(Hm) :=
  apply bind_Ok_inv in H; destruct H as (a & s & Hm & H).

Local Tactic Notation "invert_if" hyp(H) ident(E) :=
  match type of H with
  | (if ?c then _ else _) _ = Ok _ => destruct c eqn:E; [discriminate H|]
  end.

Lemma readHeader_fields (buffer : list byte) (st st' : num) (f : LHAFile) :
  readHeader buffer st = Ok (Some f, st') ->
  (exists raw, filename f = sanitize raw)
  /\ (exists bytes, method f = strip_control (utf8_decode bytes))
  /\ startsWith (method f) (str "-lh") || startsWith (method f) (str "-lz")
     || str_eq (method f) (str "-lhd-") = true
  /\ 0 <= crc f < 2 ^ 16.
Proof.
  intros H. unfold readHeader in H.
  invert_bind H off0 s0 H0. invert_if H E0.
  invert_bind H headerSize s1 H1. invert_if H E1.
  invert_bind H checksum s2 H2.
  invert_bind H meth s3 H3. invert_if H E3.
  invert_bind H cs s4 H4.
  invert_bind H osz s5 H5. invert_if H E5.
  invert_bind H dosTime s6 H6.
  invert_bind H dosDate s7 H7.
  invert_bind H attributes s8 H8.
  invert_bind H level s9 H9.
  invert_bind H filenameLength s10 H10.
  invert_bind H fname s11 H11.
  invert_bind H crc16 s12 H12.
  invert_bind H os_ s13 H13.
  invert_bind H u s14 H14.
  invert_bind H off s15 H15. invert_if H E15.
  invert_bind H compressedData s16 H16.
  invert_bind H d s17 H17.
  unfold ret in H. injection H as Hf Hst. subst f st'.
  cbn [filename method crc].
  split; [exists fname; reflexivity|]. split; [|split].
  - unfold readString in H3.
    apply bind_Ok_inv in H3. destruct H3 as (bytes & sb & _ & H3).
    unfold ret in H3. injection H3 as <- _. eexists. reflexivity.
  - destruct (startsWith meth (str "-lh")); [reflexivity|].
    destruct (startsWith meth (str "-lz")); [reflexivity|].
    destruct (str_eq meth (str "-lhd-")); [reflexivity | discriminate E3].
  - exact (readWord_value _ _ _ _ H12).
Qed.

Lemma strip_control_clean (s : jsstring) :
  Forall (fun c => is_control c = false) (strip_control s).
Proof.
  unfold strip_control. apply Forall_forall. intros c Hc.
  apply list_elem_of_filter in Hc. exact (proj1 Hc).
Qed.

Lemma trimStart_Forall (P : Z -> Prop) (s : jsstring) :
  Forall P s -> Forall P (trimStart s).
Proof.
  intros H. induction H as [|c s Hc Hs IH]; [constructor|].
  cbn [trimStart]. destruct (is_space c); [exact IH | constructor; assumption].
Qed.

Lemma trimStart_head (s : jsstring) (c : Z) :
  head (trimStart s) = Some c -> is_space c = false.
Proof.
  induction s as [|d s IH]; [discriminate|].
  cbn [trimStart]. destruct (is_space d) eqn:E; [exact IH|].
  intros H. injection H as <-. exact E.
Qed.

Lemma trimStart_last (s : jsstring) :
  trimStart s <> [] -> last (trimStart s) = last s.
Proof.
  induction s as [|d s IH]; [contradiction|].
  cbn [trimStart]. destruct (is_space d); [|reflexivity].
  intros H. rewrite (IH H).
  destruct s as [|e s]; [contradiction|]. reflexivity.
Qed.

Lemma trim_clean (P : Z -> Prop) (s : jsstring) :
  Forall P s ->
  Forall P (trim s)
  /\ (forall c, head (trim s) = Some c -> is_space c = false)
  /\ (forall c, last (trim s) = Some c -> is_space c = false).
Proof.
  intros H. unfold trim. split; [|split].
  - apply Forall_reverse, trimStart_Forall, Forall_reverse, trimStart_Forall.
    exact H.
  - intros c Hc. rewrite head_reverse in Hc.
    destruct (trimStart (reverse (trimStart s))) eqn:E; [discriminate|].
    rewrite <- E in Hc. rewrite trimStart_last in Hc by (rewrite E; discriminate).
    rewrite last_reverse in Hc. exact (trimStart_head _ _ Hc).
  - intros c Hc. rewrite last_reverse in Hc. exact (trimStart_head _ _ Hc).
Qed.

Lemma sanitize_clean (raw : jsstring) :
  sanitize raw <> []
  /\ Forall (fun c => is_control c = false) (sanitize raw)
  /\ (forall c, head (sanitize raw) = Some c -> is_space c = false)
  /\ (forall c, last (sanitize raw) = Some c -> is_space c = false).
Proof.
  unfold sanitize. cbv zeta.
  destruct (trim_clean _ _ (strip_control_clean raw)) as (H1 & H2 & H3).
  destruct (trim (strip_control raw)) as [|c s] eqn:E.
  - split; [discriminate|]. split; [repeat constructor|].
    split; intros c Hc; injection Hc as <-; reflexivity.
  - split; [discriminate|]. auto.
Qed.

(** X10: the file name of every entry that [extractAll] returns is not
    empty, has no control character, and neither starts nor ends with
    white space. *)
Theorem entry_names (buffer : list byte) (fuel : nat) (files : list LHAFile) :
  extractAll buffer fuel = Some files ->
  Forall (fun f =>
            filename f <> []
            /\ Forall (fun c => is_control c = false) (filename f)
            /\ (forall c, head (filename f) = Some c -> is_space c = false)
            /\ (forall c, last (filename f) = Some c -> is_space c = false))
    files.
Proof.
  apply extractAll_Forall. intros st st' f H.
  destruct (readHeader_fields _ _ _ _ H) as ((raw & ->) & _).
  apply sanitize_clean.
Qed.

Lemma entry_names_witness :
  Forall (fun f =>
            filename f <> []
            /\ Forall (fun c => is_control c = false) (filename f)
            /\ (forall c, head (filename f) = Some c -> is_space c = false)
            /\ (forall c, last (filename f) = Some c -> is_space c = false))
    [{| filename := str "a"; originalSize := 0; compressedSize := 3;
        timestamp := dosDateTimeToDate 0 0; crc := 0;
        method := str "-lh0-"; os := Some 0;
        data := map toUint8 [7; 8; 9] |}].
Proof.
  exact (entry_names stored_archive 2 _ stored_archive_entries).
Defined.

(** X11: the method of every entry that [extractAll] returns starts with
    "-lh" or "-lz" and has no control character, and its CRC is a 16-bit
    value. *)
Theorem entry_methods (buffer : list byte) (fuel : nat)
    (files : list LHAFile) :
  extractAll buffer fuel = Some files ->
  Forall (fun f =>
            startsWith (method f) (str "-lh")
            || startsWith (method f) (str "-lz") = true
            /\ Forall (fun c => is_control c = false) (method f)
            /\ 0 <= crc f < 2 ^ 16) files.
Proof.
  apply extractAll_Forall. intros st st' f H.
  destruct (readHeader_fields _ _ _ _ H) as (_ & (bytes & Hm) & Hp & Hc).
  split; [|split; [rewrite Hm; apply strip_control_clean | exact Hc]].
  destruct (startsWith (method f) (str "-lh")) eqn:E1; [reflexivity|].
  destruct (startsWith (method f) (str "-lz")) eqn:E2; [reflexivity|].
  cbn [orb] in Hp. apply str_eq_true in Hp. rewrite Hp in E1.
  discriminate E1.
Qed.

Lemma entry_methods_witness :
  Forall (fun f =>
            startsWith (method f) (str "-lh")
            || startsWith (method f) (str "-lz") = true
            /\ Forall (fun c => is_control c = false) (method f)
            /\ 0 <= crc f < 2 ^ 16)
    [{| filename := str "a"; originalSize := 0; compressedSize := 3;
        timestamp := dosDateTimeToDate 0 0; crc := 0;
        method := str "-lh0-"; os := Some 0;
        data := map toUint8 [7; 8; 9] |}].
Proof.
  exact (entry_methods stored_archive 2 _ stored_archive_entries).
Defined.

End EntryFields.

(** ** The handler: extracting and archiving files *)

Section Handler.
Import LZHDecoder LZHHandler.

Lemma endsWith_slash (s : jsstring) :
  endsWith s (str "/") = true <-> last s = Some 0x2F.
Proof.
  unfold endsWith. change (reverse (str "/")) with [0x2F].
  rewrite <- head_reverse. destruct (reverse s) as [|d r].
  - split; discriminate.
  - cbn [startsWith head]. destruct (Z.eqb_spec 0x2F d) as [<- | Hd].
    + destruct r; split; reflexivity.
    + split; [discriminate|]. intros H. congruence.
Qed.

Lemma split_nonempty (sep : Z) (s : jsstring) : split sep s <> [].
Proof.
  destruct s as [|c s]; cbn; [discriminate|].
  destruct (c =? sep); [discriminate|].
  destruct (split sep s); discriminate.
Qed.

(** The last piece of [s.split(sep)] is the part of [s] after the last
    separator. *)
Lemma split_last (sep : Z) (s : jsstring) :
  exists pre seg,
    last (split sep s) = Some seg /\ s = pre ++ seg
    /\ Forall (fun c => c <> sep) seg
    /\ (pre = [] \/ last pre = Some sep).
Proof.
  induction s as [|c s IH].
  - exists [], []. repeat split; [constructor | left; reflexivity].
  - destruct IH as (pre & seg & Hl & Hs & Hseg & Hpre). cbn [split].
    destruct (c =? sep) eqn:E.
    + apply Z.eqb_eq in E. subst c.
      exists (sep :: pre), seg. split; [|split; [|split]].
      * destruct (split sep s) eqn:Es; [discriminate Hl | exact Hl].
      * rewrite Hs. reflexivity.
      * exact Hseg.
      * right. destruct Hpre as [-> | Hpre]; [reflexivity|].
        destruct pre; [discriminate | exact Hpre].
    + apply Z.eqb_neq in E.
      destruct (split sep s) as [|seg0 segs] eqn:Es; [discriminate Hl|].
      destruct segs as [|seg1 segs].
      * cbn in Hl. injection Hl as ->.
        destruct Hpre as [-> | Hpre].
        -- exists [], (c :: seg). cbn [app] in *. subst s.
           repeat split; [constructor; assumption | left; reflexivity].
        -- exfalso.
           (* a single piece has no separator before it *)
           clear - Es Hs Hpre.
           assert (Hno : forall t, split sep t = [seg] -> t = seg).
           { clear. intros t. revert seg.
             induction t as [|d t IH]; intros seg H; cbn in H.
             - injection H as <-. reflexivity.
             - destruct (d =? sep).
               + injection H as <- H. destruct (split_nonempty _ _ H).
               + destruct (split sep t) as [|g gs] eqn:Et.
                 * destruct (split_nonempty _ _ Et).
                 * injection H as <- ->. f_equal. apply IH. reflexivity. }
           apply Hno in Es. rewrite Es in Hs.
           assert (pre = []) as ->.
           { apply (f_equal length) in Hs. rewrite length_app in Hs.
             destruct pre; [reflexivity | cbn in Hs; lia]. }
           discriminate Hpre.
      * exists (c :: pre), seg. split; [|split; [|split]].
        -- exact Hl.
        -- rewrite Hs. reflexivity.
        -- exact Hseg.
        -- right. destruct Hpre as [-> | Hpre].
           ++ exfalso. cbn [app] in Hs. subst s.
              clear - Es Hl Hseg.
              (* a string without separator gives a single piece *)
              assert (Hone : forall t, Forall (fun c => c <> sep) t ->
                                       split sep t = [t]).
              { clear. intros t Ht. induction Ht as [|d t Hd Ht IH];
                  [reflexivity|].
                cbn [split]. apply Z.eqb_neq in Hd. rewrite Hd, IH.
                reflexivity. }
              rewrite (Hone _ Hseg) in Es. discriminate Es.
           ++ destruct pre; [discriminate | exact Hpre].
Qed.

Lemma split_plain (sep : Z) (s : jsstring) :
  Forall (fun c => c <> sep) s -> split sep s = [s].
Proof.
  intros H. induction H as [|d t Hd Ht IH]; [reflexivity|].
  cbn [split]. apply Z.eqb_neq in Hd. rewrite Hd, IH. reflexivity.
Qed.

Lemma replace_backslash_app (s : jsstring) (pre seg : jsstring) :
  replace_backslash s = pre ++ seg ->
  exists pre' seg',
    s = pre' ++ seg' /\ pre = replace_backslash pre'
    /\ seg = replace_backslash seg'.
Proof.
  unfold replace_backslash. intros H.
  apply map_eq_app in H. destruct H as (a & b & -> & <- & <-).
  exists a, b. repeat split.
Qed.

Lemma replace_backslash_plain (s : jsstring) :
  Forall (fun c => c <> 0x2F) (replace_backslash s) ->
  no_separator s /\ replace_backslash s = s.
Proof.
  unfold replace_backslash, no_separator.
  induction s as [|c s IH]; intros H; [split; [constructor | reflexivity]|].
  cbn [map] in H. apply Forall_cons in H. destruct H as [Hc Hs].
  destruct (IH Hs) as [IH1 IH2].
  destruct (c =? 0x5C) eqn:E; [contradiction Hc; reflexivity|].
  split.
  - apply Z.eqb_neq in E. constructor; [split; assumption | exact IH1].
  - cbn [map]. rewrite E, IH2. reflexivity.
Qed.

Lemma replace_backslash_last (s : jsstring) :
  last (replace_backslash s) = Some 0x2F ->
  last s = Some 0x2F \/ last s = Some 0x5C.
Proof.
  unfold replace_backslash.
  change (map ?f s) with (f <$> s). rewrite fmap_last.
  destruct (last s) as [c|]; [|discriminate]. cbn.
  destruct (c =? 0x5C) eqn:E.
  - apply Z.eqb_eq in E. subst c. right. reflexivity.
  - intros H. left. exact H.
Qed.

(** The name under which an entry is written out. *)
Lemma outputName_cases (file : LHAFile) :
  filename file <> [] ->
  isDirectory file = false ->
  outputName file <> []
  /\ (exists pre, filename file = pre ++ outputName file)
  /\ (no_separator (outputName file)
      \/ outputName file = filename file
         /\ last (filename file) = Some 0x5C).
Proof.
  intros Hne Hdir. unfold outputName.
  destruct (split_last 0x2F (replace_backslash (filename file)))
    as (pre & seg & -> & Hs & Hseg & Hpre).
  destruct (replace_backslash_app _ _ _ Hs) as (pre' & seg' & Hf & Hp & Hg).
  destruct seg as [|c seg].
  - split; [exact Hne|]. split; [exists []; reflexivity|]. right.
    split; [reflexivity|].
    rewrite app_nil_r in Hs.
    destruct Hpre as [-> | Hpre].
    + destruct (filename file); [contradiction | discriminate Hs].
    + rewrite <- Hs in Hpre.
      destruct (replace_backslash_last _ Hpre) as [H | H]; [|exact H].
      apply endsWith_slash in H. unfold isDirectory in Hdir.
      rewrite H, orb_true_r in Hdir. discriminate Hdir.
  - rewrite Hg in Hseg. destruct (replace_backslash_plain _ Hseg) as [Hno Hid].
    rewrite Hid in Hg. subst seg'. split; [discriminate|].
    split; [exists pre'; exact Hf|]. left. exact Hno.
Qed.

Lemma extractFiles_Forall (P : FileData -> Prop) (fuel : nat) :
  (forall buffer files,
      extractAll buffer fuel = Some files ->
      Forall P (extractedOutput files)) ->
  forall inputFiles outputFiles result,
    Forall P outputFiles ->
    extractFiles fuel inputFiles outputFiles = Some result ->
    Forall P result.
Proof.
  intros HP inputFiles.
  induction inputFiles as [|f inputFiles IH]; intros outputFiles result Ho H.
  - cbn in H. injection H as <-. exact Ho.
  - cbn [extractFiles] in H.
    destruct (extractAll (bytes f) fuel) as [files|] eqn:E; [|discriminate H].
    apply (IH _ _ (Forall_app_2 _ _ _ Ho (HP _ _ E)) H).
Qed.

Lemma extractAll_names (buffer : list byte) (fuel : nat)
    (files : list LHAFile) :
  extractAll buffer fuel = Some files ->
  Forall (fun f => filename f <> []
                   /\ Forall (fun c => is_control c = false) (filename f))
    files.
Proof.
  apply extractAll_Forall. intros st st' f H.
  destruct (readHeader_fields _ _ _ _ H) as ((raw & ->) & _).
  destruct (sanitize_clean raw) as (H1 & H2 & _). split; assumption.
Qed.

(** X12: every file that the handler extracts from archives has a name
    that is not empty and has no control character; the name has no path
    separator, unless it ends with a backslash. *)
Theorem extractFiles_names (fuel : nat) (inputFiles result : list FileData) :
  extractFiles fuel inputFiles [] = Some result ->
  Forall (fun f =>
            name f <> []
            /\ Forall (fun c => is_control c = false) (name f)
            /\ (no_separator (name f) \/ last (name f) = Some 0x5C))
    result.
Proof.
  apply extractFiles_Forall; [|constructor].
  intros buffer files H. apply extractAll_names in H.
  unfold extractedOutput. apply Forall_map.
  apply Forall_forall. intros f Hf.
  apply list_elem_of_filter in Hf. destruct Hf as [Hdir Hf].
  rewrite Forall_forall in H. destruct (H f Hf) as [Hne Hctl].
  destruct (outputName_cases f Hne Hdir) as (H1 & (pre & H2) & H3).
  cbn [name]. split; [exact H1|]. split.
  - rewrite H2 in Hctl. apply Forall_app in Hctl. exact (proj2 Hctl).
  - destruct H3 as [H3 | [H3 H4]]; [left; exact H3|].
    right. rewrite H3. exact H4.
Qed.

End Handler.
Section HandlerRoundTrip.
Import LZHDecoder LZHHandler.

Lemma extractFiles_names_witness :
  Forall (fun f =>
            name f <> []
            /\ Forall (fun c => is_control c = false) (name f)
            /\ (no_separator (name f) \/ last (name f) = Some 0x5C))
    [{| name := str "a"; bytes := map toUint8 [7; 8; 9] |}].
Proof.
  apply (extractFiles_names 2
           [{| name := str "files.lzh"; bytes := stored_archive |}]).
  vm_compute. reflexivity.
Defined.

Lemma no_separator_replace (s : jsstring) :
  no_separator s -> replace_backslash s = s.
Proof.
  unfold replace_backslash. intros H.
  induction H as [|c s [_ Hc] Hs IH]; [reflexivity|].
  cbn [map]. apply Z.eqb_neq in Hc. rewrite Hc, IH. reflexivity.
Qed.

Lemma no_separator_slash (s : jsstring) :
  no_separator s -> Forall (fun c => c <> 0x2F) s.
Proof.
  intros H. apply (Forall_impl _ _ _ H). intros c [Hc _]. exact Hc.
Qed.

Lemma plain_outputName (file : LHAFile) :
  filename file <> [] -> no_separator (filename file) ->
  outputName file = filename file.
Proof.
  intros Hne Hno. unfold outputName.
  rewrite (no_separator_replace _ Hno).
  rewrite (split_plain _ _ (no_separator_slash _ Hno)). cbn [last].
  destruct (filename file); reflexivity.
Qed.

Lemma plain_isDirectory (file : LHAFile) :
  method file = str "-lh0-" -> no_separator (filename file) ->
  isDirectory file = false.
Proof.
  intros Hm Hno. unfold isDirectory. rewrite Hm.
  change (str_eq (str "-lh0-") (str "-lhd-")) with false. cbn [orb].
  destruct (endsWith (filename file) (str "/")) eqn:E; [|reflexivity].
  apply endsWith_slash in E. apply last_Some in E. destruct E as (l & E).
  rewrite E in Hno. apply Forall_app in Hno. destruct Hno as [_ Hno].
  apply Forall_inv in Hno. destruct Hno as [Hno _]. contradiction.
Qed.

(** The inputs that the handler passes to the encoder. *)
Lemma archived_inputs (clock : nat -> Date) (now : Date)
    (inputFiles : list FileData) :
  Forall plain_file inputFiles ->
  let filesToArchive :=
    imap (fun i inputFile =>
            {| LZHEncoder.filename := name inputFile;
               LZHEncoder.data := bytes inputFile;
               LZHEncoder.timestamp := Some (clock i) |}) inputFiles in
  Forall roundtrip_input filesToArchive
  /\ extractedOutput (map (decoded_entry now) filesToArchive) = inputFiles.
Proof.
  intros H. revert clock.
  induction H as [|f l (Hn & Hs & Hd) Hl IH]; intros clock filesToArchive.
  - split; [constructor | reflexivity].
  - subst filesToArchive. cbn [imap].
    destruct (IH (clock ∘ S)) as [IH1 IH2]. split.
    + constructor; [split; assumption | exact IH1].
    + cbn [map]. unfold extractedOutput.
      rewrite filter_cons_True
        by (apply plain_isDirectory; [reflexivity | exact Hs]).
      cbn [map]. f_equal.
      * rewrite plain_outputName; [destruct f; reflexivity | | exact Hs].
        exact (proj1 Hn).
      * exact IH2.
Qed.

(** X13: archiving files and extracting the archive again gives back the
    files, with their names and bytes, when the names are well formed and
    have no path separator and each file has at most 100 MiB. *)
Theorem extractFiles_archiveFiles (clock : nat -> Date)
    (extension : jsstring) (inputFiles : list FileData) (fuel : nat) :
  Forall plain_file inputFiles ->
  (length inputFiles < fuel)%nat ->
  extractFiles fuel (archiveFiles clock extension inputFiles) []
  = Some inputFiles.
Proof.
  intros Hfiles Hfuel. unfold archiveFiles. cbv zeta.
  cbn [extractFiles bytes].
  set (now := clock (length inputFiles)).
  destruct (archived_inputs clock now inputFiles Hfiles) as [Hin Hout].
  unfold extractAll.
  rewrite (extractAll_loop_encoded now _ _ Hin fuel 0 []).
  - cbn [app]. rewrite Hout. reflexivity.
  - rewrite create_layout. split; [|reflexivity].
    match goal with |- 0 <= 0 <= len ?l => pose proof (len_nonneg l) end.
    lia.
  - rewrite length_imap. exact Hfuel.
Qed.

Lemma extractFiles_archiveFiles_witness :
  extractFiles 2
    (archiveFiles (fun _ => epoch) (str "lzh")
       [{| name := str "a.txt"; bytes := [x41; x42] |}]) []
  = Some [{| name := str "a.txt"; bytes := [x41; x42] |}].
Proof.
  apply (extractFiles_archiveFiles (fun _ => epoch) (str "lzh")
           [{| name := str "a.txt"; bytes := [x41; x42] |}] 2).
  - apply Forall_singleton. split; [|split].
    + exact (proj1 sample_input_ok).
    + repeat constructor; discriminate.
    + vm_compute. discriminate.
  - cbn [length]. lia.
Defined.

End HandlerRoundTrip.

(** ** The bytes that the encoder writes *)

Section EncoderLayout.
Import LZHEncoder.

Lemma toUint8_mod (z : Z) : toUint8 (z mod 256) = toUint8 z.
Proof. unfold toUint8. rewrite Z.mod_mod by lia. reflexivity. Qed.

(** X14: a header is its length minus two (modulo 256), the sum of the
    following bytes (modulo 256), and then the fields in wire order:
    method, both sizes, time, date, attribute, level, name length, name
    and CRC; it has 24 bytes and the bytes of the name, of which at most
    255 are kept. *)
Theorem fileHeader_bytes (now : Date) (file : LHAFileInput) :
  fileHeader now file
  = toUint8 (22 + len (stored_name file))
    :: toUint8 (sum_bytes (header_fields now file))
    :: header_fields now file
  /\ len (fileHeader now file)
     = 24 + Z.min (len (utf8_encode (filename file))) 255.
Proof.
  destruct (header_layout now file) as (ck & Hh & Hck).
  pose proof (len_header_fields now file) as Hlen.
  pose proof (len_nonneg (stored_name file)) as H0.
  rewrite Hh. split; [|rewrite !len_cons, Hlen, len_stored_name; lia].
  f_equal. f_equal. rewrite Hck.
  rewrite calculateHeaderChecksum_sum by (rewrite ?len_cons; lia).
  change (Z.to_nat 2) with 2%nat. cbn [skipn]. rewrite ?drop_0.
  rewrite take_ge by (unfold len in *; lia).
  apply toUint8_mod.
Qed.

(** X15: the archive is, for each input in order, its header followed by
    its data, and then one zero byte; its length is one more than the
    lengths of the headers and of the data. *)
Theorem create_blocks (now : Date) (files : list LHAFileInput) :
  create now files
  = concat (map (fun f => fileHeader now f ++ data f) files) ++ [x00]
  /\ len (create now files)
     = 1 + fold_right
             (fun f total =>
                24 + Z.min (len (utf8_encode (filename f))) 255
                + len (data f) + total) 0 files.
Proof.
  rewrite create_layout. split; [reflexivity|].
  rewrite len_app, len_cons, len_nil.
  induction files as [|f files IH]; [reflexivity|].
  cbn [map concat fold_right]. unfold entry_block at 1.
  rewrite !len_app.
  destruct (header_layout now f) as (ck & Hh & _).
  rewrite Hh, !len_cons, len_header_fields, len_stored_name. lia.
Qed.

End EncoderLayout.

(** ** Timestamps through an archive *)

Section ArchiveTimestamps.
Import LZHDecoder.

(** The timestamp that an archive keeps of [d], when the year of [d] is
    one that the packed date can hold: the fields of [d], with the
    seconds rounded down to an even number. *)
Lemma stored_timestamp (d : Date) :
  valid_fields d ->
  1980 <= getFullYear d <= 2107 ->
  dosDateTimeToDate (stored_word (fst (LZHEncoder.dateToDosTime d)))
    (stored_word (snd (LZHEncoder.dateToDosTime d)))
  = {| year := getFullYear d; month := getMonth d; day := getDate d;
       hour := getHours d; minute := getMinutes d;
       second := 2 * (getSeconds d / 2) |}.
Proof.
  intros (Hmo & Hd & Hh & Hmi & Hs) Hy.
  unfold LZHEncoder.dateToDosTime. cbn [fst snd].
  rewrite Z.max_r, Z.min_r by lia.
  assert (Hs2 : 0 <= getSeconds d / 2 <= 29)
    by (Z.div_mod_to_equations; lia).
  rewrite dosDate_fields, dosTime_fields by lia.
  rewrite !stored_word_small by lia.
  rewrite dosDateTime_unpack by lia.
  f_equal; lia.
Qed.

(** X16: for inputs whose timestamps (the clock if an input has none)
    have a year in [1980, 2107], decoding the archive that the encoder
    produces constructs the timestamp of every entry from the fields of
    the timestamp of its input, with the seconds rounded down to an even
    number: the same local time, to two seconds. *)
Theorem extractAll_create_timestamps (now : Date)
    (files : list LZHEncoder.LHAFileInput) (fuel : nat) :
  Forall roundtrip_input files ->
  Forall (fun f =>
            valid_fields (default now (LZHEncoder.timestamp f))
            /\ 1980 <= getFullYear (default now (LZHEncoder.timestamp f))
               <= 2107) files ->
  (length files < fuel)%nat ->
  exists entries,
    extractAll (LZHEncoder.create now files) fuel = Some entries
    /\ Forall2 (fun e f =>
                  let d := default now (LZHEncoder.timestamp f) in
                  timestamp e
                  = {| year := getFullYear d; month := getMonth d;
                       day := getDate d; hour := getHours d;
                       minute := getMinutes d;
                       second := 2 * (getSeconds d / 2) |})
         entries files.
Proof.
  intros Hfiles Hvalid Hfuel.
  exists (map (decoded_entry now) files). split.
  - unfold extractAll.
    rewrite (extractAll_loop_encoded now _ files Hfiles fuel 0 []);
      [reflexivity | | exact Hfuel].
    rewrite create_layout. split; [|reflexivity].
    pose proof (len_nonneg (concat (map (entry_block now) files) ++ [x00])).
    lia.
  - clear Hfiles Hfuel.
    induction Hvalid as [|f files [Hf Hy] Hv IH]; constructor; [|exact IH].
    cbv zeta. unfold decoded_entry. cbn [timestamp].
    apply stored_timestamp; assumption.
Qed.

Lemma extractAll_create_timestamps_witness :
  exists entries,
    extractAll (LZHEncoder.create epoch [sample_input]) 2 = Some entries
    /\ Forall2 (fun e f =>
                  let d := default epoch (LZHEncoder.timestamp f) in
                  timestamp e
                  = {| year := getFullYear d; month := getMonth d;
                       day := getDate d; hour := getHours d;
                       minute := getMinutes d;
                       second := 2 * (getSeconds d / 2) |})
         entries [sample_input].
Proof.
  apply (extractAll_create_timestamps epoch [sample_input] 2).
  - apply Forall_singleton. exact sample_input_ok.
  - apply Forall_singleton. vm_compute. repeat split; discriminate.
  - cbn [length]. lia.
Defined.

End ArchiveTimestamps.

(** ** The CRC of data followed by its CRC *)

Section CRCResidue.
Import LZHEncoder.

Lemma calculateCRC16_fold (data : list byte) :
  calculateCRC16 data = fold_left crc16_reference_byte data 0.
Proof.
  unfold calculateCRC16, js_and.
  rewrite (toInt32_small 0xFFFF) by lia.
  rewrite land_FFFF, (toInt32_mod _ 16) by lia.
  rewrite crc_fold_mod16. reflexivity.
Qed.

Lemma testbit15_small (x : Z) : 0 <= x < 2 ^ 15 -> Z.testbit x 15 = false.
Proof.
  intros H. apply Z.testbit_false; [lia|].
  rewrite Z.div_small by lia. reflexivity.
Qed.

(** Rounds on a value with its high bits clear only shift. *)
Lemma crc16_reference_shift (k : nat) (x : Z) :
  0 <= x -> x * 2 ^ Z.of_nat k < 2 ^ 16 ->
  Nat.iter k crc16_reference_round x = x * 2 ^ Z.of_nat k.
Proof.
  intros Hx. induction k as [|k IH]; intros Hk.
  - change (x = x * 1). lia.
  - change (Nat.iter (S k) crc16_reference_round x)
      with (crc16_reference_round (Nat.iter k crc16_reference_round x)).
    rewrite Nat2Z.inj_succ, Z.pow_succ_r in * by lia.
    pose proof (Z.pow_pos_nonneg 2 (Z.of_nat k) ltac:(lia) ltac:(lia)) as Hp.
    rewrite IH by nia.
    unfold crc16_reference_round.
    rewrite testbit15_small by (change (2 ^ 16) with (2 * 2 ^ 15) in Hk; nia).
    rewrite land_FFFF, Z.shiftl_mul_pow2 by lia.
    rewrite Z.mod_small by nia. change (2 ^ 1) with 2. lia.
Qed.

Lemma lxor_high (hi lo : Z) :
  0 <= lo < 2 ^ 8 -> Z.lxor (hi * 2 ^ 8 + lo) (hi * 2 ^ 8) = lo.
Proof.
  intros Hlo.
  rewrite (Z.add_nocarry_lxor (hi * 2 ^ 8) lo)
    by (apply land_shiftl_low; lia).
  rewrite Z.lxor_comm, <- Z.lxor_assoc, Z.lxor_nilpotent, Z.lxor_0_l.
  reflexivity.
Qed.

Lemma crc16_reference_residue (c : Z) :
  0 <= c < 2 ^ 16 ->
  crc16_reference_byte
    (crc16_reference_byte c (toUint8 (c / 256))) (toUint8 (c mod 256)) = 0.
Proof.
  intros Hc. unfold crc16_reference_byte.
  rewrite !byteZ_toUint8_small by (Z.div_mod_to_equations; lia).
  rewrite !Z.shiftl_mul_pow2 by lia.
  assert (Hl : 0 <= c mod 256 < 2 ^ 8) by (apply Z.mod_pos_bound; lia).
  rewrite (Z.div_mod c 256) at 1 by lia.
  rewrite (Z.mul_comm 256). change 256 with (2 ^ 8) at 2.
  rewrite lxor_high by exact Hl.
  rewrite (crc16_reference_shift 8 (c mod 256))
    by (change (Z.of_nat 8) with 8; lia).
  change (Z.of_nat 8) with 8.
  rewrite Z.lxor_nilpotent. vm_compute. reflexivity.
Qed.

(** X17: the CRC-16 of any data followed by its own CRC-16, high byte
    first, is 0. *)
Theorem calculateCRC16_residue (data : list byte) :
  calculateCRC16
    (data ++ [toUint8 (calculateCRC16 data / 256);
              toUint8 (calculateCRC16 data mod 256)]) = 0.
Proof.
  rewrite (calculateCRC16_fold (data ++ _)), fold_left_app.
  cbn [fold_left]. rewrite <- calculateCRC16_fold.
  apply crc16_reference_residue, calculateCRC16_range.
Qed.

End CRCResidue.

(** ** The match loop of LH1 *)

Section LH1MatchLoop.
Import LZHDecoder.

(** The byte that a match reads from the dictionary. *)
Local Abbreviation match_byte s position :=
  (toUint8 (valInt32 (index (dictionary s) (Int position)))).

Lemma index_insert_same (d : list byte) (i position : Z) :
  toUint8 (valInt32
             (index (<[Z.to_nat i :=
                        toUint8 (valInt32 (index d (Int position)))]> d)
                (Int position)))
  = toUint8 (valInt32 (index d (Int position))).
Proof.
  unfold index. destruct (position <? 0) eqn:E; [reflexivity|].
  destruct (decide (Z.to_nat i = Z.to_nat position)) as [Heq | Hne].
  - rewrite Heq. destruct (d !! Z.to_nat position) as [b|] eqn:Hb.
    + rewrite list_lookup_insert_eq by (apply lookup_lt_Some in Hb; exact Hb).
      cbn. rewrite !toUint8_byteZ. reflexivity.
    + rewrite list_insert_ge by (apply lookup_ge_None in Hb; exact Hb).
      rewrite Hb. reflexivity.
  - rewrite list_lookup_insert_ne by exact Hne. reflexivity.
Qed.

Lemma lh1_copy_below (n : nat) (originalSize position : Z) (s : lh1_state)
    (i : nat) :
  0 <= outPos s -> (i < Z.to_nat (outPos s))%nat ->
  output (lh1_copy n originalSize position s) !! i = output s !! i.
Proof.
  revert s. induction n as [|n IH]; intros s H0 Hi; [reflexivity|].
  cbn [lh1_copy]. destruct (outPos s <? originalSize); [|reflexivity].
  cbv zeta. rewrite IH by (cbn [lh1_emit outPos]; lia).
  cbn [lh1_emit output]. apply list_lookup_insert_ne. lia.
Qed.

(** X18: a match of LH1 writes the byte that the dictionary holds at the
    position of the match, again and again: all the bytes that it adds to
    the output are that one byte, and it adds as many as its length, or
    as the output has room for. *)
Theorem lh1_copy_repeats (n : nat) (originalSize position : Z)
    (s : lh1_state) :
  0 <= outPos s <= originalSize ->
  originalSize <= len (output s) ->
  outPos (lh1_copy n originalSize position s)
  = Z.min (outPos s + Z.of_nat n) originalSize
  /\ forall i,
       outPos s <= i < outPos (lh1_copy n originalSize position s) ->
       output (lh1_copy n originalSize position s) !! Z.to_nat i
       = Some (match_byte s position).
Proof.
  revert s. induction n as [|n IH]; intros s Hpos Hlen.
  - cbn [lh1_copy]. split; [lia|]. intros i Hi. lia.
  - cbn [lh1_copy]. destruct (outPos s <? originalSize) eqn:E.
    + cbv zeta.
      set (s1 := lh1_emit (valInt32 (index (dictionary s) (Int position))) s).
      assert (Hout : outPos s1 = outPos s + 1) by reflexivity.
      assert (Hlen1 : len (output s1) = len (output s))
        by (cbn [s1 lh1_emit output]; apply len_insert).
      assert (Hb : match_byte s1 position = match_byte s position)
        by (cbn [s1 lh1_emit dictionary]; apply index_insert_same).
      destruct (IH s1 ltac:(lia) ltac:(lia)) as [IH1 IH2].
      split; [lia|]. intros i Hi.
      destruct (Z.eq_dec i (outPos s)) as [-> | Hne].
      * rewrite lh1_copy_below by lia.
        cbn [s1 lh1_emit output].
        apply list_lookup_insert_eq. unfold len in Hlen. lia.
      * rewrite <- Hb. apply IH2. lia.
    + split; [lia|]. intros i Hi. lia.
Qed.

Lemma lh1_copy_repeats_witness :
  outPos (lh1_copy 3 6 0 (lh1_start 6)) = Z.min (0 + 3) 6
  /\ forall i,
       0 <= i < outPos (lh1_copy 3 6 0 (lh1_start 6)) ->
       output (lh1_copy 3 6 0 (lh1_start 6)) !! Z.to_nat i
       = Some (toUint8 (valInt32 (index (dictionary (lh1_start 6)) (Int 0)))).
Proof.
  apply (lh1_copy_repeats 3 6 0 (lh1_start 6)).
  - cbn [lh1_start outPos]. lia.
  - vm_compute. discriminate.
Defined.

End LH1MatchLoop.

(** ** The extended headers of a level 1 header *)

Section ExtendedHeaders.
Import LZHDecoder.

Lemma word_bytes_read (buffer : list byte) (o v : Z) (rest : list byte) :
  0 <= v < 2 ^ 16 ->
  at_cursor buffer o (word_bytes v ++ rest) ->
  readWord buffer (Int o) = Ok (v, Int (o + 2)).
Proof.
  intros Hv H. unfold word_bytes in H. cbn [app] in H.
  rewrite (readWord_at _ _ _ _ _ H).
  fold (stored_word v). rewrite stored_word_small by exact Hv. reflexivity.
Qed.

(** X19: over a chain of extended headers, each a two-byte size that
    counts itself followed by its data, and a closing size of zero, the
    loop stops behind the closing size. *)
Theorem skipExtendedHeaders_chain (buffer : list byte)
    (exts : list (list byte)) (rest : list byte) :
  Forall (fun e => len e + 2 < 2 ^ 16) exts ->
  forall (fuel : nat) (o : Z),
    (length exts < fuel)%nat ->
    at_cursor buffer o
      (concat (map (fun e => word_bytes (len e + 2) ++ e) exts)
       ++ x00 :: x00 :: rest) ->
    skipExtendedHeaders buffer fuel (Int o)
    = Ok (tt, Int (o + len (concat (map (fun e => word_bytes (len e + 2) ++ e)
                                      exts)) + 2)).
Proof.
  intros Hexts. induction Hexts as [|e exts He Hes IH]; intros fuel o Hfuel H.
  - destruct fuel as [|fuel]; [cbn in Hfuel; lia|].
    cbn [map concat app] in *. cbn [skipExtendedHeaders].
    rewrite (bind_Ok _ _ _ _ _ (readWord_at _ _ _ _ _ H)).
    change (byteZ x00 + byteZ x00 * 2 ^ 8 =? 0) with true. cbv iota.
    unfold ret. rewrite len_nil. do 3 f_equal. lia.
  - destruct fuel as [|fuel]; [cbn in Hfuel; lia|].
    cbn [map concat] in *. rewrite <- !app_assoc in H.
    pose proof (len_nonneg e) as He0.
    cbn [skipExtendedHeaders].
    rewrite (bind_Ok _ _ _ _ _
               (word_bytes_read buffer o (len e + 2) _ ltac:(lia) H)).
    destruct (len e + 2 =? 0) eqn:E; [lia|].
    apply (at_cursor_app _ _ (word_bytes (len e + 2))) in H.
    change (len (word_bytes (len e + 2))) with 2 in H.
    replace (len e + 2 - 2) with (len e) by lia.
    rewrite (bind_Ok _ _ _ _ _ (readBytes_at _ _ _ _ H)).
    apply at_cursor_app in H.
    rewrite (IH fuel _ ltac:(cbn [length] in Hfuel; lia) H).
    rewrite !len_app. change (len (word_bytes (len e + 2))) with 2.
    do 3 f_equal. lia.
Qed.

Lemma skipExtendedHeaders_chain_witness :
  skipExtendedHeaders (map toUint8 [5; 0; 1; 2; 3; 0; 0; 9]) 2 (Int 0)
  = Ok (tt, Int (0 + len (concat
                            (map (fun e => word_bytes (len e + 2) ++ e)
                               [map toUint8 [1; 2; 3]])) + 2)).
Proof.
  apply (skipExtendedHeaders_chain (map toUint8 [5; 0; 1; 2; 3; 0; 0; 9])
           [map toUint8 [1; 2; 3]] [toUint8 9]).
  - apply Forall_singleton. vm_compute. reflexivity.
  - cbn [length]. lia.
  - split; [vm_compute; split; discriminate | vm_compute; reflexivity].
Defined.

End ExtendedHeaders.

(** ** LH5 streams of literals *)

Section LH5Literals.
Import LZHDecoder.

Variable originalSize : Z.

Local Abbreviation literal_state := (lh5_literal_state originalSize).

Lemma index_after (pre : list byte) (b : byte) (post : list byte) :
  index (pre ++ b :: post) (Int (len pre)) = Some (byteZ b).
Proof.
  unfold index, len.
  destruct (Z.ltb_spec (Z.of_nat (length pre)) 0) as [E | E]; [lia|].
  rewrite Nat2Z.id, list_lookup_middle by reflexivity. reflexivity.
Qed.

Lemma literal_flag (bit : Z) :
  0 <= bit < 8 -> (js_and 255 (js_shl 1 bit) =? 0) = false.
Proof.
  intros H.
  assert (C : bit = 0 \/ bit = 1 \/ bit = 2 \/ bit = 3 \/ bit = 4
              \/ bit = 5 \/ bit = 6 \/ bit = 7) by lia.
  repeat (destruct C as [-> | C]; [vm_compute; reflexivity|]).
  subst bit. vm_compute. reflexivity.
Qed.

Lemma literal_state_emit (pre done : list byte) (b : byte) (s : lh5_state) :
  len done < originalSize ->
  literal_state pre done s ->
  literal_state (pre ++ [b]) (done ++ [b])
    (lh5_emit (byteZ b) (lh5_skip 1 s)).
Proof.
  intros Hlt (Hin & Hout & Ho). unfold lh5_literal_state.
  cbn [lh5_emit lh5_skip inPos5 outPos5 output5].
  rewrite !len_app, len_cons, len_nil, Hin, Hout, Ho.
  split; [lia|]. split; [lia|].
  replace (originalSize - len done) with (1 + (originalSize - len done - 1))
    by lia.
  pose proof (len_nonneg done).
  rewrite zeros_add by lia. change (zeros 1) with [x00]. cbn [app].
  replace (Z.to_nat (len done)) with (length done + 0)%nat
    by (unfold len; lia).
  rewrite insert_after, insert_cons_0, toUint8_byteZ, <- app_assoc.
  cbn [app]. do 2 f_equal. f_equal. lia.
Qed.

Lemma lh5_bits_literals (compressed : list byte) (lits : list byte) :
  forall (bit : Z) (pre post done : list byte) (s : lh5_state),
    0 <= bit -> bit + len lits <= 8 ->
    compressed = pre ++ lits ++ post ->
    len done + len lits <= originalSize ->
    literal_state pre done s ->
    literal_state (pre ++ lits) (done ++ lits)
      (lh5_bits (length lits) compressed originalSize 255 bit s).
Proof.
  induction lits as [|b lits IH]; intros bit pre post done s Hb Hb8 Hc Hn Hs.
  - cbn [length lh5_bits]. rewrite !app_nil_r. exact Hs.
  - rewrite len_cons in Hb8, Hn. pose proof (len_nonneg lits) as Hl.
    pose proof Hs as (Hin & Hout & Ho).
    cbn [length lh5_bits].
    assert (Hc1 : (outPos5 s <? originalSize) = true)
      by (apply Z.ltb_lt; lia).
    assert (Hc2 : (inPos5 s <? len compressed) = true).
    { apply Z.ltb_lt. rewrite Hc, Hin, !len_app, len_cons.
      pose proof (len_nonneg post). lia. }
    rewrite Hc1, Hc2. cbn [andb].
    rewrite literal_flag by lia. cbn [negb]. cbv zeta.
    assert (Hi : index compressed (Int (len pre)) = Some (byteZ b))
      by (rewrite Hc; cbn [app]; apply index_after).
    rewrite Hin, Hi. cbn [valInt32].
    replace (pre ++ b :: lits) with ((pre ++ [b]) ++ lits)
      by (rewrite <- app_assoc; reflexivity).
    replace (done ++ b :: lits) with ((done ++ [b]) ++ lits)
      by (rewrite <- app_assoc; reflexivity).
    apply (IH (bit + 1) (pre ++ [b]) post (done ++ [b])).
    + lia.
    + lia.
    + rewrite Hc, <- app_assoc. reflexivity.
    + rewrite len_app, len_cons, len_nil. lia.
    + apply literal_state_emit; [lia | exact Hs].
Qed.

Lemma lh5_group_literals (compressed : list byte) (g : list byte)
    (pre post done : list byte) (s : lh5_state) :
  length g = 8%nat ->
  compressed = pre ++ (xff :: g) ++ post ->
  len done + 8 <= originalSize ->
  literal_state pre done s ->
  literal_state (pre ++ xff :: g) (done ++ g)
    (lh5_group compressed originalSize s).
Proof.
  intros Hg Hc Hn (Hin & Hout & Ho). unfold lh5_group. cbv zeta.
  assert (Hi : index compressed (Int (len pre)) = Some (byteZ xff))
    by (rewrite Hc; cbn [app]; apply index_after).
  rewrite Hin, Hi. cbn [valInt32]. change (byteZ xff) with 255.
  replace (pre ++ xff :: g) with ((pre ++ [xff]) ++ g)
    by (rewrite <- app_assoc; reflexivity).
  rewrite <- Hg.
  apply (lh5_bits_literals compressed g 0 (pre ++ [xff]) post done).
  - lia.
  - unfold len. lia.
  - rewrite Hc, <- app_assoc. reflexivity.
  - unfold len in *. lia.
  - unfold lh5_literal_state. cbn [lh5_skip inPos5 outPos5 output5].
    rewrite len_app, len_cons, len_nil. repeat split; [lia | | ]; assumption.
Qed.

Lemma lh5_loop_literals (compressed : list byte) (groups : list (list byte)) :
  Forall (fun g => length g = 8%nat) groups ->
  forall (fuel : nat) (pre done : list byte) (s : lh5_state),
    (length groups <= fuel)%nat ->
    compressed = pre ++ concat (map (cons xff) groups) ->
    len done + 8 * len groups <= originalSize ->
    literal_state pre done s ->
    exists s',
      lh5_loop fuel compressed originalSize s = Some s'
      /\ literal_state compressed (done ++ concat groups) s'.
Proof.
  intros Hg. induction Hg as [|g groups Hg8 Hgs IH];
    intros fuel pre done s Hfuel Hc Hn Hs.
  - cbn [map concat] in *. rewrite app_nil_r in *. subst pre.
    exists s. split; [|exact Hs].
    destruct Hs as (Hin & _).
    assert (E : (inPos5 s <? len compressed) = false)
      by (apply Z.ltb_ge; lia).
    destruct fuel; cbn [lh5_loop]; rewrite E, andb_false_r; reflexivity.
  - rewrite len_cons in Hn. pose proof (len_nonneg groups) as Hl.
    cbn [map concat] in Hc.
    destruct fuel as [|fuel]; [cbn in Hfuel; lia|].
    pose proof Hs as (Hin & Hout & _).
    cbn [lh5_loop].
    assert (Hc1 : (outPos5 s <? originalSize) = true)
      by (apply Z.ltb_lt; lia).
    assert (Hc2 : (inPos5 s <? len compressed) = true).
    { apply Z.ltb_lt. rewrite Hc, Hin, !len_app, len_cons.
      pose proof (len_nonneg g).
      pose proof (len_nonneg (concat (map (cons xff) groups))). lia. }
    rewrite Hc1, Hc2. cbn [andb].
    pose proof (lh5_group_literals compressed g pre
                  (concat (map (cons xff) groups)) done s Hg8 Hc
                  ltac:(lia) Hs) as Hs1.
    destruct (IH fuel (pre ++ xff :: g) (done ++ g)
                (lh5_group compressed originalSize s)
                ltac:(cbn [length] in Hfuel; lia)) as (s' & Hloop & Hs');
      [ rewrite Hc, <- app_assoc; reflexivity
      | rewrite len_app; unfold len at 2; rewrite Hg8; lia
      | exact Hs1 |].
    exists s'. split; [exact Hloop|].
    cbn [concat]. rewrite app_assoc. exact Hs'.
Qed.

Lemma len_concat_groups (groups : list (list byte)) :
  Forall (fun g => length g = 8%nat) groups ->
  len (concat groups) = 8 * len groups.
Proof.
  intros H. induction H as [|g groups Hg _ IH]; [reflexivity|].
  cbn [concat]. rewrite len_app, len_cons, IH. unfold len at 1.
  rewrite Hg. lia.
Qed.

End LH5Literals.

Section LH5LiteralStreams.
Import LZHDecoder.

(** X20: a stream of groups that each consist of the flag byte 0xFF and
    eight literal bytes decodes to the literal bytes in order; an output
    buffer with more room is filled up with zero bytes. *)
Theorem decompressLH5_literals (originalSize : Z)
    (groups : list (list byte)) :
  Forall (fun g => length g = 8%nat) groups ->
  8 * len groups <= originalSize ->
  decompressLH5 (concat (map (cons xff) groups)) originalSize
  = Ok (concat groups ++ zeros (originalSize - 8 * len groups)).
Proof.
  intros Hg Hn. pose proof (len_nonneg groups) as Hl.
  unfold decompressLH5.
  destruct (originalSize <? 0) eqn:E; [lia|].
  unfold decompressLH5_run.
  destruct (lh5_loop_literals originalSize
              (concat (map (cons xff) groups)) groups Hg
              (length (concat (map (cons xff) groups))) [] []
              (lh5_start originalSize)) as (s' & -> & _ & _ & Ho).
  - clear. induction groups as [|g groups IH]; [reflexivity|].
    cbn [map concat]. rewrite length_app. cbn [length]. lia.
  - reflexivity.
  - change (len (@nil byte)) with 0. lia.
  - unfold lh5_literal_state. cbn [lh5_start inPos5 outPos5 output5].
    change (len (@nil byte)) with 0. rewrite Z.sub_0_r. repeat split.
  - rewrite Ho. cbn [app]. rewrite len_concat_groups by exact Hg.
    reflexivity.
Qed.

Lemma decompressLH5_literals_witness :
  decompressLH5
    (concat (map (cons xff) [map toUint8 [1; 2; 3; 4; 5; 6; 7; 8]])) 10
  = Ok (concat [map toUint8 [1; 2; 3; 4; 5; 6; 7; 8]]
        ++ zeros (10 - 8 * len [map toUint8 [1; 2; 3; 4; 5; 6; 7; 8]])).
Proof.
  apply (decompressLH5_literals 10 [map toUint8 [1; 2; 3; 4; 5; 6; 7; 8]]).
  - apply Forall_singleton. reflexivity.
  - vm_compute. discriminate.
Defined.

End LH5LiteralStreams.

(** ** LH1 streams of literals *)

Section LH1Literals.
Import LZHDecoder.

Variable compressed : list byte.

Lemma length_bits_of (n : nat) (x : Z) : length (bits_of n x) = n.
Proof.
  revert x. induction n as [|n IH]; intros x; [reflexivity|].
  cbn [bits_of length]. rewrite IH. reflexivity.
Qed.

Lemma bits_value_bits_of (n : nat) (x : Z) :
  0 <= x < 2 ^ Z.of_nat n -> bits_value (bits_of n x) = x.
Proof.
  revert x. induction n as [|n IH]; intros x Hx.
  - change (2 ^ Z.of_nat 0) with 1 in Hx. cbn. lia.
  - rewrite Nat2Z.inj_succ, Z.pow_succ_r in Hx by lia.
    cbn [bits_of bits_value fold_right].
    fold (bits_value (bits_of n (x / 2))).
    rewrite IH by (Z.div_mod_to_equations; lia).
    Z.div_mod_to_equations. lia.
Qed.

Lemma js_and_bit (x : Z) : 0 <= x < 256 -> js_and x 1 = x mod 2.
Proof. intros H. rewrite js_and_1, toInt32_small by lia. reflexivity. Qed.

Lemma js_shr_bit (x : Z) : 0 <= x < 256 -> js_shr x 1 = x / 2.
Proof.
  intros H. rewrite js_shr_small by lia. reflexivity.
Qed.

(** [getBit] hands out the next bit of the stream. *)
Lemma getBit_stream (r : bitreader) (b : Z) (rest : list Z) :
  reader_ok compressed r ->
  reader_stream compressed r = b :: rest ->
  exists r',
    getBit compressed r = (b, r')
    /\ reader_ok compressed r' /\ reader_stream compressed r' = rest.
Proof.
  intros (Hc & Hb & Hi) Hs. unfold getBit, reader_stream in *.
  destruct (Z.eqb_spec (bitCount r) 0) as [E | E].
  - rewrite E in Hs. cbn [Z.to_nat bits_of app] in Hs.
    destruct (drop (Z.to_nat (inPos r)) compressed) as [|c cs] eqn:Ed;
      [discriminate Hs|].
    assert (Hat : at_cursor compressed (inPos r) (c :: cs))
      by (split; assumption).
    pose proof (at_cursor_length _ _ _ Hat) as Hlen.
    rewrite len_cons in Hlen. pose proof (len_nonneg cs) as Hcs.
    destruct (inPos r >=? len compressed) eqn:E1; [lia|]. cbn [andb].
    assert (Hidx : index compressed (Int (inPos r)) = Some (byteZ c)).
    { unfold index. destruct (inPos r <? 0) eqn:E2; [lia|].
      rewrite (at_cursor_lookup _ _ _ _ Hat). reflexivity. }
    cbn [bitBuffer inPos bitCount]. rewrite Hidx. cbn [valInt32].
    pose proof (byteZ_range c) as Hc8.
    rewrite js_and_bit, js_shr_bit by lia.
    unfold bit_stream in Hs. cbn [map concat] in Hs.
    change (bits_of 8 (byteZ c))
      with (byteZ c mod 2 :: bits_of 7 (byteZ c / 2)) in Hs.
    cbn [app] in Hs. injection Hs as Hb0 Hrest.
    eexists. split; [rewrite Hb0; reflexivity|]. split.
    + unfold reader_ok. cbn [bitBuffer inPos bitCount].
      split; [lia|]. split; [Z.div_mod_to_equations; lia | lia].
    + cbn [bitBuffer inPos bitCount]. change (Z.to_nat (8 - 1)) with 7%nat.
      rewrite <- Hrest. f_equal.
      apply at_cursor_cons in Hat. destruct Hat as [_ ->]. reflexivity.
  - cbn [andb].
    replace (Z.to_nat (bitCount r)) with (S (Z.to_nat (bitCount r - 1)))
      in Hs by lia.
    cbn [bits_of app] in Hs. injection Hs as Hb0 Hrest.
    rewrite js_and_bit, js_shr_bit by lia.
    eexists. split; [rewrite Hb0; reflexivity|]. split.
    + unfold reader_ok. cbn [bitBuffer inPos bitCount].
      split; [lia|]. split; [Z.div_mod_to_equations; lia | lia].
    + cbn [bitBuffer inPos bitCount]. exact Hrest.
Qed.

Lemma bits_of_range (n : nat) (x : Z) :
  Forall (fun b => 0 <= b <= 1) (bits_of n x).
Proof.
  revert x. induction n as [|n IH]; intros x; [constructor|].
  cbn [bits_of]. constructor; [|apply IH].
  Z.div_mod_to_equations. lia.
Qed.

Lemma js_or_bit (value bit i : Z) :
  0 <= i < 30 -> 0 <= value < 2 ^ i -> 0 <= bit <= 1 ->
  js_or value (js_shl bit i) = value + 2 ^ i * bit.
Proof.
  intros Hi Hv Hb.
  assert (Hp : 2 ^ i < 2 ^ 30) by (apply Z.pow_lt_mono_r; lia).
  rewrite js_shl_small by nia.
  unfold js_or. rewrite Z.lor_comm. fold (js_or (bit * 2 ^ i) value).
  rewrite js_or_fields by nia. lia.
Qed.

(** [getBits] hands out the next bits of the stream as a number, the
    first bit being the least significant. *)
Lemma getBits_from_stream (bits : list Z) :
  forall (i value : Z) (r : bitreader) (rest : list Z),
    Forall (fun b => 0 <= b <= 1) bits ->
    0 <= i -> i + len bits <= 30 -> 0 <= value < 2 ^ i ->
    reader_ok compressed r ->
    reader_stream compressed r = bits ++ rest ->
    exists r',
      getBits_from compressed (length bits) i value r
      = (value + 2 ^ i * bits_value bits, r')
      /\ reader_ok compressed r' /\ reader_stream compressed r' = rest.
Proof.
  induction bits as [|b bits IH]; intros i value r rest Hbits Hi Hn Hv Hr Hs.
  - exists r. cbn [length getBits_from bits_value fold_right].
    split; [f_equal; lia|]. split; [exact Hr | exact Hs].
  - rewrite len_cons in Hn. pose proof (len_nonneg bits) as Hl.
    apply Forall_cons in Hbits. destruct Hbits as [Hb Hbits].
    cbn [app] in Hs.
    destruct (getBit_stream r b _ Hr Hs) as (r1 & Hg & Hr1 & Hs1).
    cbn [length getBits_from]. rewrite Hg.
    rewrite js_or_bit by lia.
    assert (Hv1 : 0 <= value + 2 ^ i * b < 2 ^ (i + 1)).
    { rewrite Z.pow_add_r by lia. change (2 ^ 1) with 2. nia. }
    destruct (IH (i + 1) (value + 2 ^ i * b) r1 rest Hbits ltac:(lia)
                ltac:(lia) Hv1 Hr1 Hs1) as (r' & Hg' & Hr' & Hs').
    exists r'. split; [|split; assumption].
    rewrite Hg'. f_equal.
    cbn [bits_value fold_right]. fold (bits_value bits).
    rewrite Z.pow_add_r by lia. change (2 ^ 1) with 2. lia.
Qed.

Lemma getBits_byte (r : bitreader) (b : byte) (rest : list Z) :
  reader_ok compressed r ->
  reader_stream compressed r = bits_of 8 (byteZ b) ++ rest ->
  exists r',
    getBits compressed 8 r = (byteZ b, r')
    /\ reader_ok compressed r' /\ reader_stream compressed r' = rest.
Proof.
  intros Hr Hs. unfold getBits.
  destruct (getBits_from_stream (bits_of 8 (byteZ b)) 0 0 r rest
              (bits_of_range 8 (byteZ b)) ltac:(lia)
              ltac:(unfold len; rewrite length_bits_of; lia)
              ltac:(lia) Hr Hs) as (r' & Hg & Hr' & Hs').
  exists r'. split; [|split; assumption].
  rewrite length_bits_of in Hg. rewrite Hg. f_equal.
  rewrite bits_value_bits_of by (pose proof (byteZ_range b);
                                 change (2 ^ Z.of_nat 8) with 256; lia).
  change (2 ^ 0) with 1. lia.
Qed.

(** A reader with more than eight bits to hand out has input left. *)
Lemma reader_input_left (r : bitreader) :
  reader_ok compressed r ->
  (8 < length (reader_stream compressed r))%nat ->
  inPos r < len compressed.
Proof.
  intros (Hc & _ & Hi) Hlen. unfold reader_stream in Hlen.
  rewrite length_app, length_bits_of in Hlen.
  destruct (Z.lt_ge_cases (inPos r) (len compressed)) as [H | H];
    [exact H|].
  rewrite drop_ge in Hlen by (unfold len in *; lia).
  cbn [bit_stream map concat length] in Hlen. lia.
Qed.

Variable originalSize : Z.

Local Abbreviation literal_state :=
  (lh1_literal_state compressed originalSize).

Lemma lh1_token_literal (done : list byte) (b : byte) (rest : list Z)
    (s : lh1_state) :
  len done < originalSize ->
  literal_state done (literal_token b ++ rest) s ->
  literal_state (done ++ [b]) rest (lh1_token compressed originalSize s).
Proof.
  intros Hlt (Hout & Ho & Hr & Hs). unfold literal_token in Hs.
  cbn [app] in Hs.
  destruct (getBit_stream _ _ _ Hr Hs) as (r1 & Hg & Hr1 & Hs1).
  destruct (getBits_byte _ _ _ Hr1 Hs1) as (r2 & Hg2 & Hr2 & Hs2).
  unfold lh1_token. rewrite Hg. change (negb (1 =? 0)) with true. cbv iota.
  rewrite Hg2. unfold lh1_literal_state.
  cbn [lh1_emit outPos output reader].
  rewrite len_app, len_cons, len_nil, Hout, Ho.
  split; [lia|]. split; [|split; assumption].
  replace (originalSize - len done) with (1 + (originalSize - len done - 1))
    by lia.
  pose proof (len_nonneg done).
  rewrite zeros_add by lia. change (zeros 1) with [x00]. cbn [app].
  replace (Z.to_nat (len done)) with (length done + 0)%nat
    by (unfold len; lia).
  rewrite insert_after, insert_cons_0, toUint8_byteZ, <- app_assoc.
  cbn [app]. do 2 f_equal. f_equal. lia.
Qed.

Lemma lh1_loop_literals (lits : list byte) (rest : list Z) :
  forall (fuel : nat) (done : list byte) (s : lh1_state),
    (length lits <= fuel)%nat ->
    len done + len lits = originalSize ->
    literal_state done (concat (map literal_token lits) ++ rest) s ->
    exists s',
      lh1_loop fuel compressed originalSize s = Some s'
      /\ output s' = done ++ lits.
Proof.
  induction lits as [|b lits IH]; intros fuel done s Hfuel Hn Hs.
  - destruct Hs as (Hout & Ho & _). rewrite len_nil in Hn.
    exists s. split.
    + assert (E : (outPos s <? originalSize) = false)
        by (apply Z.ltb_ge; lia).
      destruct fuel; cbn [lh1_loop]; rewrite E; reflexivity.
    + rewrite Ho. replace (originalSize - len done) with 0 by lia.
      reflexivity.
  - rewrite len_cons in Hn. pose proof (len_nonneg lits) as Hl.
    destruct fuel as [|fuel]; [cbn in Hfuel; lia|].
    cbn [map concat] in Hs. rewrite <- app_assoc in Hs.
    pose proof Hs as (Hout & _ & Hr & Hstream).
    cbn [lh1_loop].
    assert (Hc1 : (outPos s <? originalSize) = true)
      by (apply Z.ltb_lt; lia).
    assert (Hc2 : (inPos (reader s) <? len compressed) = true).
    { apply Z.ltb_lt, reader_input_left; [exact Hr|].
      rewrite Hstream, length_app. unfold literal_token.
      cbn [length]. rewrite length_bits_of. lia. }
    rewrite Hc1, Hc2. cbn [andb].
    pose proof (lh1_token_literal done b _ s ltac:(lia) Hs) as Hs1.
    destruct (IH fuel (done ++ [b]) _ ltac:(cbn [length] in Hfuel; lia)
                ltac:(rewrite len_app, len_cons, len_nil; lia) Hs1)
      as (s' & Hloop & Ho').
    exists s'. split; [exact Hloop|].
    rewrite Ho', <- app_assoc. reflexivity.
Qed.

End LH1Literals.

Section LH1LiteralStreams.
Import LZHDecoder.

(** X21: when the bits of the input, byte after byte and the least
    significant bit of each byte first, start with literal tokens (the
    flag 1 and the eight bits of a byte, least significant first), LH1
    decodes as many bytes as there are tokens to the bytes of the
    tokens. *)
Theorem decompressLH1_literals (compressed lits : list byte)
    (rest : list Z) :
  bit_stream compressed = concat (map literal_token lits) ++ rest ->
  decompressLH1 compressed (len lits) = Ok lits.
Proof.
  intros Hs. pose proof (len_nonneg lits) as Hl.
  unfold decompressLH1. destruct (len lits <? 0) eqn:E; [lia|].
  unfold decompressLH1_run.
  destruct (lh1_loop_literals compressed (len lits) lits rest
              (Z.to_nat (len lits)) [] (lh1_start (len lits)))
    as (s' & -> & Ho).
  - unfold len. lia.
  - change (len (@nil byte)) with 0. lia.
  - unfold lh1_literal_state. cbn [lh1_start outPos output reader].
    change (len (@nil byte)) with 0. rewrite Z.sub_0_r.
    split; [reflexivity|]. split; [reflexivity|]. split.
    + unfold reader_ok. cbn [inPos bitBuffer bitCount].
      pose proof (len_nonneg compressed). lia.
    + unfold reader_stream. cbn [inPos bitBuffer bitCount].
      change (Z.to_nat 0) with 0%nat. cbn [bits_of app]. rewrite drop_0.
      exact Hs.
  - rewrite Ho. reflexivity.
Qed.

Lemma decompressLH1_literals_witness :
  decompressLH1 (map toUint8 [0x83; 0x0A; 0x1D; 0x02])
    (len [x41; x42; x43])
  = Ok [x41; x42; x43].
Proof.
  apply (decompressLH1_literals (map toUint8 [0x83; 0x0A; 0x1D; 0x02])
           [x41; x42; x43]
           (drop 27 (bit_stream (map toUint8 [0x83; 0x0A; 0x1D; 0x02])))).
  vm_compute. reflexivity.
Defined.

End LH1LiteralStreams.

(** ** The bit reader of LH1 *)

Section BitStream.
Import LZHDecoder.

Lemma getBit_exhausted (compressed : list byte) (r : bitreader) :
  reader_ok compressed r -> reader_stream compressed r = [] ->
  getBit compressed r = (0, r).
Proof.
  intros (Hc & _ & Hi) Hs. unfold reader_stream in Hs.
  apply app_eq_nil in Hs. destruct Hs as [Hp Hd].
  assert (Hc0 : bitCount r = 0).
  { apply (f_equal length) in Hp. rewrite length_bits_of in Hp.
    cbn [length] in Hp. lia. }
  assert (Hin : len compressed <= inPos r).
  { destruct (drop (Z.to_nat (inPos r)) compressed) as [|c cs] eqn:Ed.
    - apply (f_equal length) in Ed. rewrite length_drop in Ed.
      cbn [length] in Ed. unfold len. lia.
    - discriminate Hd. }
  unfold getBit. rewrite Hc0. cbn [Z.eqb andb].
  destruct (inPos r >=? len compressed) eqn:E; [reflexivity | lia].
Qed.

Lemma getBits_from_exhausted (compressed : list byte) (n : nat) (i : Z)
    (r : bitreader) :
  reader_ok compressed r -> reader_stream compressed r = [] ->
  getBits_from compressed n i 0 r = (0, r).
Proof.
  intros Hr Hs. revert i. induction n as [|n IH]; intros i; [reflexivity|].
  cbn [getBits_from]. rewrite (getBit_exhausted _ _ Hr Hs).
  replace (js_or 0 (js_shl 0 i)) with 0; [apply IH|].
  unfold js_or, js_shl. change (toInt32 0) with 0.
  rewrite Z.shiftl_0_l. reflexivity.
Qed.

(** X22: [getBits(n)], for [n] up to 30, returns the next [n] bits of the
    input as a number, the first bit being the least significant, and
    leaves the following bits to be read; the bits of the input are those
    of its bytes in order, the least significant bit of each byte first.
    Once the input is used up, [getBits] returns 0 and reads nothing. *)
Theorem getBits_stream (compressed : list byte) (r : bitreader) :
  reader_ok compressed r ->
  (forall (bits rest : list Z),
      len bits <= 30 ->
      reader_stream compressed r = bits ++ rest ->
      exists r',
        getBits compressed (length bits) r = (bits_value bits, r')
        /\ reader_ok compressed r'
        /\ reader_stream compressed r' = rest)
  /\ (forall n : nat,
         reader_stream compressed r = [] ->
         getBits compressed n r = (0, r)).
Proof.
  intros Hr. split.
  - intros bits rest Hn Hs. unfold getBits.
    assert (Hbits : Forall (fun b => 0 <= b <= 1) bits).
    { assert (H : Forall (fun b => 0 <= b <= 1)
                    (reader_stream compressed r)).
      { unfold reader_stream, bit_stream. apply Forall_app. split.
        - apply bits_of_range.
        - apply Forall_concat, Forall_map, Forall_forall.
          intros c _. apply bits_of_range. }
      rewrite Hs in H. apply Forall_app in H. exact (proj1 H). }
    destruct (getBits_from_stream compressed bits 0 0 r rest Hbits
                ltac:(lia) ltac:(lia) ltac:(lia) Hr Hs)
      as (r' & Hg & Hr' & Hs').
    exists r'. split; [|split; assumption].
    rewrite Hg. f_equal. change (2 ^ 0) with 1. lia.
  - intros n Hs. apply getBits_from_exhausted; assumption.
Qed.

Lemma getBits_stream_witness :
  exists r',
    getBits [x83] (length [1; 1; 0])
      {| inPos := 0; bitBuffer := 0; bitCount := 0 |}
    = (bits_value [1; 1; 0], r')
    /\ reader_ok [x83] r'
    /\ reader_stream [x83] r' = [0; 0; 0; 0; 1].
Proof.
  refine (proj1 (getBits_stream [x83]
                   {| inPos := 0; bitBuffer := 0; bitCount := 0 |} _)
            [1; 1; 0] [0; 0; 0; 0; 1] _ _).
  - vm_compute. repeat split; discriminate.
  - vm_compute. discriminate.
  - vm_compute. reflexivity.
Defined.

End BitStream.

(** ** What the decoder does not check *)

Section Unchecked.
Import LZHDecoder.
Variable buffer : list byte.

Local Tactic Notation "step_with" uconstr(L) hyp(H) :=
  rewrite (bind_Ok _ _ _ _ _ (L H)).

(** A header with the fields of [file], any accepted size byte [hs], any
    checksum byte [ck] and any payload of the declared length. *)
Lemma readHeader_unchecked (now : Date) (file : LZHEncoder.LHAFileInput)
    (hs ck : byte) (payload : list byte) (o : Z) (rest : list byte) :
  roundtrip_input file ->
  1 <= byteZ hs <= 128 ->
  len payload = len (LZHEncoder.data file) ->
  at_cursor buffer o
    ((hs :: ck :: header_fields now file) ++ payload ++ rest) ->
  readHeader buffer (Int o)
  = Ok (Some {| filename := LZHEncoder.filename file;
                originalSize := len (LZHEncoder.data file);
                compressedSize := len (LZHEncoder.data file);
                timestamp := timestamp (decoded_entry now file);
                crc := LZHEncoder.calculateCRC16 (LZHEncoder.data file);
                method := str "-lh0-";
                os := Some 0;
                data := payload |},
        Int (o + 24 + len (stored_name file) + len payload)).
Proof.
  intros [Hname Hdata] Hhs Hpay H.
  destruct (well_named_stored file Hname) as [Hstored HL].
  pose proof (len_nonneg (stored_name file)) as HL0.
  pose proof (len_nonneg payload) as Hd0.
  pose proof (at_cursor_length _ _ _ H) as Hlen.
  pose proof (proj1 (proj1 H)) as Ho.
  rewrite !len_app, !len_cons, len_header_fields in Hlen.
  pose proof (len_nonneg rest) as Hr0.
  unfold header_fields, dword_bytes, word_bytes in H. cbv zeta in H.
  replace (utf8_encode (str "-lh0-")) with [x2d; x6c; x68; x30; x2d] in H
    by (vm_compute; reflexivity).
  rewrite <- ?app_assoc in H. cbn [app] in H.
  rewrite <- ?app_assoc in H. cbn [app] in H.
  set (dt := LZHEncoder.dateToDosTime
               (default now (LZHEncoder.timestamp file))) in *.
  unfold readHeader.
  unfold get_offset at 1. unfold bind at 1.
  destruct (num_ge (Int o) (Int (len buffer))) eqn:E0;
    [unfold num_ge in E0; lia|].
  step_with (readByte_at buffer o _ _) H. apply at_cursor_cons in H.
  cbn [val_eq toNumber num_gt].
  destruct ((byteZ hs =? 0) || (byteZ hs >? 128)) eqn:E1;
    [apply orb_true_iff in E1; destruct E1; lia|].
  step_with (readByte_at buffer (o + 1) _ _) H. apply at_cursor_cons in H.
  step_with (readString_method buffer (o + 1 + 1) _) H.
  apply (at_cursor_app buffer _ [x2d; x6c; x68; x30; x2d]) in H.
  change (len [x2d; x6c; x68; x30; x2d]) with 5 in H.
  change (negb (startsWith (str "-lh0-") (str "-lh"))
          && negb (startsWith (str "-lh0-") (str "-lz"))
          && negb (str_eq (str "-lh0-") (str "-lhd-"))) with false.
  cbv iota.
  step_with (readDWord_at buffer (o + 1 + 1 + 5) _ _ _ _ _) H.
  apply at_cursor_cons4 in H.
  step_with (readDWord_at buffer (o + 1 + 1 + 5 + 4) _ _ _ _ _) H.
  apply at_cursor_cons4 in H.
  rewrite stored_dword_small by lia.
  destruct ((len (LZHEncoder.data file) >? len buffer)
            || (len (LZHEncoder.data file) >? 100 * 1024 * 1024)) eqn:E2;
    [apply orb_true_iff in E2; destruct E2; lia|].
  step_with (readWord_at buffer (o + 1 + 1 + 5 + 4 + 4) _ _ _) H.
  apply at_cursor_cons2 in H.
  step_with (readWord_at buffer (o + 1 + 1 + 5 + 4 + 4 + 2) _ _ _) H.
  apply at_cursor_cons2 in H.
  step_with (readByte_at buffer (o + 1 + 1 + 5 + 4 + 4 + 2 + 2) _ _) H.
  apply at_cursor_cons in H.
  step_with (readByte_at buffer (o + 1 + 1 + 5 + 4 + 4 + 2 + 2 + 1) _ _) H.
  apply at_cursor_cons in H.
  step_with (readByte_at buffer (o + 1 + 1 + 5 + 4 + 4 + 2 + 2 + 1 + 1) _ _) H.
  apply at_cursor_cons in H.
  rewrite (byteZ_toUint8_small (len (stored_name file))) by lia.
  rewrite Hstored in H |- *.
  step_with (readString_name buffer _ _ _ Hname) H.
  apply at_cursor_app in H.
  step_with (readWord_at buffer _ _ _ _) H.
  apply at_cursor_cons2 in H.
  change (byteZ (toUint8 0)) with 0.
  cbn [toNumber num_ge val_eq]. change (0 >=? 1) with false.
  change (0 =? 1) with false. change (0 =? 2) with false. cbv iota.
  unfold ret at 1 2. unfold bind at 1 2. unfold get_offset at 1.
  unfold bind at 1.
  cbn [num_add num_gt].
  match goal with
  | |- (if ?c then ret None else _) _ = _ =>
      destruct c eqn:E3; [rewrite ?Hstored in *; lia|]
  end.
  pose proof (readBytes_at buffer _ _ _ H) as Hread.
  rewrite Hpay in Hread at 1. rewrite (bind_Ok _ _ _ _ _ Hread).
  unfold lift, bind, ret.
  change (decompress (str "-lh0-") ?c ?n) with (@Ok (list byte) c).
  cbv iota.
  destruct (well_named_sanitize _ Hname) as [_ ->].
  pose proof (stored_word_small _
                (calculateCRC16_range (LZHEncoder.data file))) as Hcrc.
  unfold stored_word in Hcrc. rewrite Hcrc.
  unfold decoded_entry, stored_word. cbv zeta. fold dt.
  cbn [timestamp].
  f_equal. f_equal. f_equal. rewrite ?Hstored in *. lia.
Qed.

End Unchecked.

Section UncheckedArchive.
Import LZHDecoder.

(** X23: the decoder verifies neither the header checksum nor the CRC,
    and does not use the header size beyond its range check: a header
    with the fields of an input, any size byte from 1 to 128, any
    checksum byte and any payload of the declared length is returned as
    an entry with that payload and the stored CRC. *)
Theorem extractAll_unchecked (now : Date) (file : LZHEncoder.LHAFileInput)
    (hs ck : byte) (payload : list byte) (fuel : nat) :
  roundtrip_input file ->
  1 <= byteZ hs <= 128 ->
  len payload = len (LZHEncoder.data file) ->
  extractAll ((hs :: ck :: header_fields now file) ++ payload ++ [x00])
    (S (S fuel))
  = Some [{| filename := LZHEncoder.filename file;
             originalSize := len (LZHEncoder.data file);
             compressedSize := len (LZHEncoder.data file);
             timestamp := timestamp (decoded_entry now file);
             crc := LZHEncoder.calculateCRC16 (LZHEncoder.data file);
             method := str "-lh0-";
             os := Some 0;
             data := payload |}].
Proof.
  intros Hfile Hhs Hpay.
  set (buffer := (hs :: ck :: header_fields now file) ++ payload ++ [x00]).
  assert (H : at_cursor buffer 0
                ((hs :: ck :: header_fields now file) ++ payload ++ [x00])).
  { split; [|reflexivity]. pose proof (len_nonneg buffer). lia. }
  pose proof (at_cursor_length _ _ _ H) as Hlen.
  rewrite !len_app, !len_cons, len_header_fields in Hlen.
  change (len (@nil byte)) with 0 in Hlen.
  pose proof (len_nonneg (stored_name file)) as HL0.
  pose proof (len_nonneg payload) as Hp0.
  unfold extractAll. cbn [extractAll_loop].
  destruct (num_lt (Int 0) (Int (len buffer))) eqn:E;
    [|unfold num_lt in E; lia].
  rewrite (readHeader_unchecked buffer now file hs ck payload 0 [x00]
             Hfile Hhs Hpay H).
  apply at_cursor_app in H. apply at_cursor_app in H.
  rewrite !len_cons, len_header_fields in H.
  replace (0 + 24 + len (stored_name file) + len payload)
    with (0 + (1 + (1 + (22 + len (stored_name file)))) + len payload)
    by lia.
  match goal with
  | |- (if ?c then _ else _) = _ =>
      destruct c eqn:E'; [|unfold num_lt in E'; lia]
  end.
  destruct (readHeader_end_marker _ _ _ H) as (st & ->). reflexivity.
Qed.

Lemma extractAll_unchecked_witness :
  extractAll
    ((x20 :: xff :: header_fields epoch sample_input) ++ [x00; x00] ++ [x00])
    (S (S 0))
  = Some [{| filename := LZHEncoder.filename sample_input;
             originalSize := len (LZHEncoder.data sample_input);
             compressedSize := len (LZHEncoder.data sample_input);
             timestamp := timestamp (decoded_entry epoch sample_input);
             crc := LZHEncoder.calculateCRC16 (LZHEncoder.data sample_input);
             method := str "-lh0-";
             os := Some 0;
             data := [x00; x00] |}].
Proof.
  apply (extractAll_unchecked epoch sample_input x20 xff [x00; x00] 0).
  - exact sample_input_ok.
  - vm_compute. split; discriminate.
  - reflexivity.
Defined.

End UncheckedArchive.

(** ** Names that the decoder does not accept *)

Section LongNames.
Import LZHDecoder.

(** X24: when the name of the first input takes 107 to 234 bytes in
    UTF-8, the decoder returns no entry at all for the archive that the
    encoder produces, whatever inputs follow: the header size that the
    encoder stores is above 128, or wraps to 0, and the decoder stops
    there. *)
Theorem extractAll_create_long_name (now : Date)
    (file : LZHEncoder.LHAFileInput) (files : list LZHEncoder.LHAFileInput)
    (fuel : nat) :
  107 <= len (utf8_encode (LZHEncoder.filename file)) <= 234 ->
  extractAll (LZHEncoder.create now (file :: files)) (S fuel) = Some [].
Proof.
  intros Hn. rewrite create_layout. cbn [map concat].
  unfold entry_block at 1.
  destruct (header_layout now file) as (ck & -> & _).
  cbn [app]. apply rejected_header_size.
  rewrite byteZ_toUint8, len_stored_name, Z.min_l by lia.
  destruct (Z.eq_dec (len (utf8_encode (LZHEncoder.filename file))) 234)
    as [-> | Hne].
  - left. reflexivity.
  - right. rewrite Z.mod_small by lia. lia.
Qed.

Lemma extractAll_create_long_name_witness :
  extractAll
    (LZHEncoder.create epoch
       [{| LZHEncoder.filename := replicate 107 0x61;
           LZHEncoder.data := [x41];
           LZHEncoder.timestamp := None |}; sample_input]) (S 0)
  = Some [].
Proof.
  apply (extractAll_create_long_name epoch
           {| LZHEncoder.filename := replicate 107 0x61;
              LZHEncoder.data := [x41];
              LZHEncoder.timestamp := None |} [sample_input] 0).
  vm_compute. split; discriminate.
Defined.

End LongNames.
